(** * go-sockaddr: IPv4 socket addresses and interface-address pipelines

    A shallow embedding of the IPv4 address type (the [IPv4Addr] struct
    and its methods) and of the [IfAddrs] collection operations of
    [ifaddrs.go], followed by the properties established about them.

    Conventions.  A Go [uint32]/[uint16]/[int] is a [Z]; wrap-around is
    written out where the code can overflow.  A Go [string] is a
    [string] of bytes.  A slice is a [list]; code that mutates a slice
    in place ([sort.Sort] through [Swap]) threads the slice through a
    small state-and-panic monad. *)

From Stdlib Require Import ZArith List String Ascii Bool Lia Arith Permutation.
From Stdlib Require Import DecimalString DecimalN DecimalZ.
Import ListNotations.

Local Open Scope string_scope.
Local Open Scope list_scope.
Local Open Scope Z_scope.

(** Go's string concatenation. *)
Infix "+++" := String.append (right associativity, at level 60).

(* ================================================================== *)
(** ** Go runtime pieces used by the address code *)

Module Go.

(** [fmt]'s [%d] on an unsigned value: the decimal digits. *)
Definition itoa (n : Z) : string :=
  NilEmpty.string_of_uint (N.to_uint (Z.to_N n)).

(** [binary.BigEndian.PutUint32]: the four bytes of [v], most
    significant first (each [byte(v >> k)] keeps the low eight bits). *)
Definition PutUint32 (v : Z) : list Z :=
  [ Z.shiftr v 24 mod 256; Z.shiftr v 16 mod 256;
    Z.shiftr v 8 mod 256; v mod 256 ].

(** [net.simpleMaskLength], inner loop: [for v&0x80 != 0 { n++; v <<= 1 }]
    on a byte [v]. At most eight iterations can run. *)
Fixpoint leading_ones (fuel : nat) (n v : Z) : Z * Z :=
  match fuel with
  | O => (n, v)
  | S fuel' =>
      if Z.land v 128 =? 0 then (n, v)
      else leading_ones fuel' (n + 1) (Z.shiftl v 1 mod 256)
  end.

(** [net.simpleMaskLength]: the number of leading one bits when the mask
    is ones followed by zeros, and [-1] otherwise. *)
Fixpoint simpleMaskLength_from (n : Z) (mask : list Z) : Z :=
  match mask with
  | [] => n
  | v :: rest =>
      if v =? 255 then simpleMaskLength_from (n + 8) rest
      else
        let '(n', v') := leading_ones 8 n v in
        if negb (v' =? 0) then -1
        else if forallb (fun b => b =? 0) rest then n' else -1
  end.

Definition simpleMaskLength (mask : list Z) : Z :=
  simpleMaskLength_from 0 mask.

(** [net.IPMask.Size]: [(ones, bits)], or [(0, 0)] for a mask that is
    not in canonical form. *)
Definition IPMask_Size (mask : list Z) : Z * Z :=
  let ones := simpleMaskLength mask in
  if ones =? -1 then (0, 0) else (ones, Z.of_nat (List.length mask) * 8).

Definition hexdigit (d : Z) : ascii :=
  if d <? 10 then ascii_of_N (Z.to_N (48 + d))
  else ascii_of_N (Z.to_N (87 + d)).

(** [net.hexString]: two lower-case hexadecimal digits per byte. *)
Fixpoint hexString (bs : list Z) : string :=
  match bs with
  | [] => EmptyString
  | b :: rest =>
      String (hexdigit (Z.shiftr b 4)) (String (hexdigit (Z.land b 15))
             (hexString rest))
  end.

(** [net.IP.String] on a four-byte address: dotted decimal. *)
Definition IP_String (ip : list Z) : string :=
  match ip with
  | [a; b; c; d] =>
      itoa a +++ "." +++ itoa b +++ "." +++ itoa c +++ "." +++ itoa d
  | [] => "<nil>"
  | _ => "?" +++ hexString ip
  end.

(** [net.IPNet.String] for a four-byte address and mask:
    [ip/len] for a canonical mask, [ip/hexmask] otherwise. *)
Definition IPNet_String (ip mask : list Z) : string :=
  let l := simpleMaskLength mask in
  if l =? -1 then IP_String ip +++ "/" +++ hexString mask
  else IP_String ip +++ "/" +++ itoa l.

End Go.

(* ================================================================== *)
(** ** [IPv4Addr] *)

Module IPv4.

(** [IPv4Address], [IPv4Network] and [IPv4Mask] are [uint32]; [IPPort]
    is [uint16]. *)
Definition uint32 (z : Z) : Z := z mod 2 ^ 32.

Definition IPv4HostMask : Z := 0xffffffff.

(** The struct's embedded [IPAddr] interface field is never set by the
    code and is left out. *)
Record IPv4Addr : Type := mkIPv4Addr {
  Address : Z;
  Mask : Z;
  Port : Z
}.

Definition wf (a : IPv4Addr) : Prop :=
  0 <= Address a < 2 ^ 32 /\ 0 <= Mask a < 2 ^ 32 /\ 0 <= Port a < 2 ^ 16.

Definition eqb (a b : IPv4Addr) : bool :=
  (Address a =? Address b) && (Mask a =? Mask b) && (Port a =? Port b).

Definition NetworkAddress (ipv4 : IPv4Addr) : Z :=
  Z.land (Address ipv4) (Mask ipv4).

(** [uint32(Address)&uint32(Mask) | ^uint32(Mask)] *)
Definition BroadcastAddress (ipv4 : IPv4Addr) : Z :=
  Z.lor (Z.land (Address ipv4) (Mask ipv4)) (Z.lxor (Mask ipv4) 0xffffffff).

Definition Maskbits (ipv4 : IPv4Addr) : Z :=
  fst (Go.IPMask_Size (Go.PutUint32 (Mask ipv4))).

Definition NetIP (ipv4 : IPv4Addr) : list Z := Go.PutUint32 (Address ipv4).

Definition NetIPMask (ipv4 : IPv4Addr) : list Z := Go.PutUint32 (Mask ipv4).

(** [NetIPNet().String()] *)
Definition NetIPNet_String (ipv4 : IPv4Addr) : string :=
  Go.IPNet_String (Go.PutUint32 (NetworkAddress ipv4)) (NetIPMask ipv4).

Definition Broadcast (ipv4 : IPv4Addr) : IPv4Addr :=
  {| Address := BroadcastAddress ipv4; Mask := IPv4HostMask; Port := 0 |}.

Definition FirstUsable (ipv4 : IPv4Addr) : IPv4Addr :=
  let addr := NetworkAddress ipv4 in
  let addr := if Maskbits ipv4 <? 31 then uint32 (addr + 1) else addr in
  {| Address := addr; Mask := IPv4HostMask; Port := 0 |}.

Definition Host (ipv4 : IPv4Addr) : IPv4Addr :=
  {| Address := Address ipv4; Mask := IPv4HostMask; Port := Port ipv4 |}.

Definition LastUsable (ipv4 : IPv4Addr) : IPv4Addr :=
  let addr := BroadcastAddress ipv4 in
  let addr := if Maskbits ipv4 <? 31 then uint32 (addr - 1) else addr in
  {| Address := addr; Mask := IPv4HostMask; Port := 0 |}.

Definition Network (ipv4 : IPv4Addr) : IPv4Addr :=
  {| Address := NetworkAddress ipv4; Mask := Mask ipv4; Port := 0 |}.

(** [fmt.Sprintf("%s:%d", ipv4.NetIP().String(), ipv4.Port)] *)
Definition hostport (ipv4 : IPv4Addr) : string :=
  Go.IP_String (NetIP ipv4) +++ ":" +++ Go.itoa (Port ipv4).

Definition DialPacketArgs (ipv4 : IPv4Addr) : string * string :=
  if negb (Mask ipv4 =? IPv4HostMask) || (Port ipv4 =? 0)
  then ("udp4", "")
  else ("udp4", hostport ipv4).

Definition DialStreamArgs (ipv4 : IPv4Addr) : string * string :=
  if negb (Mask ipv4 =? IPv4HostMask) || (Port ipv4 =? 0)
  then ("tcp4", "")
  else ("tcp4", hostport ipv4).

Definition ListenPacketArgs (ipv4 : IPv4Addr) : string * string :=
  if negb (Mask ipv4 =? IPv4HostMask)
  then ("udp4", "")
  else ("udp4", hostport ipv4).

Definition ListenStreamArgs (ipv4 : IPv4Addr) : string * string :=
  if negb (Mask ipv4 =? IPv4HostMask)
  then ("tcp4", "")
  else ("tcp4", hostport ipv4).

Definition String_ (ipv4 : IPv4Addr) : string :=
  if negb (Port ipv4 =? 0) then hostport ipv4
  else if Maskbits ipv4 =? 32 then Go.IP_String (NetIP ipv4)
  else Go.IP_String (NetIP ipv4) +++ "/" +++ Go.itoa (Maskbits ipv4).

End IPv4.

(* ================================================================== *)
(** ** Go's [strings] and [strconv] functions used by [ifaddrs.go]

    Separators are single bytes in every call of the code, so [Split]
    and [SplitN] take the separator as a byte. [ToLower] and
    [TrimSpace] are given on ASCII (Go also maps and trims non-ASCII
    runes; no such rune lower-cases to a letter of a selector name
    handled below). *)

Module Strings.

Definition byte_of (c : ascii) : Z := Z.of_N (N_of_ascii c).

(** [strings.Cut]-like helper of [genSplit]: the text before and after
    the first occurrence of [sep], or [None] when [Index] is negative. *)
Fixpoint cut (sep : ascii) (s : string) : option (string * string) :=
  match s with
  | EmptyString => None
  | String c s' =>
      if Ascii.eqb c sep then Some (EmptyString, s')
      else match cut sep s' with
           | Some (a, b) => Some (String c a, b)
           | None => None
           end
  end.

(** [strings.SplitN(s, sep, n)] for [n >= 0]: at most [n] pieces, the
    last one being the unsplit remainder. *)
Fixpoint SplitN (s : string) (sep : ascii) (n : nat) : list string :=
  match n with
  | O => []
  | S n' =>
      match n' with
      | O => [s]
      | S _ =>
          match cut sep s with
          | Some (a, b) => a :: SplitN b sep n'
          | None => [s]
          end
      end
  end.

(** [strings.Split(s, sep)]: [genSplit] with [n = Count(s, sep) + 1],
    which never exceeds [len(s) + 1]. *)
Definition Split (s : string) (sep : ascii) : list string :=
  SplitN s sep (S (String.length s)).

Definition isSpace (c : ascii) : bool :=
  let n := byte_of c in
  (n =? 9) || (n =? 10) || (n =? 11) || (n =? 12) || (n =? 13) || (n =? 32).

Fixpoint TrimLeft (s : string) : string :=
  match s with
  | EmptyString => EmptyString
  | String c s' => if isSpace c then TrimLeft s' else s
  end.

Fixpoint TrimRight (s : string) : string :=
  match s with
  | EmptyString => EmptyString
  | String c s' =>
      match TrimRight s' with
      | EmptyString => if isSpace c then EmptyString else String c EmptyString
      | t => String c t
      end
  end.

Definition TrimSpace (s : string) : string := TrimRight (TrimLeft s).

Definition lower (c : ascii) : ascii :=
  let n := byte_of c in
  if (65 <=? n) && (n <=? 90) then ascii_of_N (Z.to_N (n + 32)) else c.

Fixpoint ToLower (s : string) : string :=
  match s with
  | EmptyString => EmptyString
  | String c s' => String (lower c) (ToLower s')
  end.

(** [strings.Compare]: [-1], [0] or [1] by byte-wise lexical order. *)
Definition Compare (a b : string) : Z :=
  match String.compare a b with
  | Lt => -1
  | Eq => 0
  | Gt => 1
  end.

Inductive NumError : Type := ErrSyntax | ErrRange.

Definition maxUint64 : Z := 2 ^ 64 - 1.

(** The digit loop of [strconv.ParseUint(s, 10, 64)]. *)
Fixpoint parseDigits (n : Z) (s : string) : Z * option NumError :=
  match s with
  | EmptyString => (n, None)
  | String c s' =>
      let b := byte_of c in
      if (48 <=? b) && (b <=? 57) then
        let d := b - 48 in
        if n >=? maxUint64 / 10 + 1 then (maxUint64, Some ErrRange)
        else
          let n1 := n * 10 + d in
          if n1 >? maxUint64 then (maxUint64, Some ErrRange)
          else parseDigits n1 s'
      else (0, Some ErrSyntax)
  end.

(** [strconv.ParseUint(s, 10, 64)]: the value and the error. *)
Definition ParseUint (s : string) : Z * option NumError :=
  match s with
  | EmptyString => (0, Some ErrSyntax)
  | _ => parseDigits 0 s
  end.

End Strings.

(* ================================================================== *)
(** ** Socket addresses and interface-address records *)

Module Sock.

Import IPv4.

(** Modelled from the spec: the IPv6 and UNIX-domain address types, the
    [SockAddr] interface with its type tags, and the [IfAddr] record are
    declared in files that are not among the sources.  An IPv6 or UNIX
    address is represented by what the collection code observes of it:
    its string form and, for IPv6, its mask-bit count and port. *)
Record IPv6Addr : Type := mkIPv6Addr {
  v6String : string;
  v6Maskbits : Z;
  v6Port : Z
}.

Record UnixSock : Type := mkUnixSock { unixPath : string }.

Inductive SockAddr : Type :=
| SockIPv4 (a : IPv4Addr)
| SockIPv6 (a : IPv6Addr)
| SockUnix (u : UnixSock).

(** Modelled from the spec: the type tags, a bit set in which
    [TypeIP = TypeIPv4 | TypeIPv6]. *)
Definition TypeUnix : Z := 1.
Definition TypeIPv4 : Z := 2.
Definition TypeIPv6 : Z := 4.
Definition TypeIP : Z := 6.

Definition Type_ (sa : SockAddr) : Z :=
  match sa with
  | SockIPv4 _ => TypeIPv4
  | SockIPv6 _ => TypeIPv6
  | SockUnix _ => TypeUnix
  end.

Definition TypeName (sa : SockAddr) : string :=
  match sa with
  | SockIPv4 _ => "IPv4"
  | SockIPv6 _ => "IPv6"
  | SockUnix _ => "UNIX"
  end.

Definition SockAddr_String (sa : SockAddr) : string :=
  match sa with
  | SockIPv4 a => IPv4.String_ a
  | SockIPv6 a => v6String a
  | SockUnix u => unixPath u
  end.

(** [IPv4Addr.Equal] *)
Definition Equal (ipv4 : IPv4Addr) (sa : SockAddr) : bool :=
  if negb (Type_ sa =? TypeIPv4) then false
  else
    match sa with
    | SockIPv4 ipv4b =>
        if negb (Port ipv4 =? Port ipv4b) then false
        else if negb (Address ipv4 =? Address ipv4b) then false
        else if negb (String.eqb (NetIPNet_String ipv4)
                                 (NetIPNet_String ipv4b)) then false
        else true
    | _ => false
    end.

(** Modelled from the spec: [net.Interface], the interface metadata. *)
Record Interface : Type := mkInterface {
  Index : Z;
  MTU : Z;
  Name : string;
  HardwareAddr : string;
  Flags : Z
}.

Record IfAddr : Type := mkIfAddr {
  Addr : SockAddr;
  Intf : Interface
}.

Definition IfAddrs : Type := list IfAddr.

Definition IfName (a : IfAddr) : string := Name (Intf a).

(** [ToIPAddr(sa)] followed by [IPPort()] / [Maskbits()]; [None] is the
    nil pointer returned for a non-IP address. *)
Definition IPPortOf (sa : SockAddr) : option Z :=
  match sa with
  | SockIPv4 a => Some (Port a)
  | SockIPv6 a => Some (v6Port a)
  | SockUnix _ => None
  end.

Definition MaskbitsOf (sa : SockAddr) : option Z :=
  match sa with
  | SockIPv4 a => Some (IPv4.Maskbits a)
  | SockIPv6 a => Some (v6Maskbits a)
  | SockUnix _ => None
  end.

End Sock.

(* ================================================================== *)
(** ** Package [sort] of the Go standard library

    [multiIfAddrSorter.Sort] calls [sort.Sort], which drives the
    sorter through its [Len], [Less] and [Swap] methods.  [sort.Sort]
    is the pattern-defeating quicksort of the standard library (Go 1.19
    and later); it is transcribed here over a state [S] that the three
    methods read and write.  A method may panic (an index out of range):
    [Panics].  Loops whose trip count is bounded by their indices recurse
    on that bound; the others take fuel and give [Starves] without it. *)

Module GoSort.

Inductive result (A : Type) : Type :=
| Returns (a : A)
| Panics
| Starves.
Arguments Returns {A} a.
Arguments Panics {A}.
Arguments Starves {A}.

Section Monad.
Context {S : Type}.

Definition M (A : Type) : Type := S -> result (A * S).

Definition ret {A} (a : A) : M A := fun s => Returns (a, s).

Definition bind {A B} (m : M A) (k : A -> M B) : M B :=
  fun s =>
    match m s with
    | Returns (a, s') => k a s'
    | Panics => Panics
    | Starves => Starves
    end.

Definition starve {A} : M A := fun _ => Starves.
End Monad.

Notation "x <- m ;; k" := (bind m (fun x => k))
  (at level 61, m at next level, right associativity).
Notation "m ;;; k" := (bind m (fun _ => k))
  (at level 61, right associativity).

(** [sort.Interface] *)
Record Interface (S : Type) : Type := mkInterface {
  Len : @M S Z;
  Less : Z -> Z -> @M S bool;
  Swap : Z -> Z -> @M S unit
}.
Arguments Len {S} _.
Arguments Less {S} _ _ _.
Arguments Swap {S} _ _ _.

Section Sort.
Context {S : Type} (data : Interface S).

(** [for j := i; j > a && data.Less(j, j-1); j-- { data.Swap(j, j-1) }],
    with [j = a + k]. *)
Fixpoint insertDown (a : Z) (k : nat) : M unit :=
  match k with
  | O => ret tt
  | Datatypes.S k' =>
      let j := a + Z.of_nat k in
      lt <- Less data j (j - 1) ;;
      if lt then Swap data j (j - 1) ;;; insertDown a k' else ret tt
  end.

(** [for i := a + 1; i < b; i++ { ... }], [n] iterations left. *)
Fixpoint insertionLoop (a i : Z) (n : nat) : M unit :=
  match n with
  | O => ret tt
  | Datatypes.S n' =>
      insertDown a (Z.to_nat (i - a)) ;;; insertionLoop a (i + 1) n'
  end.

Definition insertionSort (a b : Z) : M unit :=
  insertionLoop a (a + 1) (Z.to_nat (b - (a + 1))).

(** [siftDown]; [root] grows at every turn, so [hi + 1] turns suffice. *)
Fixpoint siftDownLoop (n : nat) (root hi first : Z) : M unit :=
  match n with
  | O => starve
  | Datatypes.S n' =>
      let child := 2 * root + 1 in
      if child >=? hi then ret tt
      else
        child <- (if child + 1 <? hi
                  then lt <- Less data (first + child) (first + child + 1) ;;
                       ret (if lt then child + 1 else child)
                  else ret child) ;;
        lt <- Less data (first + root) (first + child) ;;
        if negb lt then ret tt
        else Swap data (first + root) (first + child) ;;;
             siftDownLoop n' child hi first
  end.

Definition siftDown (lo hi first : Z) : M unit :=
  siftDownLoop (Datatypes.S (Z.to_nat hi)) lo hi first.

(** [for i := start; i >= 0; i-- { siftDown(data, i, hi, first) }] *)
Fixpoint heapBuild (n : nat) (i hi first : Z) : M unit :=
  match n with
  | O => ret tt
  | Datatypes.S n' => siftDown i hi first ;;; heapBuild n' (i - 1) hi first
  end.

(** [for i := hi - 1; i >= 0; i-- { Swap(first, first+i); siftDown(lo, i, first) }] *)
Fixpoint heapPop (n : nat) (i lo first : Z) : M unit :=
  match n with
  | O => ret tt
  | Datatypes.S n' =>
      Swap data first (first + i) ;;;
      siftDown lo i first ;;;
      heapPop n' (i - 1) lo first
  end.

Definition heapSort (a b : Z) : M unit :=
  let first := a in
  let lo := 0 in
  let hi := b - a in
  let start := Z.quot (hi - 1) 2 in
  heapBuild (Z.to_nat (start + 1)) start hi first ;;;
  heapPop (Z.to_nat hi) (hi - 1) lo first.

(** [for i <= j && data.Less(i, a) { i++ }] *)
Fixpoint scanLess (n : nat) (a i j : Z) : M Z :=
  match n with
  | O => ret i
  | Datatypes.S n' =>
      if i <=? j then
        lt <- Less data i a ;;
        if lt then scanLess n' a (i + 1) j else ret i
      else ret i
  end.

(** [for i <= j && !data.Less(j, a) { j-- }] *)
Fixpoint scanNotLess (n : nat) (a i j : Z) : M Z :=
  match n with
  | O => ret j
  | Datatypes.S n' =>
      if i <=? j then
        lt <- Less data j a ;;
        if negb lt then scanNotLess n' a i (j - 1) else ret j
      else ret j
  end.

Definition span (i j : Z) : nat := Z.to_nat (j - i + 1).

(** The main loop of [partition]. *)
Fixpoint partitionLoop (n : nat) (a i j : Z) : M Z :=
  match n with
  | O => starve
  | Datatypes.S n' =>
      i <- scanLess (span i j) a i j ;;
      j <- scanNotLess (span i j) a i j ;;
      if i >? j then ret j
      else Swap data i j ;;; partitionLoop n' a (i + 1) (j - 1)
  end.

Definition partition (a b pivot : Z) : M (Z * bool) :=
  Swap data a pivot ;;;
  let i := a + 1 in
  let j := b - 1 in
  i <- scanLess (span i j) a i j ;;
  j <- scanNotLess (span i j) a i j ;;
  if i >? j then Swap data j a ;;; ret (j, true)
  else
    Swap data i j ;;;
    j <- partitionLoop (Datatypes.S (span (i + 1) (j - 1))) a (i + 1) (j - 1) ;;
    Swap data j a ;;; ret (j, false).

(** [for i <= j && !data.Less(a, i) { i++ }] *)
Fixpoint scanNotGreater (n : nat) (a i j : Z) : M Z :=
  match n with
  | O => ret i
  | Datatypes.S n' =>
      if i <=? j then
        lt <- Less data a i ;;
        if negb lt then scanNotGreater n' a (i + 1) j else ret i
      else ret i
  end.

(** [for i <= j && data.Less(a, j) { j-- }] *)
Fixpoint scanGreater (n : nat) (a i j : Z) : M Z :=
  match n with
  | O => ret j
  | Datatypes.S n' =>
      if i <=? j then
        lt <- Less data a j ;;
        if lt then scanGreater n' a i (j - 1) else ret j
      else ret j
  end.

Fixpoint partitionEqualLoop (n : nat) (a i j : Z) : M Z :=
  match n with
  | O => starve
  | Datatypes.S n' =>
      i <- scanNotGreater (span i j) a i j ;;
      j <- scanGreater (span i j) a i j ;;
      if i >? j then ret i
      else Swap data i j ;;; partitionEqualLoop n' a (i + 1) (j - 1)
  end.

Definition partitionEqual (a b pivot : Z) : M Z :=
  Swap data a pivot ;;;
  partitionEqualLoop (Datatypes.S (span (a + 1) (b - 1))) a (a + 1) (b - 1).

(** [for i < b && !data.Less(i, i-1) { i++ }] *)
Fixpoint scanSorted (n : nat) (i b : Z) : M Z :=
  match n with
  | O => ret i
  | Datatypes.S n' =>
      if i <? b then
        lt <- Less data i (i - 1) ;;
        if negb lt then scanSorted n' (i + 1) b else ret i
      else ret i
  end.

(** [for j := i - 1; j >= 1; j-- { if !Less(j, j-1) { break }; Swap(j, j-1) }] *)
Fixpoint shiftLeft (n : nat) (j : Z) : M unit :=
  match n with
  | O => ret tt
  | Datatypes.S n' =>
      if j >=? 1 then
        lt <- Less data j (j - 1) ;;
        if negb lt then ret tt
        else Swap data j (j - 1) ;;; shiftLeft n' (j - 1)
      else ret tt
  end.

(** [for j := i + 1; j < b; j++ { if !Less(j, j-1) { break }; Swap(j, j-1) }] *)
Fixpoint shiftRight (n : nat) (j b : Z) : M unit :=
  match n with
  | O => ret tt
  | Datatypes.S n' =>
      if j <? b then
        lt <- Less data j (j - 1) ;;
        if negb lt then ret tt
        else Swap data j (j - 1) ;;; shiftRight n' (j + 1) b
      else ret tt
  end.

(** [partialInsertionSort]: [steps] turns of [for j := 0; j < maxSteps; j++]. *)
Fixpoint partialInsertionLoop (steps : nat) (a b i : Z) : M bool :=
  match steps with
  | O => ret false
  | Datatypes.S steps' =>
      i <- scanSorted (Z.to_nat (b - i)) i b ;;
      if i =? b then ret true
      else if b - a <? 50 then ret false
      else
        Swap data i (i - 1) ;;;
        (if i - a >=? 2 then shiftLeft (Z.to_nat (i - 1)) (i - 1)
         else ret tt) ;;;
        (if b - i >=? 2 then shiftRight (Z.to_nat (b - (i + 1))) (i + 1) b
         else ret tt) ;;;
        partialInsertionLoop steps' a b i
  end.

Definition partialInsertionSort (a b : Z) : M bool :=
  partialInsertionLoop 5 a b (a + 1).

(** [bits.Len(uint(n))] *)
Definition bitsLen (n : Z) : Z := if n <=? 0 then 0 else Z.log2 n + 1.

Definition nextPowerOfTwo (length : Z) : Z := Z.shiftl 1 (bitsLen length).

(** [xorshift.Next] on a [uint64] state (the shift constants of current
    releases). *)
Definition xorshiftNext (r : Z) : Z :=
  let r := Z.lxor r (Z.shiftl r 13 mod 2 ^ 64) in
  let r := Z.lxor r (Z.shiftr r 7) in
  Z.lxor r (Z.shiftl r 17 mod 2 ^ 64).

Fixpoint breakLoop (n : nat) (i : Z) (random : Z)
         (a idx length modulus : Z) : M unit :=
  match n with
  | O => ret tt
  | Datatypes.S n' =>
      let random := xorshiftNext random in
      let other := Z.land random (modulus - 1) in
      let other := if other >=? length then other - length else other in
      Swap data (idx - 1 + i) (a + other) ;;;
      breakLoop n' (i + 1) random a idx length modulus
  end.

Definition breakPatterns (a b : Z) : M unit :=
  let length := b - a in
  if length >=? 8 then
    let modulus := nextPowerOfTwo length in
    let idx := a + Z.quot length 4 * 2 - 1 in
    breakLoop 3 0 length a idx length modulus
  else ret tt.

(** [order2], with the swap counter threaded explicitly. *)
Definition order2 (a b swaps : Z) : M (Z * Z * Z) :=
  lt <- Less data b a ;;
  if lt then ret (b, a, swaps + 1) else ret (a, b, swaps).

Definition median (a b c swaps : Z) : M (Z * Z) :=
  r <- order2 a b swaps ;;
  let '(a, b, swaps) := r in
  r <- order2 b c swaps ;;
  let '(b, c, swaps) := r in
  r <- order2 a b swaps ;;
  let '(a, b, swaps) := r in
  ret (b, swaps).

Definition medianAdjacent (a swaps : Z) : M (Z * Z) :=
  median (a - 1) a (a + 1) swaps.

Inductive sortedHint : Type := unknownHint | increasingHint | decreasingHint.

Definition choosePivot (a b : Z) : M (Z * sortedHint) :=
  let l := b - a in
  let i := a + Z.quot l 4 * 1 in
  let j := a + Z.quot l 4 * 2 in
  let k := a + Z.quot l 4 * 3 in
  r <- (if l >=? 8 then
          r <- (if l >=? 50 then
                  r <- medianAdjacent i 0 ;;
                  let '(i, swaps) := r in
                  r <- medianAdjacent j swaps ;;
                  let '(j, swaps) := r in
                  r <- medianAdjacent k swaps ;;
                  let '(k, swaps) := r in
                  ret (i, j, k, swaps)
                else ret (i, j, k, 0)) ;;
          let '(i, j, k, swaps) := r in
          median i j k swaps
        else ret (j, 0)) ;;
  let '(j, swaps) := r in
  if swaps =? 0 then ret (j, increasingHint)
  else if swaps =? 12 then ret (j, decreasingHint)
  else ret (j, unknownHint).

(** [for i < j { data.Swap(i, j); i++; j-- }] *)
Fixpoint reverseLoop (n : nat) (i j : Z) : M unit :=
  match n with
  | O => ret tt
  | Datatypes.S n' =>
      if i <? j then Swap data i j ;;; reverseLoop n' (i + 1) (j - 1)
      else ret tt
  end.

Definition reverseRange (a b : Z) : M unit :=
  reverseLoop (Z.to_nat (b - a)) a (b - 1).

Definition hintIs (h1 h2 : sortedHint) : bool :=
  match h1, h2 with
  | unknownHint, unknownHint => true
  | increasingHint, increasingHint => true
  | decreasingHint, decreasingHint => true
  | _, _ => false
  end.

(** [pdqsort]: one turn of its [for] loop per unit of [fuel]; the
    nested call on the smaller side starts with both flags set. *)
Fixpoint pdqsort (fuel : nat) (a b limit : Z)
         (wasBalanced wasPartitioned : bool) : M unit :=
  match fuel with
  | O => starve
  | Datatypes.S fuel' =>
      let length := b - a in
      if length <=? 12 then insertionSort a b
      else if limit =? 0 then heapSort a b
      else
        limit <- (if negb wasBalanced
                  then breakPatterns a b ;;; ret (limit - 1)
                  else ret limit) ;;
        r <- choosePivot a b ;;
        let '(pivot, hint) := r in
        r <- (if hintIs hint decreasingHint
              then reverseRange a b ;;;
                   ret ((b - 1) - (pivot - a), increasingHint)
              else ret (pivot, hint)) ;;
        let '(pivot, hint) := r in
        done <- (if wasBalanced && wasPartitioned && hintIs hint increasingHint
                 then partialInsertionSort a b
                 else ret false) ;;
        if done then ret tt
        else
          dup <- (if a >? 0
                  then lt <- Less data (a - 1) pivot ;; ret (negb lt)
                  else ret false) ;;
          if dup then
            mid <- partitionEqual a b pivot ;;
            pdqsort fuel' mid b limit wasBalanced wasPartitioned
          else
            r <- partition a b pivot ;;
            let '(mid, alreadyPartitioned) := r in
            let wasPartitioned := alreadyPartitioned in
            let leftLen := mid - a in
            let rightLen := b - mid in
            let balanceThreshold := Z.quot length 8 in
            if leftLen <? rightLen then
              let wasBalanced := leftLen >=? balanceThreshold in
              pdqsort fuel' a mid limit true true ;;;
              pdqsort fuel' (mid + 1) b limit wasBalanced wasPartitioned
            else
              let wasBalanced := rightLen >=? balanceThreshold in
              pdqsort fuel' (mid + 1) b limit true true ;;;
              pdqsort fuel' a mid limit wasBalanced wasPartitioned
  end.

(** [sort.Sort] *)
Definition Sort : M unit :=
  n <- Len data ;;
  if n <=? 1 then ret tt
  else pdqsort (Z.to_nat n) 0 n (bitsLen n) true true.

End Sort.

End GoSort.

(* ================================================================== *)
(** ** [ifaddrs.go] *)

Module Ifs.

Import IPv4 Sock Strings GoSort.

(** Go [error] values produced by this file. *)
Inductive error : Type :=
| errorString (msg : string)
| errRegexp (kind inputRe : string)
| errUnsupportedRFC (rfc : Z).

(** [CmpIfAddrFunc]: a comparison of two records returning an [int]. *)
Definition CmpIfAddrFunc : Type := IfAddr -> IfAddr -> Z.

(** *** [multiIfAddrSorter] *)

(** [ms.ifAddrs[i]]; [None] when the index is out of range. *)
Definition at_ (s : IfAddrs) (i : Z) : option IfAddr :=
  if i <? 0 then None else nth_error s (Z.to_nat i).

Fixpoint update (s : IfAddrs) (n : nat) (x : IfAddr) : IfAddrs :=
  match s, n with
  | [], _ => []
  | _ :: t, O => x :: t
  | h :: t, S n' => h :: update t n' x
  end.

(** The body of [Less] on the two records [p] and [q]: the keys but the
    last are tried in turn and decide on [-1] or [1]; the last key alone
    answers otherwise.  Without any key, [ms.cmp[k]] is out of range
    ([None]). *)
Fixpoint lessBy (cmp : list CmpIfAddrFunc) (p q : IfAddr) : option bool :=
  match cmp with
  | [] => None
  | c :: rest =>
      match rest with
      | [] => if c p q =? -1 then Some true else Some false
      | _ :: _ =>
          let x := c p q in
          if x =? -1 then Some true
          else if x =? 1 then Some false
          else lessBy rest p q
      end
  end.

Definition ms_Len : @M IfAddrs Z :=
  fun s => Returns (Z.of_nat (List.length s), s).

Definition ms_Less (cmp : list CmpIfAddrFunc) (i j : Z) : @M IfAddrs bool :=
  fun s =>
    match at_ s i, at_ s j with
    | Some p, Some q =>
        match lessBy cmp p q with
        | Some b => Returns (b, s)
        | None => Panics
        end
    | _, _ => Panics
    end.

Definition ms_Swap (i j : Z) : @M IfAddrs unit :=
  fun s =>
    match at_ s i, at_ s j with
    | Some p, Some q =>
        Returns (tt, update (update s (Z.to_nat i) q) (Z.to_nat j) p)
    | _, _ => Panics
    end.

(** [OrderedIfAddrBy(cmpFuncs...)] as a [sort.Interface]. *)
Definition OrderedIfAddrBy (cmpFuncs : list CmpIfAddrFunc) : Interface IfAddrs :=
  {| Len := ms_Len; Less := ms_Less cmpFuncs; Swap := ms_Swap |}.

(** [OrderedIfAddrBy(cmpFuncs...).Sort(ifAddrs)]: the slice after the
    call. *)
Definition SortBy (cmpFuncs : list CmpIfAddrFunc) (ifAddrs : IfAddrs)
  : result IfAddrs :=
  match Sort (OrderedIfAddrBy cmpFuncs) ifAddrs with
  | Returns (_, s) => Returns s
  | Panics => Panics
  | Starves => Starves
  end.

Definition AscIfName (p1 p2 : IfAddr) : Z :=
  Strings.Compare (IfName p1) (IfName p2).

Definition SortIfByName (inputIfAddrs : IfAddrs) : result IfAddrs :=
  SortBy [AscIfName] inputIfAddrs.

(** *** Filters *)

Definition FilterIfByType (ifAddrs : IfAddrs) (type_ : Z) : IfAddrs * IfAddrs :=
  List.partition (fun ifAddr => negb (Z.land (Type_ (Addr ifAddr)) type_ =? 0))
                 ifAddrs.

(** The loop shared by [IfByPort] and [IfByMaskSize]: a record is
    skipped when [ToIPAddr] gives nil, and is appended to the matched or
    to the excluded slice otherwise. *)
Fixpoint sift (test : SockAddr -> option bool) (ipIfs : IfAddrs)
         (matchedIfs excludedIfs : IfAddrs) : IfAddrs * IfAddrs :=
  match ipIfs with
  | [] => (matchedIfs, excludedIfs)
  | addr :: rest =>
      match test (Addr addr) with
      | None => sift test rest matchedIfs excludedIfs
      | Some true => sift test rest (matchedIfs ++ [addr]) excludedIfs
      | Some false => sift test rest matchedIfs (excludedIfs ++ [addr])
      end
  end.

Definition IfByMaskSize (maskSize : Z) (ifAddrs : IfAddrs)
  : IfAddrs * IfAddrs * option error :=
  let '(ipIfs, nonIfs) := FilterIfByType ifAddrs TypeIP in
  let '(matchedIfs, excludedIfs) :=
    sift (fun sa => option_map (fun bits => bits =? maskSize) (MaskbitsOf sa))
         ipIfs [] nonIfs in
  (matchedIfs, excludedIfs, None).

Section Env.

(** [regexp.Compile]: the matcher ([MatchString]) of a pattern, or
    [None] when the pattern does not compile. *)
Variable regexp_Compile : string -> option (string -> bool).

(** The registry [rfcNetMap] and the [Contains] method of its
    networks; both are declared outside this file. *)
Variable rfcNetMap : Z -> option (list SockAddr).
Variable Contains : SockAddr -> SockAddr -> bool.

(** [fmt]'s [%+q] verb. *)
Variable quote : string -> string.

(** The [Asc*] comparators on addresses, declared outside this file. *)
Variables AscAddress AscNetworkSize AscPort AscPrivate AscType
  : SockAddr -> SockAddr -> Z.

Definition IfByAddress (inputRe : string) (ifAddrs : IfAddrs)
  : IfAddrs * IfAddrs * option error :=
  match regexp_Compile inputRe with
  | None => ([], [], Some (errRegexp "address" inputRe))
  | Some re =>
      let '(m, e) :=
        List.partition (fun addr => re (SockAddr_String (Addr addr))) ifAddrs in
      (m, e, None)
  end.

Definition IfByName (inputRe : string) (ifAddrs : IfAddrs)
  : IfAddrs * IfAddrs * option error :=
  match regexp_Compile inputRe with
  | None => ([], [], Some (errRegexp "name" inputRe))
  | Some re =>
      let '(m, e) := List.partition (fun addr => re (IfName addr)) ifAddrs in
      (m, e, None)
  end.

Definition IfByPort (inputRe : string) (ifAddrs : IfAddrs)
  : IfAddrs * IfAddrs * option error :=
  match regexp_Compile inputRe with
  | None => ([], [], Some (errRegexp "port" inputRe))
  | Some re =>
      let '(ipIfs, nonIfs) := FilterIfByType ifAddrs TypeIP in
      let '(m, e) :=
        sift (fun sa => option_map (fun p => re (Go.itoa p)) (IPPortOf sa))
             ipIfs [] nonIfs in
      (m, e, None)
  end.

Definition IfByRFC (inputRFC : Z) (ifAddrs : IfAddrs)
  : IfAddrs * IfAddrs * option error :=
  match rfcNetMap inputRFC with
  | None => ([], [], Some (errUnsupportedRFC inputRFC))
  | Some rfcNets =>
      let '(m, e) :=
        List.partition
          (fun ifAddr =>
             existsb (fun rfcNet => Contains rfcNet (Addr ifAddr)) rfcNets)
          ifAddrs in
      (m, e, None)
  end.

Definition IfByType (inputRe : string) (ifAddrs : IfAddrs)
  : IfAddrs * IfAddrs * option error :=
  match regexp_Compile inputRe with
  | None => ([], [], Some (errRegexp "type" inputRe))
  | Some re =>
      let '(m, e) :=
        List.partition (fun ifAddr => re (TypeName (Addr ifAddr))) ifAddrs in
      (m, e, None)
  end.

(** The ["rfc"] loop of [IncludeIfs]. *)
Fixpoint includeRFCs (rfcs : list string) (inputIfAddrs includedIfs : IfAddrs)
  : IfAddrs :=
  match rfcs with
  | [] => includedIfs
  | rfcStr :: rest =>
      let '(rfc, err) := ParseUint rfcStr in
      match err with
      | Some _ => includeRFCs rest inputIfAddrs includedIfs
      | None =>
          let '(includedRFCIfs, _, err) := IfByRFC rfc inputIfAddrs in
          match err with
          | Some _ => includeRFCs rest inputIfAddrs includedIfs
          | None =>
              includeRFCs rest inputIfAddrs (includedIfs ++ includedRFCIfs)
          end
      end
  end.

(** The ["rfc"] loop of [ExcludeIfs]: [if err == nil { continue }]. *)
Fixpoint excludeRFCs (rfcs : list string) (inputIfAddrs excludedIfs : IfAddrs)
  : IfAddrs :=
  match rfcs with
  | [] => excludedIfs
  | rfcStr :: rest =>
      let '(rfc, err) := ParseUint rfcStr in
      match err with
      | None => excludeRFCs rest inputIfAddrs excludedIfs
      | Some _ =>
          let '(_, excludedRFCIfs, err) := IfByRFC rfc inputIfAddrs in
          match err with
          | Some _ => excludeRFCs rest inputIfAddrs excludedIfs
          | None =>
              excludeRFCs rest inputIfAddrs (excludedIfs ++ excludedRFCIfs)
          end
      end
  end.

Definition comma : ascii := "," % char.

Definition IncludeIfs (selectorName selectorParam : string)
           (inputIfAddrs : IfAddrs) : IfAddrs :=
  let sel := ToLower selectorName in
  let finish (r : IfAddrs * IfAddrs * option error) : IfAddrs :=
    match r with
    | (includedIfs, _, None) => includedIfs
    | (_, _, Some _) => []
    end in
  if String.eqb sel "address" then finish (IfByAddress selectorParam inputIfAddrs)
  else if String.eqb sel "name" then finish (IfByName selectorParam inputIfAddrs)
  else if String.eqb sel "port" then finish (IfByPort selectorParam inputIfAddrs)
  else if String.eqb sel "rfc" then
    includeRFCs (Split selectorParam comma) inputIfAddrs []
  else if String.eqb sel "size" then
    match ParseUint selectorParam with
    | (_, Some _) => []
    | (maskSize, None) => finish (IfByMaskSize maskSize inputIfAddrs)
    end
  else if String.eqb sel "type" then finish (IfByType selectorParam inputIfAddrs)
  else [].

Definition ExcludeIfs (selectorName selectorParam : string)
           (inputIfAddrs : IfAddrs) : IfAddrs :=
  let sel := ToLower selectorName in
  let finish (r : IfAddrs * IfAddrs * option error) : IfAddrs :=
    match r with
    | (_, excludedIfs, None) => excludedIfs
    | (_, _, Some _) => []
    end in
  if String.eqb sel "address" then finish (IfByAddress selectorParam inputIfAddrs)
  else if String.eqb sel "name" then finish (IfByName selectorParam inputIfAddrs)
  else if String.eqb sel "port" then finish (IfByPort selectorParam inputIfAddrs)
  else if String.eqb sel "rfc" then
    excludeRFCs (Split selectorParam comma) inputIfAddrs []
  else if String.eqb sel "size" then
    match ParseUint selectorParam with
    | (_, Some _) => []
    | (maskSize, None) => finish (IfByMaskSize maskSize inputIfAddrs)
    end
  else if String.eqb sel "type" then finish (IfByType selectorParam inputIfAddrs)
  else [].

(** *** Sorting by selector *)

Definition AscIfAddress (p1 p2 : IfAddr) : Z := AscAddress (Addr p1) (Addr p2).
Definition AscIfNetworkSize (p1 p2 : IfAddr) : Z :=
  AscNetworkSize (Addr p1) (Addr p2).
Definition AscIfPort (p1 p2 : IfAddr) : Z := AscPort (Addr p1) (Addr p2).
Definition AscIfPrivate (p1 p2 : IfAddr) : Z := AscPrivate (Addr p1) (Addr p2).
Definition AscIfType (p1 p2 : IfAddr) : Z := AscType (Addr p1) (Addr p2).

(** The clause loop of [SortIfBy]; [None] is the early
    [return IfAddrs{}] on an unknown clause. *)
Fixpoint sortFuncsOf (clauses : list string) : option (list CmpIfAddrFunc) :=
  match clauses with
  | [] => Some []
  | clause :: rest =>
      let c := ToLower clause in
      let f :=
        if String.eqb c "address" then Some AscIfAddress
        else if String.eqb c "name" then Some AscIfName
        else if String.eqb c "port" then Some AscIfPort
        else if String.eqb c "private" then Some AscIfPrivate
        else if String.eqb c "size" then Some AscIfNetworkSize
        else if String.eqb c "type" then Some AscIfType
        else None in
      match f with
      | None => None
      | Some f =>
          match sortFuncsOf rest with
          | None => None
          | Some fs => Some (f :: fs)
          end
      end
  end.

Definition SortIfBy (selectorParam : string) (inputIfAddrs : IfAddrs)
  : result IfAddrs :=
  let sortedIfs := inputIfAddrs in
  match sortFuncsOf (Split selectorParam comma) with
  | None => Returns []
  | Some sortFuncs => SortBy sortFuncs sortedIfs
  end.

(** *** [UniqueIfAddrsBy] *)

Definition uniqueKey (attrName selectorName : string) (ifAddr : IfAddr)
  : string :=
  if String.eqb attrName "address" then SockAddr_String (Addr ifAddr)
  else if String.eqb attrName "name" then IfName ifAddr
  else "<unsupported method " +++ quote selectorName +++ ">".

Fixpoint uniqueLoop (attrName selectorName : string) (input : IfAddrs)
         (lastMatch : string) (ifs : IfAddrs) : IfAddrs :=
  match input with
  | [] => ifs
  | ifAddr :: rest =>
      let out := uniqueKey attrName selectorName ifAddr in
      if String.eqb lastMatch "" || negb (String.eqb lastMatch out)
      then uniqueLoop attrName selectorName rest out (ifs ++ [ifAddr])
      else uniqueLoop attrName selectorName rest lastMatch ifs
  end.

Definition UniqueIfAddrsBy (selectorName : string) (inputIfAddrs : IfAddrs)
  : IfAddrs :=
  let attrName := ToLower selectorName in
  uniqueLoop attrName selectorName inputIfAddrs "" [].

End Env.

(** *** Default-route parsing *)

Definition space : ascii := " " % char.
Definition newline : ascii := ascii_of_N 10.

Fixpoint parseLinuxLines (lines : list string) : string * option error :=
  match lines with
  | [] => ("", Some (errorString "No default interface found"))
  | line :: rest =>
      match SplitN line space 5 with
      | [k0; k1; _; k3; k4] =>
          if String.eqb k0 "default" && String.eqb k1 "via"
             && String.eqb k3 "dev"
          then (TrimSpace k4, None)
          else parseLinuxLines rest
      | _ => parseLinuxLines rest
      end
  end.

Definition parseLinuxDefaultIfName (routeOut : string) : string * option error :=
  parseLinuxLines (Split routeOut newline).

End Ifs.

(* ================================================================== *)
(** ** Sample environment for evaluating the filters *)

Module Sample.

Import IPv4 Sock.

Definition net4 (addr mask : Z) : SockAddr :=
  SockIPv4 {| Address := addr; Mask := mask; Port := 0 |}.

(** Modelled from the spec: the registry table is declared outside the
    sources; this is its private-use entry (identifier 1918) alone. *)
Definition rfcNetMap (rfc : Z) : option (list SockAddr) :=
  if rfc =? 1918 then
    Some [ net4 0x0a000000 0xff000000;
           net4 0xac100000 0xfff00000;
           net4 0xc0a80000 0xffff0000 ]
  else None.

(** Modelled from the spec: membership of an address in a network,
    "the address falls within the network". *)
Definition Contains (rfcNet sa : SockAddr) : bool :=
  match rfcNet, sa with
  | SockIPv4 n, SockIPv4 a =>
      Z.land (Address a) (Mask n) =? NetworkAddress n
  | _, _ => false
  end.

Definition ifAddr4 (name : string) (addr mask port : Z) : IfAddr :=
  {| Addr := SockIPv4 {| Address := addr; Mask := mask; Port := port |};
     Intf := {| Index := 1; MTU := 1500; Name := name;
                HardwareAddr := ""; Flags := 0 |} |}.

(** [fmt]'s [%+q] on printable ASCII text without double quotes or
    backslashes: the text between double quotes. *)
Definition dquote : ascii := ascii_of_N 34.
Definition quote (s : string) : string :=
  String dquote (s +++ String dquote EmptyString).

(** No pattern is needed by the examples. *)
Definition regexp_Compile (inputRe : string) : option (string -> bool) := None.

(** [192.168.1.1/24] on [eth0] and [8.8.8.8] on [eth1]. *)
Definition private1 : IfAddr := ifAddr4 "eth0" 0xc0a80101 0xffffff00 0.
Definition public1 : IfAddr := ifAddr4 "eth1" 0x08080808 0xffffffff 0.

(** Route listings: a default route with and without further
    attributes, and a listing without default route. *)
Definition routeBare : string :=
  "default via 10.1.2.1 dev eth0 " +++ String Ifs.newline
  "10.1.2.0/24 dev eth0  proto kernel  scope link  src 10.1.2.5".
Definition routeAttrs : string :=
  "default via 10.1.2.1 dev eth0 proto static" +++ String Ifs.newline
  "10.1.2.0/24 dev eth0  proto kernel  scope link  src 10.1.2.5".
Definition routeNone : string :=
  "10.1.2.0/24 dev eth0  proto kernel  scope link  src 10.1.2.5".

(** The host [10.0.0.i] on the interface [name]. *)
Definition onIf (name : string) (i : Z) : IfAddr :=
  ifAddr4 name (0x0a000000 + i) 0xffffffff 0.


End Sample.

(* ================================================================== *)
(** ** Vocabulary of the statements *)

Definition is_byte (v : Z) : Prop := 0 <= v < 256.

Fixpoint has (c : ascii) (s : string) : bool :=
  match s with
  | EmptyString => false
  | String x s' => Ascii.eqb x c || has c s'
  end.

Definition is_digit (c : ascii) : bool :=
  let n := Strings.byte_of c in (48 <=? n) && (n <=? 57).

Fixpoint all_digits (s : string) : bool :=
  match s with
  | EmptyString => true
  | String c s' => is_digit c && all_digits s'
  end.

Definition unhex (c : ascii) : Z :=
  let n := Strings.byte_of c in if n <? 58 then n - 48 else n - 87.

(** The records of a slice paired with their positions. *)
Definition tagged (xs : Sock.IfAddrs) : list (nat * Sock.IfAddr) :=
  combine (seq 0 (List.length xs)) xs.

(** [p] stands before [q]; if it came from a later position, the keys
    put it strictly first. *)
Definition moved_only_when_less (cmp : list Ifs.CmpIfAddrFunc)
           (p q : nat * Sock.IfAddr) : Prop :=
  (fst q < fst p)%nat -> Ifs.lessBy cmp (snd p) (snd q) = Some true.

(** No record is strictly less than a record that stands before it. *)
Definition no_inversion (cmp : list Ifs.CmpIfAddrFunc) (xs : Sock.IfAddrs) : Prop :=
  ForallOrdPairs (fun p q => Ifs.lessBy cmp q p = Some false) xs.

(** The decision of the leading keys: the first answer that is [-1]
    ([true]) or [1] ([false]), if any. *)
Fixpoint decided (ks : list Ifs.CmpIfAddrFunc) (p q : Sock.IfAddr) : option bool :=
  match ks with
  | [] => None
  | c :: rest =>
      if c p q =? -1 then Some true
      else if c p q =? 1 then Some false
      else decided rest p q
  end.


Module Ex.

Import IPv4 Sock.

(** [10.0.0.0/31], [10.0.0.5/24], [1.2.3.4:80] and [1.2.3.4]. *)
Definition a31 : IPv4Addr :=
  {| Address := 0x0a000000; Mask := 0xfffffffe; Port := 0 |}.
Definition a24 : IPv4Addr :=
  {| Address := 0x0a000005; Mask := 0xffffff00; Port := 0 |}.
Definition a32 : IPv4Addr :=
  {| Address := 0x0a000005; Mask := 0xffffffff; Port := 0 |}.
Definition host80 : IPv4Addr :=
  {| Address := 0x01020304; Mask := 0xffffffff; Port := 80 |}.
Definition host0 : IPv4Addr :=
  {| Address := 0x01020304; Mask := 0xffffffff; Port := 0 |}.
Definition unix0 : SockAddr := SockUnix {| unixPath := "/tmp/sock" |}.

End Ex.

(* ================================================================== *)
(** ** [IPv4Addr]: octets and port *)

Module IPv4More.

Import IPv4.

Definition Octets (ipv4 : IPv4Addr) : list Z :=
  [ Z.shiftr (Address ipv4) 24;
    Z.land (Z.shiftr (Address ipv4) 16) 0xff;
    Z.land (Z.shiftr (Address ipv4) 8) 0xff;
    Z.land (Address ipv4) 0xff ].

(** [uint16(ipv4.Port)] *)
Definition IPPort (ipv4 : IPv4Addr) : Z := Port ipv4 mod 2 ^ 16.

End IPv4More.

(* ================================================================== *)
(** ** [ifaddrs.go]: slicing, reversal and the BSD route listing *)

Module Slices.

Import Sock.

(** Conversion to [int] (64 bits, two's complement). *)
Definition int64 (z : Z) : Z := (z + 2 ^ 63) mod 2 ^ 64 - 2 ^ 63.

(** The slice expression [in[lo:hi]]; [None] is the run-time panic on
    bounds out of range.  The code only slices up to [len(in)] or up to a
    bound beyond any capacity, so the length stands for the capacity. *)
Definition slice (in_ : IfAddrs) (lo hi : Z) : option IfAddrs :=
  if (0 <=? lo) && (lo <=? hi) && (hi <=? Z.of_nat (List.length in_))
  then Some (firstn (Z.to_nat (hi - lo)) (skipn (Z.to_nat lo) in_))
  else None.

(** [LimitIfAddrs]; [lim] is a [uint]. *)
Definition LimitIfAddrs (lim : Z) (in_ : IfAddrs) : option IfAddrs :=
  let len := Z.of_nat (List.length in_) in
  let lim := if int64 lim >? len then len else lim in
  slice in_ 0 lim.

(** [OffsetIfAddrs]; [off] is an [int], and [off * -1] wraps. *)
Definition OffsetIfAddrs (off : Z) (in_ : IfAddrs) : option IfAddrs :=
  let len := Z.of_nat (List.length in_) in
  let end_ := off <? 0 in
  let off := if end_ then int64 (off * -1) else off in
  if off >? len then Some []
  else if end_ then slice in_ (int64 (len - off)) len
  else slice in_ off len.

(** [s[i], s[j] = s[j], s[i]]; [None] when an index is out of range. *)
Definition swapAt (s : IfAddrs) (i j : Z) : option IfAddrs :=
  match Ifs.at_ s i, Ifs.at_ s j with
  | Some p, Some q =>
      Some (Ifs.update (Ifs.update s (Z.to_nat i) q) (Z.to_nat j) p)
  | _, _ => None
  end.

(** [for i := len/2 - 1; i >= 0; i-- { opp := len - 1 - i; swap }], with
    [n] turns left. *)
Fixpoint reverseFrom (n : nat) (i : Z) (s : IfAddrs) : option IfAddrs :=
  match n with
  | O => Some s
  | S n' =>
      let opp := Z.of_nat (List.length s) - 1 - i in
      match swapAt s i opp with
      | Some s' => reverseFrom n' (i - 1) s'
      | None => None
      end
  end.

Definition ReverseIfAddrs (inputIfAddrs : IfAddrs) : option IfAddrs :=
  let reversedIfAddrs := inputIfAddrs in
  let half := Z.quot (Z.of_nat (List.length reversedIfAddrs)) 2 in
  reverseFrom (Z.to_nat half) (half - 1) reversedIfAddrs.

End Slices.

Module Route.

Import Strings.

Definition colon : ascii := ":" % char.

Fixpoint parseBSDLines (lines : list string) : string * option Ifs.error :=
  match lines with
  | [] => ("", Some (Ifs.errorString "No default interface found"))
  | line :: rest =>
      match SplitN line colon 2 with
      | [k; v] =>
          if String.eqb (TrimSpace k) "interface"
          then (TrimSpace v, None)
          else parseBSDLines rest
      | _ => parseBSDLines rest
      end
  end.

Definition parseBSDDefaultIfName (routeOut : string) : string * option Ifs.error :=
  parseBSDLines (Split routeOut Ifs.newline).

End Route.

(* ================================================================== *)
(** ** [ifaddrs.go]: joining the attributes of the records *)

Module Joining.

Import IPv4 Sock.

(** [strings.Join] *)
Fixpoint Join (elems : list string) (sep : string) : string :=
  match elems with
  | [] => ""
  | e :: rest =>
      match rest with
      | [] => e
      | _ :: _ => e +++ sep +++ Join rest sep
      end
  end.

Section Env.

(** [AddressBinString] and [AddressHexString] pad with a verb of [fmt]
    and are left open, as are the methods of [IPv6Addr], declared
    outside this file: [ipv6Attr attr a] is the text that the case
    [attr] computes from the address [a]. *)
Variables AddressBinString AddressHexString : IPv4Addr -> string.
Variable ipv6Attr : string -> IPv6Addr -> string.

(** The cases of an IPv4 address: the [switch] on [ip], then the one on
    [ipv4].  [1<<uint(32-Maskbits())] is an [int] of 64 bits. *)
Definition attrIPv4 (attrName : string) (ifAddr : IfAddr) (ipv4 : IPv4Addr)
  : string :=
  let out :=
    if String.eqb attrName "address" then Go.IP_String (NetIP ipv4)
    else if String.eqb attrName "binary" then AddressBinString ipv4
    else if String.eqb attrName "first_usable" then String_ (FirstUsable ipv4)
    else if String.eqb attrName "hex" then AddressHexString ipv4
    else if String.eqb attrName "host" then String_ (Host ipv4)
    else if String.eqb attrName "last_usable" then String_ (LastUsable ipv4)
    else if String.eqb attrName "mask_bits" then Go.itoa (Maskbits ipv4)
    else if String.eqb attrName "name" then IfName ifAddr
    else if String.eqb attrName "netmask" then Go.hexString (NetIPMask ipv4)
    else if String.eqb attrName "network" then String_ (Network ipv4)
    else if String.eqb attrName "octets"
         then Join (map Go.itoa (IPv4More.Octets ipv4)) " "
    else if String.eqb attrName "port" then Go.itoa (IPv4More.IPPort ipv4)
    else "" in
  if String.eqb attrName "size"
  then Go.itoa (Z.shiftl 1 (32 - Maskbits ipv4))
  else if String.eqb attrName "broadcast" then String_ (Broadcast ipv4)
  else if String.eqb attrName "uint32" then Go.itoa (uint32 (Address ipv4))
  else out.

(** The cases of an IPv6 address: the [switch] on [ip], then the one on
    [ipv6]. *)
Definition attrIPv6 (attrName : string) (ifAddr : IfAddr) (ipv6 : IPv6Addr)
  : string :=
  let out :=
    if String.eqb attrName "address" then ipv6Attr "address" ipv6
    else if String.eqb attrName "binary" then ipv6Attr "binary" ipv6
    else if String.eqb attrName "first_usable"
         then ipv6Attr "first_usable" ipv6
    else if String.eqb attrName "hex" then ipv6Attr "hex" ipv6
    else if String.eqb attrName "host" then ipv6Attr "host" ipv6
    else if String.eqb attrName "last_usable" then ipv6Attr "last_usable" ipv6
    else if String.eqb attrName "mask_bits" then ipv6Attr "mask_bits" ipv6
    else if String.eqb attrName "name" then IfName ifAddr
    else if String.eqb attrName "netmask" then ipv6Attr "netmask" ipv6
    else if String.eqb attrName "network" then ipv6Attr "network" ipv6
    else if String.eqb attrName "octets" then ipv6Attr "octets" ipv6
    else if String.eqb attrName "port" then ipv6Attr "port" ipv6
    else "" in
  if String.eqb attrName "size" then ipv6Attr "size" ipv6
  else if String.eqb attrName "uint128" then ipv6Attr "uint128" ipv6
  else out.

(** The body of the loop: the text of one record. *)
Definition joinOut (attrName : string) (ifAddr : IfAddr) : string :=
  let sa := Addr ifAddr in
  let out :=
    match sa with
    | SockIPv4 ipv4 => attrIPv4 attrName ifAddr ipv4
    | SockIPv6 ipv6 => attrIPv6 attrName ifAddr ipv6
    | SockUnix us => if String.eqb attrName "path" then unixPath us else ""
    end in
  if String.eqb attrName "type" then TypeName sa
  else if String.eqb attrName "string" then SockAddr_String sa
  else out.

Definition JoinIfAddrs (selectorName joinStr : string) (inputIfAddrs : IfAddrs)
  : string :=
  let attrName := Strings.ToLower selectorName in
  Join (map (joinOut attrName) inputIfAddrs) joinStr.

End Env.

End Joining.

(* ================================================================== *)
(** ** [ifaddrs.go]: the addresses of the default interface *)

Module Defaults.

Import Sock GoSort.

Section Env.

(** The registry and the comparators on addresses, declared outside
    this file. *)
Variable rfcNetMap : Z -> option (list SockAddr).
Variable Contains : SockAddr -> SockAddr -> bool.
Variables AscNetworkSize AscType : SockAddr -> SockAddr -> Z.

(** What [getDefaultIfName] and [GetAllInterfaces] return; both ask the
    operating system. *)
Variable getDefaultIfName : string * option Ifs.error.
Variable GetAllInterfaces : IfAddrs * option Ifs.error.

(** The methods of [IPv6Addr], as in [Joining]. *)
Variable ipv6Attr : string -> IPv6Addr -> string.

(** The error of [GetAllInterfaces] is assigned and not looked at. *)
Definition GetDefaultInterfaces : IfAddrs * option Ifs.error :=
  let '(defaultIfName, err) := getDefaultIfName in
  match err with
  | Some e => ([], Some e)
  | None =>
      let '(ifAddrs, _) := GetAllInterfaces in
      (filter (fun ifAddr => String.eqb (IfName ifAddr) defaultIfName) ifAddrs,
       None)
  end.

(** The keys of the sort in both functions. *)
Definition typeThenSize : list Ifs.CmpIfAddrFunc :=
  [Ifs.AscIfType AscType; Ifs.AscIfNetworkSize AscNetworkSize].

Definition GetPrivateInterfaces : result IfAddrs :=
  let '(privateIfs, _) := GetDefaultInterfaces in
  if (List.length privateIfs =? 0)%nat then Returns [] else
  let '(privateIfs, _) := Ifs.FilterIfByType privateIfs TypeIP in
  if (List.length privateIfs =? 0)%nat then Returns [] else
  match Ifs.SortBy typeThenSize privateIfs with
  | Returns privateIfs =>
      let '(privateIfs, _, err) :=
        Ifs.IfByRFC rfcNetMap Contains 6890 privateIfs in
      match err with
      | Some _ => Returns []
      | None =>
          if (List.length privateIfs =? 0)%nat then Returns []
          else Returns privateIfs
      end
  | Panics => Panics
  | Starves => Starves
  end.

Definition GetPublicInterfaces : result IfAddrs :=
  let '(publicIfs, _) := GetDefaultInterfaces in
  if (List.length publicIfs =? 0)%nat then Returns [] else
  let '(publicIfs, _) := Ifs.FilterIfByType publicIfs TypeIP in
  if (List.length publicIfs =? 0)%nat then Returns [] else
  match Ifs.SortBy typeThenSize publicIfs with
  | Returns publicIfs =>
      let '(_, publicIfs, err) :=
        Ifs.IfByRFC rfcNetMap Contains 6890 publicIfs in
      match err with
      | Some _ => Returns []
      | None =>
          if (List.length publicIfs =? 0)%nat then Returns []
          else Returns publicIfs
      end
  | Panics => Panics
  | Starves => Starves
  end.

(** [ip.NetIP().String()] for [ip := *ToIPAddr(sa)]; [None] is the nil
    pointer that [ToIPAddr] returns for an address that is no IP
    address. *)
Definition ipString (sa : SockAddr) : option string :=
  match sa with
  | SockIPv4 ipv4 => Some (Go.IP_String (IPv4.NetIP ipv4))
  | SockIPv6 ipv6 => Some (ipv6Attr "address" ipv6)
  | SockUnix _ => None
  end.

(** The tail shared by [GetPrivateIP] and [GetPublicIP]. *)
Definition firstIP (ifs : result IfAddrs) : result string :=
  match ifs with
  | Returns ifs =>
      match ifs with
      | [] => Returns ""
      | ifAddr :: _ =>
          match ipString (Addr ifAddr) with
          | Some s => Returns s
          | None => Panics
          end
      end
  | Panics => Panics
  | Starves => Starves
  end.

Definition GetPrivateIP : result string := firstIP GetPrivateInterfaces.

Definition GetPublicIP : result string := firstIP GetPublicInterfaces.

End Env.

End Defaults.

(* ================================================================== *)
(** ** Vocabulary of the further statements *)

Definition is_some_true (o : option bool) : bool :=
  match o with Some true => true | _ => false end.

Definition is_some_false (o : option bool) : bool :=
  match o with Some false => true | _ => false end.

(** The address of the record is an IPv4 or IPv6 address. *)
Definition isIP (a : Sock.IfAddr) : bool :=
  negb (Z.land (Sock.Type_ (Sock.Addr a)) Sock.TypeIP =? 0).

(** The decimal port of an IP record matches the pattern. *)
Definition port_matches (re : string -> bool) (a : Sock.IfAddr) : bool :=
  match Sock.IPPortOf (Sock.Addr a) with
  | Some p => re (Go.itoa p)
  | None => false
  end.

(** The mask-bit count of an IP record is [n]. *)
Definition size_matches (n : Z) (a : Sock.IfAddr) : bool :=
  match Sock.MaskbitsOf (Sock.Addr a) with
  | Some bits => bits =? n
  | None => false
  end.

(** A record with a UNIX-domain address, for the examples. *)
Module Sample2.
Definition unix1 : Sock.IfAddr :=
  {| Sock.Addr := Sock.SockUnix {| Sock.unixPath := "/tmp/sock" |};
     Sock.Intf := {| Sock.Index := 0; Sock.MTU := 0; Sock.Name := "";
                     Sock.HardwareAddr := ""; Sock.Flags := 0 |} |}.
End Sample2.

(** An environment for the addresses of the default interface. *)
Module Sample3.

Import Sock.

(** Modelled from the spec: "AscType: orders strictly Unix < IPv4 <
    IPv6". *)
Definition AscType (a b : SockAddr) : Z :=
  match Z.compare (Type_ a) (Type_ b) with Lt => -1 | Eq => 0 | Gt => 1 end.

(** Modelled from the spec: "AscNetworkSize: fewer mask bits (bigger
    network) sorts first; Unix addresses not comparable". *)
Definition AscNetworkSize (a b : SockAddr) : Z :=
  match MaskbitsOf a, MaskbitsOf b with
  | Some m, Some n =>
      match Z.compare m n with Lt => -1 | Eq => 0 | Gt => 1 end
  | _, _ => 0
  end.

(** Modelled from the spec: the registry under identifier 6890 holds
    the special-use ranges; the private-use networks stand for it. *)
Definition rfcNetMap (rfc : Z) : option (list SockAddr) :=
  if rfc =? 6890 then Sample.rfcNetMap 1918 else None.

Definition getDefaultIfName : string * option Ifs.error := ("eth0", None).

Definition GetAllInterfaces : IfAddrs * option Ifs.error :=
  ([ Sample.ifAddr4 "eth0" 0x08080808 0xffffffff 0;
     Sample.private1;
     Sample.public1 ], None).

End Sample3.

(** [n] copies of [s]. *)
Fixpoint times (n : nat) (s : string) : string :=
  match n with
  | O => ""
  | S n' => s +++ times n' s
  end.

(** The attribute names of [JoinIfAddrs], in lower case. *)
Definition known_attribute (a : string) : bool :=
  existsb (String.eqb a)
    [ "address"; "binary"; "first_usable"; "hex"; "host"; "last_usable";
      "mask_bits"; "name"; "netmask"; "network"; "octets"; "port"; "size";
      "broadcast"; "uint32"; "uint128"; "path"; "type"; "string" ].



(** Every byte of the text is below [0x80]. *)
Fixpoint ascii_text (s : string) : bool :=
  match s with
  | EmptyString => true
  | String c s' => (Strings.byte_of c <? 128) && ascii_text s'
  end.

(** Number of occurrences of the byte [c] in [s]. *)
Fixpoint count (c : ascii) (s : string) : nat :=
  match s with
  | EmptyString => O
  | String d s' => if Ascii.eqb d c then S (count c s') else count c s'
  end.

(** The error of both route parsers. *)
Definition noDefault : Ifs.error :=
  Ifs.errorString "No default interface found".

(** A result of a route parser: a name without error, or the empty name
    with the error. *)
Definition name_or_error (r : string * option Ifs.error) : Prop :=
  snd r = None \/ r = ("", Some noDefault).

(** The clauses that [SortIfBy] knows, in lower case. *)
Definition known_clause (c : string) : bool :=
  String.eqb c "address" || String.eqb c "name" || String.eqb c "port"
  || String.eqb c "private" || String.eqb c "size" || String.eqb c "type".

(** The keys order the records as a strict weak order: a record that
    is less than another is not greater than it, and "not less than" is
    transitive. *)
Definition strict_weak (cmp : list Ifs.CmpIfAddrFunc) : Prop :=
  (forall p q, Ifs.lessBy cmp p q = Some true -> Ifs.lessBy cmp q p = Some false)
  /\ (forall p q r,
        Ifs.lessBy cmp r q = Some false -> Ifs.lessBy cmp q p = Some false ->
        Ifs.lessBy cmp r p = Some false).

(** The interface names do not decrease along the slice. *)
Definition names_ascending (xs : Sock.IfAddrs) : Prop :=
  ForallOrdPairs
    (fun p q => String.compare (Sock.IfName p) (Sock.IfName q) <> Gt) xs.

(** [l1] is [l2] with some elements left out, in the same order. *)
Inductive subseq {A : Type} : list A -> list A -> Prop :=
| subseq_nil : subseq [] []
| subseq_skip (x : A) (l1 l2 : list A) : subseq l1 l2 -> subseq l1 (x :: l2)
| subseq_keep (x : A) (l1 l2 : list A) : subseq l1 l2 -> subseq (x :: l1) (x :: l2).

(** No record with a non-empty key is directly followed by a record with
    the same key. *)
Fixpoint no_repeat (key : Sock.IfAddr -> string) (l : Sock.IfAddrs) : Prop :=
  match l with
  | x :: ((y :: _) as t) => (key x = "" \/ key x <> key y) /\ no_repeat key t
  | _ => True
  end.

(** The records that the loop of [UniqueIfAddrsBy] appends, given the
    key of the last record appended. *)
Fixpoint kept (key : Sock.IfAddr -> string) (lastMatch : string)
         (input : Sock.IfAddrs) : Sock.IfAddrs :=
  match input with
  | [] => []
  | x :: rest =>
      if String.eqb lastMatch "" || negb (String.eqb lastMatch (key x))
      then x :: kept key (key x) rest
      else kept key lastMatch rest
  end.

(* ================================================================== *)
(** * Properties *)

(** ** Bytes and masks *)

Lemma byte_cases (P : Z -> bool) :
  forallb P (map Z.of_nat (seq 0 256)) = true ->
  forall v, 0 <= v < 256 -> P v = true.
Proof.
  intros H v Hv.
  rewrite forallb_forall in H. apply H.
  apply in_map_iff. exists (Z.to_nat v). split; [lia|].
  apply in_seq. lia.
Qed.

Lemma leading_ones_shift (fuel : nat) (n v : Z) :
  Go.leading_ones fuel n v =
  (n + fst (Go.leading_ones fuel 0 v), snd (Go.leading_ones fuel 0 v)).
Proof.
  revert n v. induction fuel as [|fuel IH]; intros n v; simpl.
  - f_equal. lia.
  - destruct (Z.land v 128 =? 0); simpl.
    + f_equal. lia.
    + rewrite (IH (n + 1)), (IH (0 + 1)). cbn [fst snd]. f_equal. lia.
Qed.

Lemma leading_ones_byte (v : Z) :
  0 <= v < 256 -> v <> 255 ->
  0 <= fst (Go.leading_ones 8 0 v) <= 7 /\
  (snd (Go.leading_ones 8 0 v) = 0 ->
   v = 256 - 2 ^ (8 - fst (Go.leading_ones 8 0 v))).
Proof.
  intros Hv Hne.
  pose (P := fun v =>
    (v =? 255) ||
    ((0 <=? fst (Go.leading_ones 8 0 v)) && (fst (Go.leading_ones 8 0 v) <=? 7)
     && (negb (snd (Go.leading_ones 8 0 v) =? 0)
         || (v =? 256 - 2 ^ (8 - fst (Go.leading_ones 8 0 v)))))).
  assert (HP : P v = true) by (apply byte_cases; [vm_compute; reflexivity | exact Hv]).
  unfold P in HP.
  apply orb_true_iff in HP. destruct HP as [HP|HP]; [lia|].
  apply andb_true_iff in HP. destruct HP as [HP1 HP2].
  apply andb_true_iff in HP1. destruct HP1 as [Ha Hb].
  split; [lia|].
  intros Hz. apply orb_true_iff in HP2. destruct HP2 as [HP2|HP2].
  - rewrite Hz in HP2. discriminate.
  - lia.
Qed.

Lemma sml_cons (n v : Z) (rest : list Z) :
  Go.simpleMaskLength_from n (v :: rest) =
  if v =? 255 then Go.simpleMaskLength_from (n + 8) rest
  else if negb (snd (Go.leading_ones 8 0 v) =? 0) then -1
       else if forallb (fun b => b =? 0) rest
            then n + fst (Go.leading_ones 8 0 v) else -1.
Proof.
  cbn [Go.simpleMaskLength_from].
  rewrite (leading_ones_shift 8 n v). reflexivity.
Qed.

Lemma leading_ones_nonneg (fuel : nat) (v : Z) :
  0 <= fst (Go.leading_ones fuel 0 v).
Proof.
  revert v. induction fuel as [|k IHk]; intros w;
    cbn [Go.leading_ones fst]; [lia|].
  destruct (Z.land w 128 =? 0); cbn [fst]; [lia|].
  rewrite leading_ones_shift. cbn [fst].
  specialize (IHk (Z.shiftl w 1 mod 256)). lia.
Qed.

Lemma sml_lower (bs : list Z) :
  forall n, 0 <= n -> Go.simpleMaskLength_from n bs <> -1 ->
            n <= Go.simpleMaskLength_from n bs.
Proof.
  induction bs as [|v rest IH]; intros n Hn Hr; [simpl; lia|].
  rewrite sml_cons in *.
  destruct (v =? 255).
  - specialize (IH (n + 8)). lia.
  - destruct (negb (snd (Go.leading_ones 8 0 v) =? 0)); [congruence|].
    destruct (forallb (fun b => b =? 0) rest); [|congruence].
    pose proof (leading_ones_nonneg 8 v). lia.
Qed.

Lemma all_zero_eq (l1 l2 : list Z) :
  List.length l1 = List.length l2 ->
  forallb (fun b => b =? 0) l1 = true ->
  forallb (fun b => b =? 0) l2 = true -> l1 = l2.
Proof.
  revert l2. induction l1 as [|x l1 IH]; intros [|y l2] Hl H1 H2;
    simpl in *; try discriminate; [reflexivity|].
  apply andb_true_iff in H1. apply andb_true_iff in H2.
  destruct H1, H2. f_equal; [lia|]. apply IH; auto.
Qed.

Lemma sml_inj (bs1 : list Z) :
  forall bs2 n,
    List.length bs1 = List.length bs2 ->
    Forall is_byte bs1 -> Forall is_byte bs2 ->
    0 <= n ->
    Go.simpleMaskLength_from n bs1 <> -1 ->
    Go.simpleMaskLength_from n bs1 = Go.simpleMaskLength_from n bs2 ->
    bs1 = bs2.
Proof.
  induction bs1 as [|v1 r1 IH]; intros [|v2 r2] n Hl F1 F2 Hn Hne Heq;
    simpl in Hl; try discriminate; [reflexivity|].
  inversion F1 as [|? ? Hv1 F1']; subst.
  inversion F2 as [|? ? Hv2 F2']; subst.
  assert (Hne2 : Go.simpleMaskLength_from n (v2 :: r2) <> -1) by congruence.
  pose proof (sml_lower (v1 :: r1) n Hn Hne) as Hlow1.
  pose proof (sml_lower (v2 :: r2) n Hn Hne2) as Hlow2.
  rewrite !sml_cons in *.
  pose proof (sml_lower r1 (n + 8)) as Hup1.
  pose proof (sml_lower r2 (n + 8)) as Hup2.
  destruct (Z.eqb_spec v1 255) as [E1|E1], (Z.eqb_spec v2 255) as [E2|E2].
  - subst. f_equal. apply (IH r2 (n + 8)); auto; lia.
  - exfalso.
    destruct (leading_ones_byte v2 Hv2 E2) as [Hb _].
    destruct (negb (snd (Go.leading_ones 8 0 v2) =? 0)); [congruence|].
    destruct (forallb (fun b => b =? 0) r2); [|congruence].
    lia.
  - exfalso.
    destruct (leading_ones_byte v1 Hv1 E1) as [Hb _].
    destruct (negb (snd (Go.leading_ones 8 0 v1) =? 0)); [congruence|].
    destruct (forallb (fun b => b =? 0) r1); [|congruence].
    lia.
  - destruct (leading_ones_byte v1 Hv1 E1) as [Hb1 Hz1].
    destruct (leading_ones_byte v2 Hv2 E2) as [Hb2 Hz2].
    destruct (Z.eqb_spec (snd (Go.leading_ones 8 0 v1)) 0) as [Z1|Z1];
      cbn [negb] in *; [|congruence].
    destruct (Z.eqb_spec (snd (Go.leading_ones 8 0 v2)) 0) as [Z2|Z2];
      cbn [negb] in *; [|congruence].
    destruct (forallb (fun b => b =? 0) r1) eqn:A1; [|congruence].
    destruct (forallb (fun b => b =? 0) r2) eqn:A2; [|congruence].
    assert (fst (Go.leading_ones 8 0 v1) = fst (Go.leading_ones 8 0 v2)) by lia.
    f_equal.
    + rewrite (Hz1 Z1), (Hz2 Z2). congruence.
    + apply all_zero_eq; auto.
Qed.

Lemma PutUint32_bytes (v : Z) : Forall is_byte (Go.PutUint32 v).
Proof.
  unfold Go.PutUint32, is_byte.
  repeat constructor; apply Z.mod_pos_bound; lia.
Qed.

Lemma PutUint32_length (v : Z) : List.length (Go.PutUint32 v) = 4%nat.
Proof. reflexivity. Qed.

Lemma PutUint32_inj (m1 m2 : Z) :
  0 <= m1 < 2 ^ 32 -> 0 <= m2 < 2 ^ 32 ->
  Go.PutUint32 m1 = Go.PutUint32 m2 -> m1 = m2.
Proof.
  intros H1 H2 H. unfold Go.PutUint32 in H.
  rewrite !Z.shiftr_div_pow2 in H by lia.
  injection H as E24 E16 E8 E0.
  change (2 ^ 24) with 16777216 in *. change (2 ^ 16) with 65536 in *.
  change (2 ^ 8) with 256 in *. change (2 ^ 32) with 4294967296 in *.
  Z.div_mod_to_equations. lia.
Qed.

Lemma Maskbits_unfold (a : IPv4.IPv4Addr) :
  IPv4.Maskbits a =
  if Go.simpleMaskLength (Go.PutUint32 (IPv4.Mask a)) =? -1 then 0
  else Go.simpleMaskLength (Go.PutUint32 (IPv4.Mask a)).
Proof.
  unfold IPv4.Maskbits, Go.IPMask_Size.
  destruct (Go.simpleMaskLength (Go.PutUint32 (IPv4.Mask a)) =? -1);
    reflexivity.
Qed.

(** A canonical mask is determined by its number of leading ones. *)
Lemma Maskbits_determines_mask (a : IPv4.IPv4Addr) (m : Z) :
  0 <= IPv4.Mask a < 2 ^ 32 -> 0 <= m < 2 ^ 32 ->
  Go.simpleMaskLength (Go.PutUint32 m) <> -1 ->
  Go.simpleMaskLength (Go.PutUint32 m) <> 0 ->
  IPv4.Maskbits a = Go.simpleMaskLength (Go.PutUint32 m) ->
  IPv4.Mask a = m.
Proof.
  intros Ha Hm Hne Hnz Heq.
  rewrite Maskbits_unfold in Heq.
  destruct (Z.eqb_spec (Go.simpleMaskLength (Go.PutUint32 (IPv4.Mask a))) (-1))
    as [E|E]; [congruence|].
  apply PutUint32_inj; auto.
  apply (sml_inj _ _ 0); auto using PutUint32_bytes; lia.
Qed.

Lemma Maskbits_32_iff (a : IPv4.IPv4Addr) :
  0 <= IPv4.Mask a < 2 ^ 32 ->
  (IPv4.Maskbits a = 32 <-> IPv4.Mask a = IPv4.IPv4HostMask).
Proof.
  intros Ha. split; intros H.
  - apply Maskbits_determines_mask; auto; try (vm_compute; intuition congruence).
  - unfold IPv4.Maskbits. rewrite H. reflexivity.
Qed.

(** ** Strings *)

Lemma has_append (c : ascii) (s t : string) :
  has c (s +++ t) = has c s || has c t.
Proof.
  induction s as [|x s IH]; simpl; [reflexivity|].
  rewrite IH, orb_assoc. reflexivity.
Qed.

Lemma append_cut_unique (c : ascii) (a b a' b' : string) :
  has c a = false -> has c a' = false ->
  a +++ String c b = a' +++ String c b' -> a = a' /\ b = b'.
Proof.
  revert a'. induction a as [|x a IH]; intros [|x' a'] Ha Ha' H; simpl in *.
  - injection H as ->. auto.
  - injection H as <- _. rewrite Ascii.eqb_refl in Ha'. discriminate.
  - injection H as -> _. rewrite Ascii.eqb_refl in Ha. discriminate.
  - injection H as -> H.
    apply orb_false_iff in Ha, Ha'. destruct Ha as [_ Ha], Ha' as [_ Ha'].
    destruct (IH a' Ha Ha' H) as [-> ->]. auto.
Qed.

Lemma append_assoc (a b c : string) : (a +++ b) +++ c = a +++ b +++ c.
Proof. induction a as [|x a IH]; cbn; [reflexivity | rewrite IH; reflexivity]. Qed.

Lemma append_nonempty_r (s t : string) : t <> "" -> s +++ t <> "".
Proof. destruct s; simpl; [auto | discriminate]. Qed.

Lemma string_of_uint_digits (d : Decimal.uint) :
  all_digits (NilEmpty.string_of_uint d) = true.
Proof. induction d; simpl; auto. Qed.

Lemma all_digits_has (c : ascii) (s : string) :
  is_digit c = false -> all_digits s = true -> has c s = false.
Proof.
  intros Hc. induction s as [|x s IH]; simpl; [reflexivity|].
  intros H. apply andb_true_iff in H. destruct H as [Hx Hs].
  rewrite (IH Hs), orb_false_r.
  destruct (Ascii.eqb_spec x c) as [->|]; [congruence | reflexivity].
Qed.

Lemma itoa_has (c : ascii) (n : Z) : is_digit c = false -> has c (Go.itoa n) = false.
Proof.
  intros Hc. apply all_digits_has; [exact Hc|].
  apply string_of_uint_digits.
Qed.

Lemma itoa_inj (a b : Z) : 0 <= a -> 0 <= b -> Go.itoa a = Go.itoa b -> a = b.
Proof.
  unfold Go.itoa. intros Ha Hb H.
  assert (E : N.to_uint (Z.to_N a) = N.to_uint (Z.to_N b)).
  { pose proof (NilEmpty.usu (N.to_uint (Z.to_N a))) as U1.
    pose proof (NilEmpty.usu (N.to_uint (Z.to_N b))) as U2.
    rewrite H in U1. congruence. }
  apply (f_equal N.of_uint) in E.
  rewrite !DecimalN.Unsigned.of_to in E. lia.
Qed.

Lemma IP_String_no_slash (v : Z) : has "/" (Go.IP_String (Go.PutUint32 v)) = false.
Proof.
  unfold Go.PutUint32, Go.IP_String.
  repeat (rewrite has_append; cbn [has]).
  rewrite !itoa_has by reflexivity. reflexivity.
Qed.

Lemma IP_String_nonempty (v : Z) : Go.IP_String (Go.PutUint32 v) <> "".
Proof.
  unfold Go.PutUint32, Go.IP_String.
  apply append_nonempty_r. discriminate.
Qed.

Lemma hexbyte_inv (v : Z) :
  0 <= v < 256 ->
  unhex (Go.hexdigit (Z.shiftr v 4)) * 16 + unhex (Go.hexdigit (Z.land v 15)) = v.
Proof.
  intros Hv.
  pose (P := fun v =>
    unhex (Go.hexdigit (Z.shiftr v 4)) * 16
    + unhex (Go.hexdigit (Z.land v 15)) =? v).
  assert (HP : P v = true) by (apply byte_cases; [vm_compute; reflexivity | exact Hv]).
  unfold P in HP. lia.
Qed.

Lemma hexString_inj (bs1 : list Z) :
  forall bs2, Forall is_byte bs1 -> Forall is_byte bs2 ->
              Go.hexString bs1 = Go.hexString bs2 -> bs1 = bs2.
Proof.
  induction bs1 as [|v1 r1 IH]; intros [|v2 r2] F1 F2 H; simpl in H;
    try discriminate; [reflexivity|].
  inversion F1; subst. inversion F2; subst.
  injection H as Hh Hl Hr.
  f_equal; [|apply IH; auto].
  rewrite <- (hexbyte_inv v1), <- (hexbyte_inv v2) by assumption.
  rewrite Hh, Hl. reflexivity.
Qed.

Lemma hexString_length (bs : list Z) :
  String.length (Go.hexString bs) = (2 * List.length bs)%nat.
Proof. induction bs as [|b r IH]; simpl; [reflexivity | rewrite IH; lia]. Qed.

Lemma itoa_short (l : Z) :
  0 <= l <= 32 -> (String.length (Go.itoa l) <= 2)%nat.
Proof.
  intros Hl.
  pose (P := fun l => (32 <? l) || (String.length (Go.itoa l) <=? 2)%nat).
  assert (HP : P l = true) by (apply byte_cases; [vm_compute; reflexivity | lia]).
  unfold P in HP. apply orb_true_iff in HP. destruct HP as [HP|HP]; [lia|].
  apply Nat.leb_le. exact HP.
Qed.

Lemma leading_ones_le (k : nat) (v : Z) :
  fst (Go.leading_ones k 0 v) <= Z.of_nat k.
Proof.
  revert v. induction k as [|k IHk]; intros w; cbn [Go.leading_ones];
    [simpl; lia|].
  destruct (Z.land w 128 =? 0); cbn [fst]; [lia|].
  rewrite leading_ones_shift. cbn [fst].
  specialize (IHk (Z.shiftl w 1 mod 256)). lia.
Qed.

Lemma sml_upper (bs : list Z) :
  forall n, Go.simpleMaskLength_from n bs <= n + 8 * Z.of_nat (List.length bs)
            \/ Go.simpleMaskLength_from n bs = -1.
Proof.
  induction bs as [|v rest IH]; intros n; [simpl; lia|].
  rewrite sml_cons. cbn [List.length].
  destruct (Z.eqb_spec v 255) as [E|E].
  - destruct (IH (n + 8)); [left | right]; lia.
  - destruct (negb (snd (Go.leading_ones 8 0 v) =? 0)); [right; lia|].
    destruct (forallb (fun b => b =? 0) rest); [|right; lia].
    left. pose proof (leading_ones_le 8 v). lia.
Qed.

(** The network strings of two addresses coincide only for equal masks. *)
Lemma NetIPNet_String_mask (a b : IPv4.IPv4Addr) :
  0 <= IPv4.Mask a < 2 ^ 32 -> 0 <= IPv4.Mask b < 2 ^ 32 ->
  IPv4.NetIPNet_String a = IPv4.NetIPNet_String b ->
  IPv4.Mask a = IPv4.Mask b.
Proof.
  intros Ha Hb H.
  unfold IPv4.NetIPNet_String, Go.IPNet_String, IPv4.NetIPMask in H.
  assert (R : forall m, Go.simpleMaskLength (Go.PutUint32 m) = -1 \/
                        0 <= Go.simpleMaskLength (Go.PutUint32 m) <= 32).
  { intros m. unfold Go.simpleMaskLength.
    pose proof (sml_lower (Go.PutUint32 m) 0) as L.
    destruct (sml_upper (Go.PutUint32 m) 0) as [U|U]; [|auto].
    rewrite PutUint32_length in U.
    destruct (Z.eq_dec (Go.simpleMaskLength_from 0 (Go.PutUint32 m)) (-1));
      [auto | right; lia]. }
  pose proof (R (IPv4.Mask a)) as Ra. pose proof (R (IPv4.Mask b)) as Rb.
  remember (Go.simpleMaskLength (Go.PutUint32 (IPv4.Mask a))) as la eqn:Ela.
  remember (Go.simpleMaskLength (Go.PutUint32 (IPv4.Mask b))) as lb eqn:Elb.
  assert (Hcut : forall x y s t,
    Go.IP_String (Go.PutUint32 x) +++ "/" +++ s =
    Go.IP_String (Go.PutUint32 y) +++ "/" +++ t -> s = t).
  { intros x y s t E.
    apply (append_cut_unique "/"%char) in E; auto using IP_String_no_slash.
    tauto. }
  destruct (Z.eqb_spec la (-1)) as [Ea|Ea], (Z.eqb_spec lb (-1)) as [Eb|Eb];
    apply Hcut in H.
  - apply PutUint32_inj; auto.
    apply hexString_inj; auto using PutUint32_bytes.
  - exfalso. apply (f_equal String.length) in H.
    rewrite hexString_length, PutUint32_length in H.
    pose proof (itoa_short lb). lia.
  - exfalso. apply (f_equal String.length) in H.
    rewrite hexString_length, PutUint32_length in H.
    pose proof (itoa_short la). lia.
  - apply itoa_inj in H; [|lia|lia].
    apply PutUint32_inj; auto.
    subst la lb. unfold Go.simpleMaskLength in *.
    apply (sml_inj _ _ 0); auto using PutUint32_bytes; lia.
Qed.

(* ================================================================== *)
(** ** [IPv4Addr]: derived addresses *)

Ltac wf_auto := unfold IPv4.wf; cbn; lia.

Lemma land_host (x : Z) : 0 <= x < 2 ^ 32 -> Z.land x 0xffffffff = x.
Proof.
  intros H. change 0xffffffff with (Z.ones 32).
  rewrite Z.land_ones by lia. apply Z.mod_small. exact H.
Qed.

(** C10. [Broadcast()], [FirstUsable()] and [LastUsable()] return a value
    with the host mask and port 0, whatever the receiver's port; [Host()]
    returns a value with the host mask and the receiver's port. *)
Theorem derived_addresses_mask_and_port (ipv4 : IPv4.IPv4Addr) :
  (IPv4.Mask (IPv4.Broadcast ipv4) = IPv4.IPv4HostMask /\
   IPv4.Port (IPv4.Broadcast ipv4) = 0) /\
  (IPv4.Mask (IPv4.FirstUsable ipv4) = IPv4.IPv4HostMask /\
   IPv4.Port (IPv4.FirstUsable ipv4) = 0) /\
  (IPv4.Mask (IPv4.LastUsable ipv4) = IPv4.IPv4HostMask /\
   IPv4.Port (IPv4.LastUsable ipv4) = 0) /\
  (IPv4.Mask (IPv4.Host ipv4) = IPv4.IPv4HostMask /\
   IPv4.Port (IPv4.Host ipv4) = IPv4.Port ipv4).
Proof. repeat split. Qed.

(** C3, as stated, does not hold: for [10.0.0.0/31] the value returned by
    [FirstUsable()] differs from the one returned by [Network()], which
    keeps the /31 mask. *)
Lemma slash31_first_usable_differs_from_network :
  ~ (IPv4.Maskbits Ex.a31 = 31 ->
     IPv4.FirstUsable Ex.a31 = IPv4.Network Ex.a31 /\
     IPv4.LastUsable Ex.a31 = IPv4.Broadcast Ex.a31).
Proof.
  intros H. destruct (H eq_refl) as [E _].
  apply (f_equal IPv4.Mask) in E. vm_compute in E. discriminate.
Qed.

(** C3, amended. With [Maskbits() = 31], [FirstUsable()] carries the
    address and port of [Network()] without the +1 adjustment, under the
    host mask where [Network()] keeps the receiver's (different) mask, and
    [LastUsable()] equals [Broadcast()], without the -1 adjustment. *)
Theorem slash31_usable (ipv4 : IPv4.IPv4Addr) :
  IPv4.Maskbits ipv4 = 31 ->
  IPv4.Address (IPv4.FirstUsable ipv4) = IPv4.Address (IPv4.Network ipv4) /\
  IPv4.Address (IPv4.FirstUsable ipv4) = IPv4.NetworkAddress ipv4 /\
  IPv4.Port (IPv4.FirstUsable ipv4) = IPv4.Port (IPv4.Network ipv4) /\
  IPv4.Mask (IPv4.FirstUsable ipv4) = IPv4.IPv4HostMask /\
  IPv4.Mask (IPv4.Network ipv4) <> IPv4.IPv4HostMask /\
  IPv4.LastUsable ipv4 = IPv4.Broadcast ipv4 /\
  IPv4.Address (IPv4.LastUsable ipv4) = IPv4.BroadcastAddress ipv4.
Proof.
  intros H.
  unfold IPv4.FirstUsable, IPv4.LastUsable, IPv4.Network, IPv4.Broadcast.
  rewrite H. cbn.
  repeat split.
  intros E. unfold IPv4.Maskbits in H. rewrite E in H.
  vm_compute in H. discriminate.
Qed.

Lemma slash31_usable_witness :
  IPv4.Maskbits Ex.a31 = 31 /\
  IPv4.Address (IPv4.FirstUsable Ex.a31) = IPv4.Address (IPv4.Network Ex.a31) /\
  IPv4.LastUsable Ex.a31 = IPv4.Broadcast Ex.a31.
Proof.
  split; [reflexivity|].
  destruct (slash31_usable Ex.a31 eq_refl) as (H1 & _ & _ & _ & _ & H6 & _).
  split; [exact H1 | exact H6].
Defined.

(** C4, as stated, does not hold: for [1.2.3.4:80] (host mask, port 80)
    [Host()] keeps the port and so differs from [FirstUsable()] and
    [LastUsable()], which drop it. *)
Lemma slash32_host_differs_with_port :
  ~ (IPv4.Maskbits Ex.host80 = 32 ->
     IPv4.FirstUsable Ex.host80 = IPv4.LastUsable Ex.host80 /\
     IPv4.LastUsable Ex.host80 = IPv4.Host Ex.host80).
Proof.
  intros H. destruct (H eq_refl) as [_ E].
  apply (f_equal IPv4.Port) in E. vm_compute in E. discriminate.
Qed.

(** C4, amended. With [Maskbits() = 32], [FirstUsable()] and
    [LastUsable()] are equal and have the address and mask of [Host()];
    all three are equal exactly when the receiver's port is 0. *)
Theorem slash32_usable (ipv4 : IPv4.IPv4Addr) :
  IPv4.wf ipv4 ->
  IPv4.Maskbits ipv4 = 32 ->
  IPv4.FirstUsable ipv4 = IPv4.LastUsable ipv4 /\
  IPv4.Address (IPv4.FirstUsable ipv4) = IPv4.Address (IPv4.Host ipv4) /\
  IPv4.Mask (IPv4.FirstUsable ipv4) = IPv4.Mask (IPv4.Host ipv4) /\
  (IPv4.FirstUsable ipv4 = IPv4.Host ipv4 <-> IPv4.Port ipv4 = 0).
Proof.
  intros (Ha & Hm & Hp) H.
  assert (M : IPv4.Mask ipv4 = 0xffffffff) by (apply Maskbits_32_iff; auto).
  unfold IPv4.FirstUsable, IPv4.LastUsable, IPv4.Host,
    IPv4.NetworkAddress, IPv4.BroadcastAddress.
  rewrite H, M. cbn [Z.ltb Z.compare Pos.compare Pos.compare_cont].
  rewrite land_host by exact Ha.
  change (Z.lxor 0xffffffff 0xffffffff) with 0. rewrite Z.lor_0_r.
  cbn [IPv4.Address IPv4.Mask IPv4.Port].
  repeat split.
  - intros E. injection E as E. auto.
  - intros E. rewrite E. reflexivity.
Qed.

Lemma slash32_usable_witness :
  IPv4.FirstUsable Ex.host0 = IPv4.LastUsable Ex.host0 /\
  IPv4.FirstUsable Ex.host0 = IPv4.Host Ex.host0.
Proof.
  assert (W : IPv4.wf Ex.host0) by wf_auto.
  destruct (slash32_usable Ex.host0 W eq_refl) as (H1 & _ & _ & H4).
  split; [exact H1 | apply H4; reflexivity].
Defined.

(* ================================================================== *)
(** ** [IPv4Addr]: dial and listen arguments *)

Lemma hostport_nonempty (ipv4 : IPv4.IPv4Addr) : IPv4.hostport ipv4 <> "".
Proof.
  unfold IPv4.hostport. intros E.
  destruct (Go.IP_String (IPv4.NetIP ipv4)) eqn:S; [|discriminate].
  exact (IP_String_nonempty _ S).
Qed.

(** C5, as stated, does not hold: for [1.2.3.4] with the host mask and
    port 0, [ListenStreamArgs()] returns the non-empty argument
    ["1.2.3.4:0"]. *)
Lemma listen_args_with_port_zero :
  ~ (snd (IPv4.ListenStreamArgs Ex.host0) = ""
     <-> (IPv4.Mask Ex.host0 <> IPv4.IPv4HostMask \/ IPv4.Port Ex.host0 = 0)).
Proof.
  intros [_ H].
  assert (E : snd (IPv4.ListenStreamArgs Ex.host0) = "") by (apply H; right; reflexivity).
  vm_compute in E. discriminate.
Qed.

(** C5, amended. Every builder returns its transport name and no error.
    The two Dial builders return the empty argument exactly when the mask
    is not the host mask or the port is zero; the two Listen builders
    return it exactly when the mask is not the host mask (with port zero
    they format ["host:0"]).  Otherwise the argument is the formatted
    ["host:port"]. *)
Theorem dial_listen_args (ipv4 : IPv4.IPv4Addr) :
  (fst (IPv4.DialStreamArgs ipv4) = "tcp4" /\
   fst (IPv4.DialPacketArgs ipv4) = "udp4" /\
   fst (IPv4.ListenStreamArgs ipv4) = "tcp4" /\
   fst (IPv4.ListenPacketArgs ipv4) = "udp4") /\
  (snd (IPv4.DialStreamArgs ipv4) = ""
   <-> (IPv4.Mask ipv4 <> IPv4.IPv4HostMask \/ IPv4.Port ipv4 = 0)) /\
  (snd (IPv4.DialPacketArgs ipv4) = ""
   <-> (IPv4.Mask ipv4 <> IPv4.IPv4HostMask \/ IPv4.Port ipv4 = 0)) /\
  (snd (IPv4.ListenStreamArgs ipv4) = ""
   <-> IPv4.Mask ipv4 <> IPv4.IPv4HostMask) /\
  (snd (IPv4.ListenPacketArgs ipv4) = ""
   <-> IPv4.Mask ipv4 <> IPv4.IPv4HostMask) /\
  (IPv4.Mask ipv4 = IPv4.IPv4HostMask -> IPv4.Port ipv4 <> 0 ->
   snd (IPv4.DialStreamArgs ipv4) = IPv4.hostport ipv4 /\
   snd (IPv4.DialPacketArgs ipv4) = IPv4.hostport ipv4) /\
  (IPv4.Mask ipv4 = IPv4.IPv4HostMask ->
   snd (IPv4.ListenStreamArgs ipv4) = IPv4.hostport ipv4 /\
   snd (IPv4.ListenPacketArgs ipv4) = IPv4.hostport ipv4).
Proof.
  pose proof (hostport_nonempty ipv4) as NE.
  unfold IPv4.DialStreamArgs, IPv4.DialPacketArgs,
    IPv4.ListenStreamArgs, IPv4.ListenPacketArgs.
  destruct (Z.eqb_spec (IPv4.Mask ipv4) IPv4.IPv4HostMask) as [M|M];
    destruct (Z.eqb_spec (IPv4.Port ipv4) 0) as [P|P]; cbn;
    repeat split; intros; try tauto; try congruence.
Qed.

Lemma dial_listen_args_witness :
  snd (IPv4.DialStreamArgs Ex.host80) = IPv4.hostport Ex.host80 /\
  snd (IPv4.ListenPacketArgs Ex.host0) = IPv4.hostport Ex.host0.
Proof.
  split.
  - destruct (dial_listen_args Ex.host80) as (_ & _ & _ & _ & _ & H & _).
    apply H; [reflexivity | discriminate].
  - destruct (dial_listen_args Ex.host0) as (_ & _ & _ & _ & _ & _ & H).
    apply H. reflexivity.
Defined.

(* ================================================================== *)
(** ** [IPv4Addr]: string form and equality *)



(** C8. [Equal] is false for every address whose type tag is not IPv4;
    between IPv4 addresses it compares port, address value and the string
    form of the network, so that equal address and port with different
    masks are not [Equal]. *)
Theorem Equal_type_and_mask (ipv4 ipv4b : IPv4.IPv4Addr) (sa : Sock.SockAddr) :
  IPv4.wf ipv4 -> IPv4.wf ipv4b ->
  (Sock.Type_ sa <> Sock.TypeIPv4 -> Sock.Equal ipv4 sa = false) /\
  Sock.Equal ipv4 (Sock.SockIPv4 ipv4b) =
    ((IPv4.Port ipv4 =? IPv4.Port ipv4b)
     && (IPv4.Address ipv4 =? IPv4.Address ipv4b)
     && String.eqb (IPv4.NetIPNet_String ipv4) (IPv4.NetIPNet_String ipv4b)) /\
  (IPv4.Address ipv4 = IPv4.Address ipv4b ->
   IPv4.Port ipv4 = IPv4.Port ipv4b ->
   IPv4.Mask ipv4 <> IPv4.Mask ipv4b ->
   Sock.Equal ipv4 (Sock.SockIPv4 ipv4b) = false).
Proof.
  intros (_ & Ma & _) (_ & Mb & _).
  assert (E : Sock.Equal ipv4 (Sock.SockIPv4 ipv4b) =
    ((IPv4.Port ipv4 =? IPv4.Port ipv4b)
     && (IPv4.Address ipv4 =? IPv4.Address ipv4b)
     && String.eqb (IPv4.NetIPNet_String ipv4) (IPv4.NetIPNet_String ipv4b))).
  { unfold Sock.Equal. cbn [Sock.Type_].
    rewrite Z.eqb_refl. cbn [negb].
    destruct (IPv4.Port ipv4 =? IPv4.Port ipv4b);
      destruct (IPv4.Address ipv4 =? IPv4.Address ipv4b);
      destruct (String.eqb _ _); reflexivity. }
  split; [|split; [exact E|]].
  - intros T. unfold Sock.Equal.
    destruct (Z.eqb_spec (Sock.Type_ sa) Sock.TypeIPv4); [contradiction|].
    reflexivity.
  - intros _ _ Hmask. rewrite E.
    destruct (String.eqb_spec (IPv4.NetIPNet_String ipv4)
                              (IPv4.NetIPNet_String ipv4b)) as [S|S].
    + exfalso. apply Hmask. apply NetIPNet_String_mask; assumption.
    + rewrite andb_false_r. reflexivity.
Qed.

Lemma Equal_type_and_mask_witness :
  Sock.Equal Ex.a24 Ex.unix0 = false /\
  Sock.Equal Ex.a24 (Sock.SockIPv4 Ex.a32) = false.
Proof.
  assert (W1 : IPv4.wf Ex.a24) by wf_auto.
  assert (W2 : IPv4.wf Ex.a32) by wf_auto.
  destruct (Equal_type_and_mask Ex.a24 Ex.a32 Ex.unix0 W1 W2) as (H1 & _ & H3).
  split.
  - apply H1. discriminate.
  - apply H3; [reflexivity | reflexivity | discriminate].
Defined.

(* ================================================================== *)
(** ** [UniqueIfAddrsBy] *)

Section Unique.

Variable quote : string -> string.

Lemma uniqueKey_unsupported (attrName selectorName : string) (x : Sock.IfAddr) :
  attrName <> "address" -> attrName <> "name" ->
  Ifs.uniqueKey quote attrName selectorName x =
  "<unsupported method " +++ quote selectorName +++ ">".
Proof.
  intros Ha Hn. unfold Ifs.uniqueKey.
  destruct (String.eqb_spec attrName "address"); [contradiction|].
  destruct (String.eqb_spec attrName "name"); [contradiction|].
  reflexivity.
Qed.

(** Once the sentinel key has been seen, every further record is
    dropped. *)
Lemma uniqueLoop_sentinel (attrName selectorName : string) (rest ifs : Sock.IfAddrs) :
  attrName <> "address" -> attrName <> "name" ->
  Ifs.uniqueLoop quote attrName selectorName rest
    ("<unsupported method " +++ quote selectorName +++ ">") ifs = ifs.
Proof.
  intros Ha Hn. induction rest as [|x rest IH]; [reflexivity|].
  cbn [Ifs.uniqueLoop].
  rewrite uniqueKey_unsupported by assumption.
  rewrite String.eqb_refl.
  replace (String.eqb ("<unsupported method " +++ quote selectorName +++ ">") "")
    with false by (symmetry; apply String.eqb_neq; discriminate).
  cbn [orb negb]. exact IH.
Qed.

End Unique.

(** C6, as stated, does not hold: under the selector ["bogus"] two
    records on different interfaces are collapsed to the first. *)
Lemma unique_unsupported_selector_collapses :
  Ifs.UniqueIfAddrsBy Sample.quote "bogus" [Sample.private1; Sample.public1]
  <> [Sample.private1; Sample.public1].
Proof. vm_compute. discriminate. Qed.

(** C6, amended. With a selector that is neither ["address"] nor ["name"]
    (letter case aside) every record gets the same sentinel key, so the
    result is the first record of the input alone (and the empty list for
    an empty input). *)
Theorem unique_unsupported_selector
        (quote : string -> string) (selectorName : string)
        (inputIfAddrs : Sock.IfAddrs) :
  Strings.ToLower selectorName <> "address" ->
  Strings.ToLower selectorName <> "name" ->
  Ifs.UniqueIfAddrsBy quote selectorName inputIfAddrs = firstn 1 inputIfAddrs.
Proof.
  intros Ha Hn. unfold Ifs.UniqueIfAddrsBy.
  destruct inputIfAddrs as [|x rest]; [reflexivity|].
  cbn [Ifs.uniqueLoop firstn].
  rewrite uniqueKey_unsupported by assumption.
  cbn [String.eqb orb app].
  apply uniqueLoop_sentinel; assumption.
Qed.

Lemma unique_unsupported_selector_witness :
  Ifs.UniqueIfAddrsBy Sample.quote "bogus" [Sample.private1; Sample.public1]
  = [Sample.private1].
Proof.
  apply (unique_unsupported_selector Sample.quote "bogus"
           [Sample.private1; Sample.public1]); discriminate.
Defined.

(* ================================================================== *)
(** ** [parseLinuxDefaultIfName] *)

Lemma cut_append (sep : ascii) (a b : string) :
  has sep a = false -> Strings.cut sep (a +++ String sep b) = Some (a, b).
Proof.
  induction a as [|c a IH]; cbn [String.append has Strings.cut]; intros H.
  - rewrite Ascii.eqb_refl. reflexivity.
  - apply orb_false_iff in H. destruct H as [Hc Ha].
    rewrite Hc, (IH Ha). reflexivity.
Qed.

Lemma Split_first_line (line more : string) :
  has Ifs.newline line = false ->
  exists rest, Strings.Split (line +++ String Ifs.newline more) Ifs.newline
               = line :: rest.
Proof.
  intros H. unfold Strings.Split.
  destruct (String.length (line +++ String Ifs.newline more)) as [|n] eqn:L.
  - destruct line; discriminate.
  - cbn [Strings.SplitN]. rewrite (cut_append _ _ _ H). eauto.
Qed.

Lemma SplitN_default_line (gw rest : string) :
  has Ifs.space gw = false ->
  Strings.SplitN ("default via " +++ gw +++ " dev " +++ rest) Ifs.space 5
  = ["default"; "via"; gw; "dev"; rest].
Proof.
  intros H.
  change ("default via " +++ gw +++ " dev " +++ rest)
    with ("default" +++ String Ifs.space
            ("via" +++ String Ifs.space
               (gw +++ String Ifs.space ("dev" +++ String Ifs.space rest)))).
  cbn [Strings.SplitN].
  rewrite (cut_append Ifs.space "default") by reflexivity.
  rewrite (cut_append Ifs.space "via") by reflexivity.
  rewrite (cut_append Ifs.space gw) by exact H.
  rewrite (cut_append Ifs.space "dev") by reflexivity.
  reflexivity.
Qed.

(** C9. When the first line of the listing is
    ["default via <gw> dev <rest>"], the function returns all of [<rest>],
    trimmed of outer white space only: the interface name together with
    whatever attributes follow it on the line, not the bare name. *)
Theorem parseLinuxDefaultIfName_first_line (gw rest more : string) :
  has Ifs.space gw = false ->
  has Ifs.newline gw = false ->
  has Ifs.newline rest = false ->
  Ifs.parseLinuxDefaultIfName
    ("default via " +++ gw +++ " dev " +++ rest +++ String Ifs.newline more)
  = (Strings.TrimSpace rest, None).
Proof.
  intros Hs Hn Hr. unfold Ifs.parseLinuxDefaultIfName.
  destruct (Split_first_line ("default via " +++ gw +++ " dev " +++ rest) more)
    as [tail E].
  { rewrite !has_append, Hn, Hr. reflexivity. }
  replace ("default via " +++ gw +++ " dev " +++ rest +++ String Ifs.newline more)
    with (("default via " +++ gw +++ " dev " +++ rest) +++ String Ifs.newline more).
  - rewrite E. cbn [Ifs.parseLinuxLines].
    rewrite (SplitN_default_line gw rest Hs). reflexivity.
  - rewrite !append_assoc. reflexivity.
Qed.

Lemma parseLinuxDefaultIfName_first_line_witness :
  Ifs.parseLinuxDefaultIfName Sample.routeAttrs = ("eth0 proto static", None).
Proof.
  apply (parseLinuxDefaultIfName_first_line "10.1.2.1" "eth0 proto static"
           "10.1.2.0/24 dev eth0  proto kernel  scope link  src 10.1.2.5");
    reflexivity.
Defined.

(** On a line that ends after the name the bare name is returned, and
    without a default line the error. *)
Example parseLinuxDefaultIfName_examples :
  Ifs.parseLinuxDefaultIfName Sample.routeBare = ("eth0", None) /\
  Ifs.parseLinuxDefaultIfName Sample.routeNone
  = ("", Some (Ifs.errorString "No default interface found")).
Proof. split; reflexivity. Qed.

(* ================================================================== *)
(** ** [ExcludeIfs] and [IncludeIfs] with the ["rfc"] selector *)

Lemma parseDigits_error (s : string) :
  forall n v e, Strings.parseDigits n s = (v, Some e) ->
                v = 0 \/ v = Strings.maxUint64.
Proof.
  induction s as [|c s IH]; intros n v e H; cbn [Strings.parseDigits] in H.
  - discriminate.
  - destruct ((48 <=? Strings.byte_of c) && (Strings.byte_of c <=? 57)).
    + destruct (n >=? Strings.maxUint64 / 10 + 1);
        [injection H as <- _; auto|].
      destruct (n * 10 + (Strings.byte_of c - 48) >? Strings.maxUint64);
        [injection H as <- _; auto|].
      eapply IH; eassumption.
    + injection H as <- _; auto.
Qed.

Lemma ParseUint_error (s : string) (v : Z) (e : Strings.NumError) :
  Strings.ParseUint s = (v, Some e) -> v = 0 \/ v = Strings.maxUint64.
Proof.
  destruct s as [|c s]; cbn [Strings.ParseUint].
  - intros H. injection H as <- _. auto.
  - apply parseDigits_error.
Qed.

Section Exclude.

Variable regexp_Compile : string -> option (string -> bool).
Variable rfcNetMap : Z -> option (list Sock.SockAddr).
Variable Contains : Sock.SockAddr -> Sock.SockAddr -> bool.

Hypothesis no_rfc_0 : rfcNetMap 0 = None.
Hypothesis no_rfc_max : rfcNetMap Strings.maxUint64 = None.

Lemma excludeRFCs_keeps (rfcs : list string) (inputIfAddrs acc : Sock.IfAddrs) :
  Ifs.excludeRFCs rfcNetMap Contains rfcs inputIfAddrs acc = acc.
Proof.
  induction rfcs as [|rfcStr rest IH]; [reflexivity|].
  cbn [Ifs.excludeRFCs].
  destruct (Strings.ParseUint rfcStr) as [rfc [e|]] eqn:P; [|exact IH].
  unfold Ifs.IfByRFC.
  destruct (ParseUint_error _ _ _ P) as [->| ->];
    [rewrite no_rfc_0 | rewrite no_rfc_max]; exact IH.
Qed.

End Exclude.

(** C2. [ExcludeIfs] with the selector ["rfc"] skips every identifier
    that parses and looks up only the value left by a failed parse, which
    the registry does not hold: the result is empty for every parameter
    and input, although the records outside the networks of the identifier
    should be returned ([IncludeIfs] does skip on a failed parse). *)
Theorem ExcludeIfs_rfc_is_empty
        (regexp_Compile : string -> option (string -> bool))
        (rfcNetMap : Z -> option (list Sock.SockAddr))
        (Contains : Sock.SockAddr -> Sock.SockAddr -> bool)
        (selectorName selectorParam : string) (inputIfAddrs : Sock.IfAddrs) :
  rfcNetMap 0 = None -> rfcNetMap Strings.maxUint64 = None ->
  Strings.ToLower selectorName = "rfc" ->
  Ifs.ExcludeIfs regexp_Compile rfcNetMap Contains
                 selectorName selectorParam inputIfAddrs = [].
Proof.
  intros H0 Hmax Hsel. unfold Ifs.ExcludeIfs. rewrite Hsel.
  cbn [String.eqb Ascii.eqb Bool.eqb].
  apply excludeRFCs_keeps; assumption.
Qed.

Lemma ExcludeIfs_rfc_is_empty_witness :
  Ifs.ExcludeIfs Sample.regexp_Compile Sample.rfcNetMap Sample.Contains
                 "rfc" "1918" [Sample.private1; Sample.public1] = [].
Proof.
  apply ExcludeIfs_rfc_is_empty; reflexivity.
Defined.

(** The sibling path: [IncludeIfs] keeps the member of RFC 1918. *)
Example IncludeIfs_rfc_1918 :
  Ifs.IncludeIfs Sample.regexp_Compile Sample.rfcNetMap Sample.Contains
                 "rfc" "1918" [Sample.private1; Sample.public1]
  = [Sample.private1].
Proof. reflexivity. Qed.

(* ================================================================== *)
(** ** The multi-key sort *)

Lemma lessBy_total (cmp : list Ifs.CmpIfAddrFunc) (p q : Sock.IfAddr) :
  cmp <> [] -> exists b, Ifs.lessBy cmp p q = Some b.
Proof.
  induction cmp as [|c rest IH]; intros H; [contradiction|].
  cbn [Ifs.lessBy]. destruct rest as [|c' rest'].
  - destruct (c p q =? -1); eauto.
  - destruct (c p q =? -1); [eauto|].
    destruct (c p q =? 1); [eauto|].
    apply IH. discriminate.
Qed.

Lemma lessBy_trailing (ks : list Ifs.CmpIfAddrFunc) (t : Ifs.CmpIfAddrFunc)
      (p q : Sock.IfAddr) :
  Ifs.lessBy (ks ++ [t]) p q =
  Some (match decided ks p q with
        | Some b => b
        | None => t p q =? -1
        end).
Proof.
  induction ks as [|c rest IH].
  - cbn. destruct (t p q =? -1); reflexivity.
  - cbn [app Ifs.lessBy decided].
    destruct (rest ++ [t]) as [|c' l] eqn:E.
    + destruct rest; discriminate.
    + destruct (c p q =? -1); [reflexivity|].
      destruct (c p q =? 1); [reflexivity|].
      exact IH.
Qed.

(** *** Positions in a slice *)

Lemma at_nat (s : Sock.IfAddrs) (n : nat) : Ifs.at_ s (Z.of_nat n) = nth_error s n.
Proof.
  unfold Ifs.at_. destruct (Z.ltb_spec (Z.of_nat n) 0); [lia|].
  rewrite Nat2Z.id. reflexivity.
Qed.

Lemma update_here (l1 r : Sock.IfAddrs) (x z : Sock.IfAddr) :
  Ifs.update (l1 ++ x :: r) (List.length l1) z = l1 ++ z :: r.
Proof. induction l1 as [|h l1 IH]; cbn; [reflexivity | rewrite IH; reflexivity]. Qed.

Lemma update_next (l1 r : Sock.IfAddrs) (x y z : Sock.IfAddr) :
  Ifs.update (l1 ++ x :: y :: r) (S (List.length l1)) z = l1 ++ x :: z :: r.
Proof. induction l1 as [|h l1 IH]; cbn; [reflexivity | rewrite IH; reflexivity]. Qed.

Lemma nth_error_here {A} (l1 r : list A) (x : A) :
  nth_error (l1 ++ x :: r) (List.length l1) = Some x.
Proof. induction l1 as [|h l1 IH]; cbn; auto. Qed.

Lemma nth_error_next {A} (l1 r : list A) (x y : A) :
  nth_error (l1 ++ x :: y :: r) (S (List.length l1)) = Some y.
Proof. induction l1 as [|h l1 IH]; cbn; auto. Qed.

Lemma split_adjacent {A} (k : nat) (t : list A) :
  (S k < List.length t)%nat ->
  exists l1 x y l2, t = l1 ++ x :: y :: l2 /\ List.length l1 = k.
Proof.
  revert t. induction k as [|k IH]; intros t H.
  - destruct t as [|x [|y l2]]; cbn in H; try lia.
    exists [], x, y, l2. auto.
  - destruct t as [|h t]; cbn in H; [lia|].
    destruct (IH t) as (l1 & x & y & l2 & -> & L); [lia|].
    exists (h :: l1), x, y, l2. cbn. auto.
Qed.

Lemma Less_adjacent (cmp : list Ifs.CmpIfAddrFunc) (k : nat)
      (l1 r : Sock.IfAddrs) (x y : Sock.IfAddr) (b : bool) :
  List.length l1 = k ->
  Ifs.lessBy cmp y x = Some b ->
  Ifs.ms_Less cmp (Z.of_nat (S k)) (Z.of_nat k) (l1 ++ x :: y :: r)
  = GoSort.Returns (b, l1 ++ x :: y :: r).
Proof.
  intros <- H. unfold Ifs.ms_Less.
  rewrite !at_nat, nth_error_next, nth_error_here, H. reflexivity.
Qed.

Lemma Swap_adjacent (k : nat) (l1 r : Sock.IfAddrs) (x y : Sock.IfAddr) :
  List.length l1 = k ->
  Ifs.ms_Swap (Z.of_nat (S k)) (Z.of_nat k) (l1 ++ x :: y :: r)
  = GoSort.Returns (tt, l1 ++ y :: x :: r).
Proof.
  intros <-. unfold Ifs.ms_Swap.
  rewrite !at_nat, nth_error_next, nth_error_here, !Nat2Z.id.
  rewrite update_next, update_here. reflexivity.
Qed.

(** *** Ordered pairs under an adjacent exchange *)

Lemma FOP_impl {A} (R R' : A -> A -> Prop) (l : list A) :
  (forall a b, R a b -> R' a b) -> ForallOrdPairs R l -> ForallOrdPairs R' l.
Proof.
  intros H. induction 1 as [|a l Ha Hl IH]; constructor; auto.
  eapply Forall_impl; [|exact Ha]. auto.
Qed.

Lemma FOP_exchange {A} (R : A -> A -> Prop) (l1 l2 : list A) (x y : A) :
  R y x ->
  ForallOrdPairs R (l1 ++ x :: y :: l2) ->
  ForallOrdPairs R (l1 ++ y :: x :: l2).
Proof.
  intros Hyx. induction l1 as [|h l1 IH]; cbn; intros H.
  - inversion H as [|? ? Hx Hrest]; subst.
    inversion Hrest as [|? ? Hy Hl2]; subst.
    inversion Hx; subst.
    repeat constructor; auto.
  - inversion H as [|? ? Hh Hrest]; subst.
    constructor; [|auto].
    rewrite Forall_app in *. destruct Hh as [H1 H2].
    split; [exact H1|].
    inversion H2 as [|? ? Hhx H3]; subst. inversion H3; subst.
    repeat constructor; auto.
Qed.

Lemma FOP_nth {A} (R : A -> A -> Prop) (l : list A) :
  ForallOrdPairs R l ->
  forall i j p q, (i < j)%nat ->
    nth_error l i = Some p -> nth_error l j = Some q -> R p q.
Proof.
  induction 1 as [|a l Ha Hl IH]; intros i j p q Hij Hi Hj.
  - destruct i; discriminate.
  - destruct j as [|j]; [lia|]. cbn in Hj.
    destruct i as [|i]; cbn in Hi.
    + injection Hi as <-. rewrite Forall_forall in Ha.
      apply Ha. eapply nth_error_In; eassumption.
    + apply (IH i j); auto; lia.
Qed.

Lemma tagged_from_increasing (a : nat) (xs : Sock.IfAddrs) :
  ForallOrdPairs (fun p q => (fst p < fst q)%nat)
                 (combine (seq a (List.length xs)) xs).
Proof.
  revert a. induction xs as [|x xs IH]; intros a; cbn; constructor; [|apply IH].
  apply Forall_forall. intros [n y] Hin. cbn.
  apply in_combine_l in Hin. apply in_seq in Hin. lia.
Qed.

Lemma map_snd_tagged_from (a : nat) (xs : Sock.IfAddrs) :
  map snd (combine (seq a (List.length xs)) xs) = xs.
Proof.
  revert a. induction xs as [|x xs IH]; intros a; cbn; [reflexivity|].
  rewrite IH. reflexivity.
Qed.

(** *** Slices of at most twelve records: insertion sort *)

Section SmallSort.

Variable cmp : list Ifs.CmpIfAddrFunc.
Hypothesis cmp_nonempty : cmp <> [].

Let data := Ifs.OrderedIfAddrBy cmp.
Let R := moved_only_when_less cmp.

Lemma insertDown_stable (k : nat) :
  forall t, (k < List.length t)%nat -> ForallOrdPairs R t ->
    exists t',
      GoSort.insertDown data 0 k (map snd t) = GoSort.Returns (tt, map snd t')
      /\ Permutation t t' /\ ForallOrdPairs R t'.
Proof.
  induction k as [|k IH]; intros t Hk Ht.
  - exists t. cbn. auto.
  - destruct (split_adjacent k t Hk) as (l1 & x & y & l2 & -> & L).
    destruct (lessBy_total cmp (snd y) (snd x) cmp_nonempty) as [b Hb].
    cbn [GoSort.insertDown]. rewrite Z.add_0_l.
    replace (Z.of_nat (S k) - 1) with (Z.of_nat k) by lia.
    rewrite map_app. cbn [map].
    assert (Lm : List.length (map snd l1) = k) by (rewrite length_map; exact L).
    unfold GoSort.bind at 1. cbn [GoSort.Less data Ifs.OrderedIfAddrBy].
    rewrite (Less_adjacent cmp k _ _ _ _ b Lm Hb).
    destruct b.
    + unfold GoSort.bind at 1. cbn [GoSort.Swap data Ifs.OrderedIfAddrBy].
      rewrite (Swap_adjacent k _ _ _ _ Lm).
      destruct (IH (l1 ++ y :: x :: l2)) as (t' & E & P & F).
      * rewrite length_app in *. cbn [List.length] in *. lia.
      * apply FOP_exchange; [|exact Ht]. intros _. exact Hb.
      * exists t'. rewrite map_app in E. cbn [map] in E.
        split; [exact E|]. split; [|exact F].
        eapply Permutation_trans; [|exact P].
        apply Permutation_app_head. constructor.
    + exists (l1 ++ x :: y :: l2).
      rewrite map_app. cbn [map]. auto.
Qed.

Lemma insertionLoop_stable (n : nat) :
  forall i t, (i + n <= List.length t)%nat -> ForallOrdPairs R t ->
    exists t',
      GoSort.insertionLoop data 0 (Z.of_nat i) n (map snd t)
      = GoSort.Returns (tt, map snd t')
      /\ Permutation t t' /\ ForallOrdPairs R t'.
Proof.
  induction n as [|n IH]; intros i t Hi Ht.
  - exists t. cbn. auto.
  - cbn [GoSort.insertionLoop].
    replace (Z.to_nat (Z.of_nat i - 0)) with i by lia.
    destruct (insertDown_stable i t) as (t1 & E1 & P1 & F1); [lia | exact Ht |].
    unfold GoSort.bind at 1. rewrite E1.
    replace (Z.of_nat i + 1) with (Z.of_nat (S i)) by lia.
    destruct (IH (S i) t1) as (t2 & E2 & P2 & F2).
    + rewrite <- (Permutation_length P1). lia.
    + exact F1.
    + exists t2. split; [exact E2|]. split; [|exact F2].
      eapply Permutation_trans; eassumption.
Qed.

(** Up to twelve records are sorted by insertion: the call returns, and
    a record overtakes another only when the keys put it strictly
    first. *)
Lemma SortBy_small (ifAddrs : Sock.IfAddrs) :
  (List.length ifAddrs <= 12)%nat ->
  exists t,
    Ifs.SortBy cmp ifAddrs = GoSort.Returns (map snd t)
    /\ Permutation (tagged ifAddrs) t
    /\ ForallOrdPairs R t.
Proof.
  intros Hlen.
  assert (F0 : ForallOrdPairs R (tagged ifAddrs)).
  { eapply FOP_impl; [|apply tagged_from_increasing].
    intros p q Hpq. unfold R, moved_only_when_less. intros Hqp.
    cbn beta in Hpq. lia. }
  assert (M0 : map snd (tagged ifAddrs) = ifAddrs) by apply map_snd_tagged_from.
  assert (L0 : List.length (tagged ifAddrs) = List.length ifAddrs).
  { rewrite <- M0 at 2. rewrite length_map. reflexivity. }
  unfold Ifs.SortBy, GoSort.Sort.
  unfold GoSort.bind at 1. cbn [GoSort.Len Ifs.OrderedIfAddrBy Ifs.ms_Len].
  destruct (Z.leb_spec (Z.of_nat (List.length ifAddrs)) 1) as [Hs|Hs].
  - exists (tagged ifAddrs). rewrite M0. cbn. auto.
  - destruct (Z.to_nat (Z.of_nat (List.length ifAddrs))) as [|fuel] eqn:Ef; [lia|].
    cbn [GoSort.pdqsort].
    rewrite Z.sub_0_r.
    destruct (Z.leb_spec (Z.of_nat (List.length ifAddrs)) 12) as [_|Hbig]; [|lia].
    unfold GoSort.insertionSort.
    destruct (insertionLoop_stable
                (Z.to_nat (Z.of_nat (List.length ifAddrs) - (0 + 1))) 1
                (tagged ifAddrs)) as (t & E & P & F); [lia | exact F0 |].
    exists t. rewrite M0 in E. fold data. cbn [Z.of_nat Pos.of_succ_nat] in E.
    change (0 + 1) with 1 at 1. rewrite E. auto.
Qed.

End SmallSort.

(** *** A slice without inversion: no exchange at any length *)

Section SortedInput.

Variable cmp : list Ifs.CmpIfAddrFunc.
Variable s : Sock.IfAddrs.
Hypothesis sorted : no_inversion cmp s.

Let data := Ifs.OrderedIfAddrBy cmp.
Let len := Z.of_nat (List.length s).

Lemma Less_sorted (i j : Z) :
  0 <= i < j -> j < len ->
  GoSort.Less data j i s = GoSort.Returns (false, s).
Proof.
  intros Hij Hj. cbn [GoSort.Less data Ifs.OrderedIfAddrBy].
  unfold Ifs.ms_Less, Ifs.at_.
  destruct (Z.ltb_spec j 0); [lia|]. destruct (Z.ltb_spec i 0); [lia|].
  destruct (nth_error s (Z.to_nat j)) as [q|] eqn:Ej;
    [|apply nth_error_None in Ej; unfold len in *; lia].
  destruct (nth_error s (Z.to_nat i)) as [p|] eqn:Ei;
    [|apply nth_error_None in Ei; unfold len in *; lia].
  rewrite (FOP_nth _ s sorted (Z.to_nat i) (Z.to_nat j) p q); auto. lia.
Qed.

Lemma insertDown_sorted (k : nat) :
  Z.of_nat k < len ->
  GoSort.insertDown data 0 k s = GoSort.Returns (tt, s).
Proof.
  intros Hk. destruct k as [|k]; [reflexivity|].
  cbn [GoSort.insertDown]. unfold GoSort.bind.
  rewrite Less_sorted by lia. reflexivity.
Qed.

Lemma insertionLoop_sorted (n : nat) :
  forall i, 0 <= i -> i + Z.of_nat n <= len ->
            GoSort.insertionLoop data 0 i n s = GoSort.Returns (tt, s).
Proof.
  induction n as [|n IH]; intros i Hi Hn; [reflexivity|].
  cbn [GoSort.insertionLoop]. unfold GoSort.bind at 1.
  rewrite insertDown_sorted by lia.
  apply IH; lia.
Qed.

Lemma order2_sorted (a b swaps : Z) :
  0 <= a < b -> b < len ->
  GoSort.order2 data a b swaps s = GoSort.Returns ((a, b, swaps), s).
Proof.
  intros Hab Hb. unfold GoSort.order2, GoSort.bind.
  rewrite Less_sorted by lia. reflexivity.
Qed.

Lemma median_sorted (a b c swaps : Z) :
  0 <= a < b -> b < c -> c < len ->
  GoSort.median data a b c swaps s = GoSort.Returns ((b, swaps), s).
Proof.
  intros Hab Hbc Hc. unfold GoSort.median.
  unfold GoSort.bind at 1. rewrite order2_sorted by lia.
  unfold GoSort.bind at 1. rewrite order2_sorted by lia.
  unfold GoSort.bind at 1. rewrite order2_sorted by lia.
  reflexivity.
Qed.

Lemma choosePivot_sorted :
  12 < len ->
  exists pivot,
    GoSort.choosePivot data 0 len s
    = GoSort.Returns ((pivot, GoSort.increasingHint), s).
Proof.
  intros Hlen. unfold GoSort.choosePivot.
  rewrite Z.sub_0_r.
  assert (Hq : 3 <= Z.quot len 4 /\ 4 * Z.quot len 4 <= len)
    by (Z.to_euclidean_division_equations; lia).
  set (q := Z.quot len 4) in *.
  destruct (Z.geb_spec len 8) as [_|]; [|lia].
  unfold GoSort.bind at 1.
  destruct (len >=? 50).
  - unfold GoSort.bind at 1. unfold GoSort.bind at 1.
    unfold GoSort.medianAdjacent.
    rewrite median_sorted by lia.
    unfold GoSort.bind at 1. rewrite median_sorted by lia.
    unfold GoSort.bind at 1. rewrite median_sorted by lia.
    cbn [GoSort.ret]. rewrite median_sorted by lia.
    cbn. unfold GoSort.ret. eauto.
  - unfold GoSort.bind at 1. cbn [GoSort.ret].
    rewrite median_sorted by lia.
    cbn. unfold GoSort.ret. eauto.
Qed.

Lemma scanSorted_sorted (n : nat) :
  forall i, 1 <= i -> i + Z.of_nat n = len ->
            GoSort.scanSorted data n i len s = GoSort.Returns (len, s).
Proof.
  induction n as [|n IH]; intros i Hi Hn; cbn [GoSort.scanSorted].
  - replace i with len by lia. reflexivity.
  - destruct (Z.ltb_spec i len); [|lia].
    unfold GoSort.bind. rewrite Less_sorted by lia.
    cbn [negb]. apply IH; lia.
Qed.

Lemma partialInsertionSort_sorted :
  1 <= len ->
  GoSort.partialInsertionSort data 0 len s = GoSort.Returns (true, s).
Proof.
  intros Hlen. unfold GoSort.partialInsertionSort.
  cbn [GoSort.partialInsertionLoop]. unfold GoSort.bind at 1.
  rewrite scanSorted_sorted by lia.
  rewrite Z.eqb_refl. reflexivity.
Qed.

Lemma Sort_sorted : GoSort.Sort data s = GoSort.Returns (tt, s).
Proof.
  unfold GoSort.Sort. unfold GoSort.bind at 1.
  cbn [GoSort.Len data Ifs.OrderedIfAddrBy Ifs.ms_Len]. fold len.
  destruct (Z.leb_spec len 1) as [|Hlen]; [reflexivity|].
  destruct (Z.to_nat len) as [|fuel] eqn:Ef; [lia|].
  cbn [GoSort.pdqsort]. rewrite Z.sub_0_r.
  destruct (Z.leb_spec len 12) as [Hs|Hb].
  - unfold GoSort.insertionSort. apply insertionLoop_sorted; lia.
  - assert (HL : (GoSort.bitsLen len =? 0) = false).
    { unfold GoSort.bitsLen. destruct (Z.leb_spec len 0); [lia|].
      pose proof (Z.log2_nonneg len). lia. }
    rewrite HL. cbn [negb].
    unfold GoSort.bind at 1. cbn [GoSort.ret].
    destruct choosePivot_sorted as [pivot Ep]; [lia|].
    unfold GoSort.bind at 1. rewrite Ep.
    cbn [GoSort.hintIs]. unfold GoSort.bind at 1. cbn [GoSort.ret].
    cbn [andb GoSort.hintIs]. unfold GoSort.bind at 1.
    rewrite partialInsertionSort_sorted by lia.
    reflexivity.
Qed.

End SortedInput.

Lemma SortBy_sorted (cmp : list Ifs.CmpIfAddrFunc) (ifAddrs : Sock.IfAddrs) :
  no_inversion cmp ifAddrs -> Ifs.SortBy cmp ifAddrs = GoSort.Returns ifAddrs.
Proof.
  intros H. unfold Ifs.SortBy. rewrite Sort_sorted by exact H. reflexivity.
Qed.

(** *** Relative order of two records *)









(* ================================================================== *)
(** * Further properties *)

(** ** [LimitIfAddrs] and [OffsetIfAddrs] *)

Lemma int64_small (z : Z) : - 2 ^ 63 <= z < 2 ^ 63 -> Slices.int64 z = z.
Proof.
  intros H. unfold Slices.int64.
  rewrite Z.mod_small by lia. lia.
Qed.

Lemma slice_from_0 (xs : Sock.IfAddrs) (hi : Z) :
  0 <= hi <= Z.of_nat (List.length xs) ->
  Slices.slice xs 0 hi = Some (firstn (Z.to_nat hi) xs).
Proof.
  intros H. unfold Slices.slice.
  destruct (Z.leb_spec 0 0); [|lia].
  destruct (Z.leb_spec 0 hi); [|lia].
  destruct (Z.leb_spec hi (Z.of_nat (List.length xs))); [|lia].
  cbn [andb]. rewrite Z.sub_0_r. reflexivity.
Qed.

Lemma slice_to_len (xs : Sock.IfAddrs) (lo : Z) :
  0 <= lo <= Z.of_nat (List.length xs) ->
  Slices.slice xs lo (Z.of_nat (List.length xs)) = Some (skipn (Z.to_nat lo) xs).
Proof.
  intros H. unfold Slices.slice.
  destruct (Z.leb_spec 0 lo); [|lia].
  destruct (Z.leb_spec lo (Z.of_nat (List.length xs))); [|lia].
  rewrite Z.leb_refl. cbn [andb].
  rewrite firstn_all2; [reflexivity|].
  rewrite length_skipn. lia.
Qed.

Lemma Limit_small (lim : Z) (xs : Sock.IfAddrs) :
  0 <= lim < 2 ^ 63 ->
  Slices.LimitIfAddrs lim xs = Some (firstn (Z.to_nat lim) xs).
Proof.
  intros Hs. unfold Slices.LimitIfAddrs. rewrite int64_small by lia.
  destruct (Z.gtb_spec lim (Z.of_nat (List.length xs))).
  - rewrite slice_from_0 by lia. rewrite Nat2Z.id.
    rewrite !firstn_all2 by lia. reflexivity.
  - apply slice_from_0. lia.
Qed.

Lemma Offset_nonneg (off : Z) (xs : Sock.IfAddrs) :
  0 <= off ->
  Slices.OffsetIfAddrs off xs
  = Some (if off >? Z.of_nat (List.length xs) then []
          else skipn (Z.to_nat off) xs).
Proof.
  intros Ho. unfold Slices.OffsetIfAddrs.
  destruct (Z.ltb_spec off 0); [lia|].
  destruct (Z.gtb_spec off (Z.of_nat (List.length xs))); [reflexivity|].
  apply slice_to_len. lia.
Qed.

Lemma Offset_negative (off : Z) (xs : Sock.IfAddrs) :
  - 2 ^ 63 < off < 0 ->
  Z.of_nat (List.length xs) < 2 ^ 63 ->
  Slices.OffsetIfAddrs off xs
  = Some (if - off >? Z.of_nat (List.length xs) then []
          else skipn (Z.to_nat (Z.of_nat (List.length xs) + off)) xs).
Proof.
  intros Ho Hfit. unfold Slices.OffsetIfAddrs.
  pose proof (Nat2Z.is_nonneg (List.length xs)) as Hn.
  destruct (Z.ltb_spec off 0); [|lia].
  rewrite (int64_small (off * -1)) by lia.
  replace (off * -1) with (- off) by lia.
  destruct (Z.gtb_spec (- off) (Z.of_nat (List.length xs))); [reflexivity|].
  rewrite int64_small by lia.
  replace (Z.of_nat (List.length xs) - - off)
    with (Z.of_nat (List.length xs) + off) by lia.
  apply slice_to_len. lia.
Qed.

(** X1. [LimitIfAddrs] with a limit below 2^63 returns the first [lim]
    records, all of them when the slice is shorter; a larger [uint]
    limit, negative as an [int], escapes the clamp and the slice
    expression panics. *)
Theorem LimitIfAddrs_prefix (lim : Z) (xs : Sock.IfAddrs) :
  0 <= lim < 2 ^ 64 ->
  (lim < 2 ^ 63 ->
   Slices.LimitIfAddrs lim xs = Some (firstn (Z.to_nat lim) xs) /\
   (Z.of_nat (List.length xs) <= lim -> Slices.LimitIfAddrs lim xs = Some xs)) /\
  (2 ^ 63 <= lim -> Z.of_nat (List.length xs) < 2 ^ 63 ->
   Slices.LimitIfAddrs lim xs = None).
Proof.
  intros Hl. split.
  - intros Hs. rewrite Limit_small by lia. split; [reflexivity|].
    intros Hlen. rewrite firstn_all2 by lia. reflexivity.
  - intros Hb Hfit. unfold Slices.LimitIfAddrs, Slices.int64.
    replace ((lim + 2 ^ 63) mod 2 ^ 64) with (lim - 2 ^ 63).
    + destruct (Z.gtb_spec (lim - 2 ^ 63 - 2 ^ 63) (Z.of_nat (List.length xs))); [lia|].
      unfold Slices.slice.
      destruct (Z.leb_spec lim (Z.of_nat (List.length xs))).
      * lia.
      * rewrite andb_false_r. reflexivity.
    + apply Z.mod_unique with (q := 1); lia.
Qed.

Lemma LimitIfAddrs_prefix_witness :
  Slices.LimitIfAddrs 1 [Sample.private1; Sample.public1] = Some [Sample.private1] /\
  Slices.LimitIfAddrs 10 [Sample.private1; Sample.public1]
  = Some [Sample.private1; Sample.public1] /\
  Slices.LimitIfAddrs (2 ^ 63) [Sample.private1; Sample.public1] = None.
Proof.
  split; [|split].
  - destruct (LimitIfAddrs_prefix 1 [Sample.private1; Sample.public1]) as [H _];
      [lia|].
    apply H. lia.
  - destruct (LimitIfAddrs_prefix 10 [Sample.private1; Sample.public1]) as [H _];
      [lia|].
    apply H; [lia | cbn; lia].
  - destruct (LimitIfAddrs_prefix (2 ^ 63) [Sample.private1; Sample.public1])
      as [_ H]; [lia|].
    apply H; [lia | cbn; lia].
Defined.

(** X2. [OffsetIfAddrs] with [0 <= off <= len] drops the first [off]
    records; with [-len <= off < 0] it keeps the last [-off] records; an
    offset beyond the length, of either sign, gives the empty slice and
    no panic, except the least [int]: its negation wraps to itself, the
    test against the length lets it through, and the slice expression
    panics. *)
Theorem OffsetIfAddrs_cases (off : Z) (xs : Sock.IfAddrs) :
  - 2 ^ 63 <= off < 2 ^ 63 ->
  Z.of_nat (List.length xs) < 2 ^ 63 ->
  (0 <= off <= Z.of_nat (List.length xs) ->
   Slices.OffsetIfAddrs off xs = Some (skipn (Z.to_nat off) xs)) /\
  (- Z.of_nat (List.length xs) <= off < 0 ->
   Slices.OffsetIfAddrs off xs
   = Some (skipn (Z.to_nat (Z.of_nat (List.length xs) + off)) xs) /\
   List.length (skipn (Z.to_nat (Z.of_nat (List.length xs) + off)) xs)
   = Z.to_nat (- off)) /\
  (Z.of_nat (List.length xs) < Z.abs off -> - 2 ^ 63 < off ->
   Slices.OffsetIfAddrs off xs = Some []) /\
  (off = - 2 ^ 63 -> Slices.OffsetIfAddrs off xs = None).
Proof.
  intros Ho Hfit.
  pose proof (Nat2Z.is_nonneg (List.length xs)) as Hn.
  split; [|split; [|split]].
  - intros H. rewrite Offset_nonneg by lia.
    destruct (Z.gtb_spec off (Z.of_nat (List.length xs))); [lia|reflexivity].
  - intros H. rewrite Offset_negative by lia.
    destruct (Z.gtb_spec (- off) (Z.of_nat (List.length xs))); [lia|].
    split; [reflexivity|]. rewrite length_skipn. lia.
  - intros H Hmin. destruct (Z.lt_ge_cases off 0) as [Neg|Pos].
    + rewrite Offset_negative by lia.
      destruct (Z.gtb_spec (- off) (Z.of_nat (List.length xs))); [reflexivity|lia].
    + rewrite Offset_nonneg by lia.
      destruct (Z.gtb_spec off (Z.of_nat (List.length xs))); [reflexivity|lia].
  - intros ->. unfold Slices.OffsetIfAddrs.
    change (- 2 ^ 63 <? 0) with true. cbv beta iota zeta.
    change (Slices.int64 (- 2 ^ 63 * -1)) with (- 2 ^ 63).
    destruct (Z.gtb_spec (- 2 ^ 63) (Z.of_nat (List.length xs))); [lia|].
    assert (E : Slices.int64 (Z.of_nat (List.length xs) - - 2 ^ 63)
                = Z.of_nat (List.length xs) - 2 ^ 63).
    { unfold Slices.int64.
      replace (Z.of_nat (List.length xs) - - 2 ^ 63 + 2 ^ 63)
        with (Z.of_nat (List.length xs) + 1 * 2 ^ 64) by lia.
      rewrite Z.mod_add by lia. rewrite Z.mod_small by lia. lia. }
    rewrite E. unfold Slices.slice.
    destruct (Z.leb_spec 0 (Z.of_nat (List.length xs) - 2 ^ 63)); [lia|].
    reflexivity.
Qed.

Lemma OffsetIfAddrs_cases_witness :
  Slices.OffsetIfAddrs 1 [Sample.private1; Sample.public1] = Some [Sample.public1] /\
  Slices.OffsetIfAddrs (-1) [Sample.private1; Sample.public1] = Some [Sample.public1] /\
  Slices.OffsetIfAddrs (-3) [Sample.private1; Sample.public1] = Some [] /\
  Slices.OffsetIfAddrs (- 2 ^ 63) [Sample.private1; Sample.public1] = None.
Proof.
  split; [|split; [|split]].
  - destruct (OffsetIfAddrs_cases 1 [Sample.private1; Sample.public1]) as (H & _);
      [lia | cbn; lia |].
    apply H. cbn. lia.
  - destruct (OffsetIfAddrs_cases (-1) [Sample.private1; Sample.public1])
      as (_ & H & _); [lia | cbn; lia |].
    apply H. cbn. lia.
  - destruct (OffsetIfAddrs_cases (-3) [Sample.private1; Sample.public1])
      as (_ & _ & H & _); [lia | cbn; lia |].
    apply H; [cbn; lia | lia].
  - destruct (OffsetIfAddrs_cases (- 2 ^ 63) [Sample.private1; Sample.public1])
      as (_ & _ & _ & H); [lia | cbn; lia |].
    apply H. reflexivity.
Defined.

(** X3. Limit and offset split a slice: for every [n] from 0 below 2^63,
    the records kept by [LimitIfAddrs n] followed by those kept by
    [OffsetIfAddrs n] are the input. *)
Theorem Limit_then_Offset (n : Z) (xs : Sock.IfAddrs) :
  0 <= n < 2 ^ 63 ->
  exists kept rest,
    Slices.LimitIfAddrs n xs = Some kept /\
    Slices.OffsetIfAddrs n xs = Some rest /\
    kept ++ rest = xs.
Proof.
  intros Hn.
  eexists. eexists.
  split; [apply Limit_small; lia|]. split; [apply Offset_nonneg; lia|].
  destruct (Z.gtb_spec n (Z.of_nat (List.length xs))).
  - rewrite firstn_all2 by lia. apply app_nil_r.
  - apply firstn_skipn.
Qed.

Lemma Limit_then_Offset_witness :
  exists kept rest,
    Slices.LimitIfAddrs 1 [Sample.private1; Sample.public1] = Some kept /\
    Slices.OffsetIfAddrs 1 [Sample.private1; Sample.public1] = Some rest /\
    kept ++ rest = [Sample.private1; Sample.public1].
Proof.
  apply Limit_then_Offset; lia.
Defined.

(** ** [ReverseIfAddrs] *)

Lemma swapAt_ends (pre mid post : Sock.IfAddrs) (x y : Sock.IfAddr) :
  Slices.swapAt (pre ++ x :: mid ++ y :: post)
                (Z.of_nat (List.length pre))
                (Z.of_nat (List.length pre + 1 + List.length mid))
  = Some (pre ++ y :: mid ++ x :: post).
Proof.
  unfold Slices.swapAt. rewrite !at_nat, !Nat2Z.id.
  rewrite nth_error_here.
  replace (pre ++ x :: mid ++ y :: post) with ((pre ++ x :: mid) ++ y :: post)
    by (rewrite <- app_assoc; reflexivity).
  replace (List.length pre + 1 + List.length mid)%nat
    with (List.length (pre ++ x :: mid))
    by (rewrite length_app; cbn; lia).
  rewrite nth_error_here.
  rewrite <- app_assoc. cbn [app].
  rewrite update_here.
  replace (pre ++ y :: mid ++ y :: post) with ((pre ++ y :: mid) ++ y :: post)
    by (rewrite <- app_assoc; reflexivity).
  replace (List.length (pre ++ x :: mid)) with (List.length (pre ++ y :: mid))
    by (rewrite !length_app; reflexivity).
  rewrite update_here, <- app_assoc. reflexivity.
Qed.

Lemma reverseFrom_ends (n : nat) :
  forall pre mid post : Sock.IfAddrs,
    List.length pre = n -> List.length post = n ->
    Slices.reverseFrom n (Z.of_nat n - 1) (pre ++ mid ++ post)
    = Some (rev post ++ mid ++ rev pre).
Proof.
  induction n as [|n IH]; intros pre mid post Hpre Hpost.
  - destruct pre, post; try discriminate. cbn. rewrite app_nil_r. reflexivity.
  - destruct (exists_last (l := pre)) as (pre' & x & ->);
      [intros ->; discriminate|].
    destruct post as [|y post']; [discriminate|].
    rewrite length_app in Hpre. cbn in Hpre, Hpost.
    cbn [Slices.reverseFrom].
    replace ((pre' ++ [x]) ++ mid ++ y :: post')
      with (pre' ++ x :: mid ++ y :: post')
      by (rewrite <- app_assoc; reflexivity).
    replace (Z.of_nat (S n) - 1) with (Z.of_nat (List.length pre')) by lia.
    replace (Z.of_nat (List.length (pre' ++ x :: mid ++ y :: post')) - 1
             - Z.of_nat (List.length pre'))
      with (Z.of_nat (List.length pre' + 1 + List.length mid)).
    + rewrite swapAt_ends.
      replace (Z.of_nat (List.length pre') - 1) with (Z.of_nat n - 1) by lia.
      replace (pre' ++ y :: mid ++ x :: post')
        with (pre' ++ (y :: mid ++ [x]) ++ post')
        by (cbn; rewrite <- app_assoc; reflexivity).
      rewrite IH by lia.
      rewrite rev_app_distr. cbn.
      rewrite <- !app_assoc. reflexivity.
    + rewrite !length_app. cbn [List.length]. rewrite length_app. cbn. lia.
Qed.

(** X4. [ReverseIfAddrs] never panics and returns the records in reverse
    order; reversing twice gives the input back. *)
Theorem ReverseIfAddrs_rev (xs : Sock.IfAddrs) :
  Slices.ReverseIfAddrs xs = Some (rev xs) /\
  (forall ys, Slices.ReverseIfAddrs xs = Some ys ->
              Slices.ReverseIfAddrs ys = Some xs).
Proof.
  assert (R : forall l : Sock.IfAddrs, Slices.ReverseIfAddrs l = Some (rev l)).
  { intros l. unfold Slices.ReverseIfAddrs.
    set (len := List.length l).
    assert (Hq : Z.quot (Z.of_nat len) 2 = Z.of_nat (len / 2)).
    { rewrite Z.quot_div_nonneg by lia. rewrite Nat2Z.inj_div. reflexivity. }
    rewrite Hq, Nat2Z.id.
    set (h := (len / 2)%nat).
    assert (Hh : (2 * h <= len)%nat).
    { unfold h. pose proof (Nat.div_mod_eq len 2). lia. }
    assert (Hm : (len - 2 * h <= 1)%nat).
    { unfold h. pose proof (Nat.div_mod_eq len 2).
      pose proof (Nat.mod_upper_bound len 2). lia. }
    rewrite <- (firstn_skipn h l) at 1.
    rewrite <- (firstn_skipn (len - 2 * h) (skipn h l)) at 1.
    rewrite reverseFrom_ends.
    - rewrite <- (firstn_skipn h l) at 4.
      rewrite <- (firstn_skipn (len - 2 * h) (skipn h l)) at 3.
      rewrite !rev_app_distr, <- app_assoc. f_equal. f_equal.
      remember (firstn (len - 2 * h) (skipn h l)) as mid eqn:Em.
      assert (Lm : (List.length mid <= 1)%nat).
      { subst mid. rewrite length_firstn. lia. }
      destruct mid as [|a [|b mid]]; cbn in Lm; try lia; reflexivity.
    - rewrite length_firstn. fold len. lia.
    - rewrite !length_skipn. fold len. lia. }
  split; [apply R|].
  intros ys E. rewrite R in E. injection E as <-.
  rewrite R, rev_involutive. reflexivity.
Qed.

(* ================================================================== *)
(** ** [IPv4Addr]: network arithmetic *)

Lemma testbit_above32 (m n : Z) :
  0 <= m < 2 ^ 32 -> 32 <= n -> Z.testbit m n = false.
Proof.
  intros Hm Hn.
  destruct (Z.eq_dec m 0) as [->|Hz]; [apply Z.bits_0|].
  apply Z.bits_above_log2; [lia|].
  assert (Z.log2 m < 32) by (apply Z.log2_lt_pow2; lia).
  lia.
Qed.

Lemma testbit_ones32 (n : Z) : 0 <= n -> Z.testbit 0xffffffff n = (n <? 32).
Proof.
  intros Hn. change 0xffffffff with (Z.ones 32).
  destruct (Z.ltb_spec n 32).
  - apply Z.ones_spec_low. lia.
  - apply Z.ones_spec_high. lia.
Qed.

(** The host bits [^uint32(mask)] of a 32-bit mask. *)
Lemma hostbits_sub (m : Z) :
  0 <= m < 2 ^ 32 -> Z.lxor m 0xffffffff = 0xffffffff - m.
Proof.
  intros Hm.
  rewrite Z.sub_nocarry_ldiff.
  - apply Z.bits_inj'. intros n Hn.
    rewrite Z.lxor_spec, Z.ldiff_spec, testbit_ones32 by lia.
    destruct (Z.ltb_spec n 32).
    + destruct (Z.testbit m n); reflexivity.
    + rewrite testbit_above32 by lia. reflexivity.
  - apply Z.bits_inj'. intros n Hn.
    rewrite Z.ldiff_spec, Z.bits_0, testbit_ones32 by lia.
    destruct (Z.ltb_spec n 32).
    + apply andb_false_r.
    + rewrite testbit_above32 by lia. reflexivity.
Qed.

Lemma land_hostbits_bound (a m : Z) :
  0 <= a -> 0 <= m < 2 ^ 32 ->
  0 <= Z.land a (Z.lxor m 0xffffffff) <= 0xffffffff - m.
Proof.
  intros Ha Hm. rewrite <- hostbits_sub by lia.
  apply Z.ldiff_le.
  - rewrite hostbits_sub; lia.
  - apply Z.bits_inj'. intros n Hn.
    rewrite Z.ldiff_spec, Z.land_spec, Z.bits_0.
    destruct (Z.testbit a n), (Z.testbit (Z.lxor m 0xffffffff) n); reflexivity.
Qed.

Lemma address_split (a m : Z) :
  0 <= a < 2 ^ 32 -> 0 <= m < 2 ^ 32 ->
  a = Z.land a m + Z.land a (Z.lxor m 0xffffffff).
Proof.
  intros Ha Hm.
  rewrite Z.add_nocarry_lxor.
  - apply Z.bits_inj'. intros n Hn.
    rewrite Z.lxor_spec, !Z.land_spec, Z.lxor_spec, testbit_ones32 by lia.
    destruct (Z.ltb_spec n 32).
    + destruct (Z.testbit a n), (Z.testbit m n); reflexivity.
    + rewrite (testbit_above32 a), (testbit_above32 m) by lia. reflexivity.
  - apply Z.bits_inj'. intros n Hn.
    rewrite !Z.land_spec, Z.lxor_spec, Z.bits_0, testbit_ones32 by lia.
    destruct (Z.ltb_spec n 32).
    + destruct (Z.testbit a n), (Z.testbit m n); reflexivity.
    + rewrite (testbit_above32 a) by lia. reflexivity.
Qed.

Lemma broadcast_sum (a m : Z) :
  0 <= m < 2 ^ 32 ->
  Z.lor (Z.land a m) (Z.lxor m 0xffffffff) = Z.land a m + (0xffffffff - m).
Proof.
  intros Hm. rewrite <- hostbits_sub by lia.
  rewrite Z.add_nocarry_lxor.
  - apply Z.bits_inj'. intros n Hn.
    rewrite Z.lor_spec, !Z.lxor_spec, Z.land_spec, testbit_ones32 by lia.
    destruct (Z.ltb_spec n 32).
    + destruct (Z.testbit a n), (Z.testbit m n); reflexivity.
    + rewrite (testbit_above32 m) by lia.
      destruct (Z.testbit a n); reflexivity.
  - apply Z.bits_inj'. intros n Hn.
    rewrite !Z.land_spec, Z.lxor_spec, Z.bits_0, testbit_ones32 by lia.
    destruct (Z.ltb_spec n 32).
    + destruct (Z.testbit a n), (Z.testbit m n); reflexivity.
    + rewrite (testbit_above32 m) by lia.
      destruct (Z.testbit a n); reflexivity.
Qed.

Lemma land_range32 (a m : Z) :
  0 <= a < 2 ^ 32 -> 0 <= m -> 0 <= Z.land a m <= a.
Proof.
  intros Ha Hm. split.
  - apply Z.land_nonneg. lia.
  - apply Z.ldiff_le; [lia|].
    apply Z.bits_inj'. intros n Hn.
    rewrite Z.ldiff_spec, Z.land_spec, Z.bits_0.
    destruct (Z.testbit a n), (Z.testbit m n); reflexivity.
Qed.

Lemma network_broadcast_facts (ipv4 : IPv4.IPv4Addr) :
  IPv4.wf ipv4 ->
  Z.land (IPv4.NetworkAddress ipv4) (Z.lxor (IPv4.Mask ipv4) 0xffffffff) = 0 /\
  IPv4.BroadcastAddress ipv4
  = IPv4.NetworkAddress ipv4 + (0xffffffff - IPv4.Mask ipv4) /\
  IPv4.NetworkAddress ipv4 <= IPv4.Address ipv4 <= IPv4.BroadcastAddress ipv4 /\
  0 <= IPv4.NetworkAddress ipv4 /\ IPv4.BroadcastAddress ipv4 < 2 ^ 32.
Proof.
  intros (Ha & Hm & _).
  unfold IPv4.NetworkAddress, IPv4.BroadcastAddress.
  rewrite broadcast_sum by exact Hm.
  pose proof (address_split _ _ Ha Hm) as Hs.
  pose proof (land_hostbits_bound (IPv4.Address ipv4) (IPv4.Mask ipv4)) as Hb.
  pose proof (land_range32 (IPv4.Address ipv4) (IPv4.Mask ipv4) Ha) as Hr.
  assert (Hn : Z.land (IPv4.Address ipv4) (IPv4.Mask ipv4) <= IPv4.Mask ipv4).
  { rewrite Z.land_comm. apply land_range32; lia. }
  split; [|repeat split; lia].
  apply Z.bits_inj'. intros n Hn'.
  rewrite !Z.land_spec, Z.lxor_spec, Z.bits_0, testbit_ones32 by lia.
  destruct (Z.ltb_spec n 32).
  - destruct (Z.testbit (IPv4.Address ipv4) n), (Z.testbit (IPv4.Mask ipv4) n);
      reflexivity.
  - rewrite (testbit_above32 (IPv4.Mask ipv4)) by lia. apply andb_false_r.
Qed.

(** X5. For a 32-bit address and mask the network address has no host
    bit, the broadcast address is the network address plus the host bits
    of the mask, the address lies between the two, and both stay within
    32 bits. *)
Theorem network_and_broadcast (ipv4 : IPv4.IPv4Addr) :
  IPv4.wf ipv4 ->
  Z.land (IPv4.NetworkAddress ipv4) (Z.lxor (IPv4.Mask ipv4) 0xffffffff) = 0 /\
  IPv4.BroadcastAddress ipv4
  = IPv4.NetworkAddress ipv4 + (0xffffffff - IPv4.Mask ipv4) /\
  IPv4.NetworkAddress ipv4 <= IPv4.Address ipv4 <= IPv4.BroadcastAddress ipv4 /\
  0 <= IPv4.NetworkAddress ipv4 /\ IPv4.BroadcastAddress ipv4 < 2 ^ 32.
Proof. exact (network_broadcast_facts ipv4). Qed.

Lemma network_and_broadcast_witness :
  IPv4.BroadcastAddress Ex.a24 = IPv4.NetworkAddress Ex.a24 + 255 /\
  IPv4.NetworkAddress Ex.a24 <= IPv4.Address Ex.a24 <= IPv4.BroadcastAddress Ex.a24.
Proof.
  assert (W : IPv4.wf Ex.a24) by wf_auto.
  destruct (network_and_broadcast Ex.a24 W) as (_ & H2 & H3 & _).
  split; [exact H2 | exact H3].
Defined.

(* ================================================================== *)
(** ** [IPv4Addr]: masks, usable addresses and octets *)

Lemma cidr_mask_length (n : Z) :
  0 <= n <= 32 ->
  Go.simpleMaskLength (Go.PutUint32 (2 ^ 32 - 2 ^ (32 - n))) = n.
Proof.
  intros Hn.
  pose (P := fun n =>
    (32 <? n) || (Go.simpleMaskLength (Go.PutUint32 (2 ^ 32 - 2 ^ (32 - n))) =? n)).
  assert (HP : P n = true) by (apply byte_cases; [vm_compute; reflexivity | lia]).
  unfold P in HP. apply orb_true_iff in HP. destruct HP as [HP|HP]; lia.
Qed.

Lemma Maskbits_range (ipv4 : IPv4.IPv4Addr) : 0 <= IPv4.Maskbits ipv4 <= 32.
Proof.
  rewrite Maskbits_unfold. unfold Go.simpleMaskLength.
  destruct (Z.eqb_spec (Go.simpleMaskLength_from 0 (Go.PutUint32 (IPv4.Mask ipv4))) (-1))
    as [E|E]; [lia|].
  pose proof (sml_lower (Go.PutUint32 (IPv4.Mask ipv4)) 0).
  destruct (sml_upper (Go.PutUint32 (IPv4.Mask ipv4)) 0) as [U|U]; [|lia].
  rewrite PutUint32_length in U. lia.
Qed.

(** X6. [Maskbits()] lies between 0 and 32.  The mask with [n] leading
    ones has [Maskbits() = n], and a 32-bit mask with [Maskbits() >= 1]
    is that mask; its network then spans [2^(32-n)] addresses from the
    network address to the broadcast address. *)
Theorem Maskbits_and_cidr_mask (ipv4 : IPv4.IPv4Addr) (n : Z) :
  IPv4.wf ipv4 ->
  0 <= IPv4.Maskbits ipv4 <= 32 /\
  (0 <= n <= 32 -> IPv4.Mask ipv4 = 2 ^ 32 - 2 ^ (32 - n) ->
   IPv4.Maskbits ipv4 = n) /\
  (1 <= IPv4.Maskbits ipv4 ->
   IPv4.Mask ipv4 = 2 ^ 32 - 2 ^ (32 - IPv4.Maskbits ipv4) /\
   IPv4.BroadcastAddress ipv4 - IPv4.NetworkAddress ipv4 + 1
   = 2 ^ (32 - IPv4.Maskbits ipv4)).
Proof.
  intros W. pose proof (Maskbits_range ipv4) as R.
  split; [exact R|]. split.
  - intros Hn E. rewrite Maskbits_unfold, E, cidr_mask_length by lia.
    destruct (Z.eqb_spec n (-1)); lia.
  - intros H1.
    assert (Hpow : 0 < 2 ^ (32 - IPv4.Maskbits ipv4) <= 2 ^ 31).
    { split; [apply Z.pow_pos_nonneg; lia|].
      apply Z.pow_le_mono_r; lia. }
    assert (M : IPv4.Mask ipv4 = 2 ^ 32 - 2 ^ (32 - IPv4.Maskbits ipv4)).
    { destruct W as (_ & Hm & _).
      apply Maskbits_determines_mask; rewrite ?cidr_mask_length by lia;
        lia. }
    split; [exact M|].
    destruct (network_broadcast_facts ipv4 W) as (_ & B & _).
    rewrite B. rewrite M at 1. change (2 ^ 32) with 4294967296. lia.
Qed.

Lemma Maskbits_and_cidr_mask_witness :
  IPv4.Maskbits Ex.a24 = 24 /\
  IPv4.BroadcastAddress Ex.a24 - IPv4.NetworkAddress Ex.a24 + 1 = 2 ^ 8.
Proof.
  assert (W : IPv4.wf Ex.a24) by wf_auto.
  destruct (Maskbits_and_cidr_mask Ex.a24 24 W) as (_ & H2 & H3).
  split.
  - apply H2; [lia | reflexivity].
  - destruct H3 as [_ H3]; [vm_compute; discriminate|]. exact H3.
Defined.

(** X7. With [Maskbits() < 31] the first usable address is the network
    address plus one and the last usable address the broadcast address
    minus one, without wrap-around, and the first is not above the
    last. *)
Theorem usable_range (ipv4 : IPv4.IPv4Addr) :
  IPv4.wf ipv4 ->
  IPv4.Maskbits ipv4 < 31 ->
  IPv4.Address (IPv4.FirstUsable ipv4) = IPv4.NetworkAddress ipv4 + 1 /\
  IPv4.Address (IPv4.LastUsable ipv4) = IPv4.BroadcastAddress ipv4 - 1 /\
  IPv4.Address (IPv4.FirstUsable ipv4) <= IPv4.Address (IPv4.LastUsable ipv4).
Proof.
  intros W Hb.
  destruct (network_broadcast_facts ipv4 W) as (_ & B & _ & N0 & B32).
  destruct W as (Ha & Hm & _).
  assert (M : IPv4.Mask ipv4 <= 0xffffffff - 2).
  { destruct (Z.eq_dec (IPv4.Mask ipv4) 0xffffffff) as [E|E].
    - unfold IPv4.Maskbits in Hb. rewrite E in Hb. vm_compute in Hb. discriminate.
    - destruct (Z.eq_dec (IPv4.Mask ipv4) 0xfffffffe) as [E'|E'].
      + unfold IPv4.Maskbits in Hb. rewrite E' in Hb. vm_compute in Hb.
        discriminate.
      + change (2 ^ 32) with 4294967296 in Hm. lia. }
  unfold IPv4.FirstUsable, IPv4.LastUsable.
  destruct (Z.ltb_spec (IPv4.Maskbits ipv4) 31); [|lia].
  cbn [IPv4.Address]. unfold IPv4.uint32.
  change (2 ^ 32) with 4294967296 in *.
  rewrite !Z.mod_small by lia. lia.
Qed.

Lemma usable_range_witness :
  IPv4.Address (IPv4.FirstUsable Ex.a24) = IPv4.NetworkAddress Ex.a24 + 1 /\
  IPv4.Address (IPv4.LastUsable Ex.a24) = IPv4.BroadcastAddress Ex.a24 - 1.
Proof.
  assert (W : IPv4.wf Ex.a24) by wf_auto.
  destruct (usable_range Ex.a24 W) as (H1 & H2 & _); [vm_compute; reflexivity|].
  split; [exact H1 | exact H2].
Defined.

(** X8. [Octets()] of a 32-bit address are the four bytes of [NetIP()],
    each between 0 and 255, and they recompose to the address. *)
Theorem Octets_bytes (ipv4 : IPv4.IPv4Addr) :
  IPv4.wf ipv4 ->
  IPv4More.Octets ipv4 = IPv4.NetIP ipv4 /\
  Forall is_byte (IPv4More.Octets ipv4) /\
  (forall o0 o1 o2 o3,
     IPv4More.Octets ipv4 = [o0; o1; o2; o3] ->
     IPv4.Address ipv4 = o0 * 2 ^ 24 + o1 * 2 ^ 16 + o2 * 2 ^ 8 + o3).
Proof.
  intros (Ha & _ & _).
  assert (E : IPv4More.Octets ipv4 = IPv4.NetIP ipv4).
  { unfold IPv4More.Octets, IPv4.NetIP, Go.PutUint32.
    change 0xff with (Z.ones 8). rewrite !Z.land_ones by lia.
    change (2 ^ 8) with 256.
    f_equal. rewrite Z.shiftr_div_pow2 by lia.
    change (2 ^ 24) with 16777216. change (2 ^ 32) with 4294967296 in Ha.
    symmetry. apply Z.mod_small. Z.div_mod_to_equations. lia. }
  split; [exact E|]. split; [rewrite E; apply PutUint32_bytes|].
  intros o0 o1 o2 o3 H. rewrite E in H.
  unfold IPv4.NetIP, Go.PutUint32 in H.
  rewrite !Z.shiftr_div_pow2 in H by lia.
  injection H as <- <- <- <-.
  change (2 ^ 24) with 16777216. change (2 ^ 16) with 65536.
  change (2 ^ 8) with 256. change (2 ^ 32) with 4294967296 in Ha.
  Z.div_mod_to_equations. lia.
Qed.

Lemma Octets_bytes_witness :
  IPv4More.Octets Ex.host0 = IPv4.NetIP Ex.host0 /\
  IPv4.Address Ex.host0 = 1 * 2 ^ 24 + 2 * 2 ^ 16 + 3 * 2 ^ 8 + 4.
Proof.
  assert (W : IPv4.wf Ex.host0) by wf_auto.
  destruct (Octets_bytes Ex.host0 W) as (H1 & _ & H3).
  split; [exact H1|]. apply H3. reflexivity.
Defined.

(** X9. Between 32-bit addresses [Equal] holds exactly for the same
    address, mask and port. *)
Theorem Equal_iff_same (ipv4 ipv4b : IPv4.IPv4Addr) :
  IPv4.wf ipv4 -> IPv4.wf ipv4b ->
  (Sock.Equal ipv4 (Sock.SockIPv4 ipv4b) = true <-> ipv4 = ipv4b).
Proof.
  intros W1 W2. unfold Sock.Equal. cbn [Sock.Type_].
  rewrite Z.eqb_refl. cbn [negb]. split.
  - destruct (Z.eqb_spec (IPv4.Port ipv4) (IPv4.Port ipv4b)) as [P|P];
      [|discriminate].
    destruct (Z.eqb_spec (IPv4.Address ipv4) (IPv4.Address ipv4b)) as [A|A];
      [|discriminate].
    destruct (String.eqb_spec (IPv4.NetIPNet_String ipv4)
                              (IPv4.NetIPNet_String ipv4b)) as [S|S];
      [|discriminate].
    intros _. apply NetIPNet_String_mask in S; [|apply W1|apply W2].
    destruct ipv4, ipv4b. cbn in *. f_equal; assumption.
  - intros <-. rewrite !Z.eqb_refl, String.eqb_refl. reflexivity.
Qed.

Lemma Equal_iff_same_witness :
  Sock.Equal Ex.a24 (Sock.SockIPv4 Ex.a24) = true.
Proof.
  assert (W : IPv4.wf Ex.a24) by wf_auto.
  apply (Equal_iff_same Ex.a24 Ex.a24 W W). reflexivity.
Defined.

(* ================================================================== *)
(** ** [IPv4Addr]: what the string form tells apart *)






(* ================================================================== *)
(** ** [IncludeIfs] and [ExcludeIfs]: the selectors other than ["rfc"] *)

Lemma filter_split_perm {A} (f : A -> bool) (l : list A) :
  Permutation (filter f l ++ filter (fun x => negb (f x)) l) l.
Proof.
  induction l as [|x l IH]; cbn; [constructor|].
  destruct (f x); cbn.
  - constructor. exact IH.
  - apply Permutation_sym, Permutation_cons_app, Permutation_sym, IH.
Qed.

Lemma sift_as_filter (test : Sock.SockAddr -> option bool) (l : Sock.IfAddrs) :
  forall m e,
    Ifs.sift test l m e =
    (m ++ filter (fun a => is_some_true (test (Sock.Addr a))) l,
     e ++ filter (fun a => is_some_false (test (Sock.Addr a))) l).
Proof.
  induction l as [|x l IH]; intros m e; cbn [Ifs.sift filter].
  - rewrite !app_nil_r. reflexivity.
  - destruct (test (Sock.Addr x)) as [[|]|]; cbn [is_some_true is_some_false];
      rewrite IH, <- ?app_assoc; reflexivity.
Qed.

Lemma isIP_cases (a : Sock.IfAddr) :
  isIP a = match Sock.Addr a with Sock.SockUnix _ => false | _ => true end.
Proof. unfold isIP. destruct (Sock.Addr a); reflexivity. Qed.

Lemma filter_filter {A} (f g : A -> bool) (l : list A) :
  filter f (filter g l) = filter (fun x => g x && f x) l.
Proof.
  induction l as [|x l IH]; cbn; [reflexivity|].
  destruct (g x); cbn; [destruct (f x)|]; rewrite IH; reflexivity.
Qed.

Lemma filter_ext_eq {A} (f g : A -> bool) (l : list A) :
  (forall x, f x = g x) -> filter f l = filter g l.
Proof. intros H. apply filter_ext. exact H. Qed.

(** The pair returned through [FilterIfByType(_, TypeIP)] and the
    [sift] loop of [IfByPort] and [IfByMaskSize]. *)
Lemma sift_IP (test : Sock.SockAddr -> option bool) (xs : Sock.IfAddrs) :
  (forall a, isIP a = true -> test (Sock.Addr a) <> None) ->
  (let '(ipIfs, nonIfs) := Ifs.FilterIfByType xs Sock.TypeIP in
   Ifs.sift test ipIfs [] nonIfs)
  = (filter (fun a => isIP a && is_some_true (test (Sock.Addr a))) xs,
     filter (fun a => negb (isIP a)) xs
     ++ filter (fun a => isIP a && is_some_false (test (Sock.Addr a))) xs).
Proof.
  intros H. unfold Ifs.FilterIfByType. rewrite partition_as_filter.
  rewrite sift_as_filter. cbn [app].
  fold isIP. rewrite !filter_filter. reflexivity.
Qed.

Section Selectors.

Variable regexp_Compile : string -> option (string -> bool).
Variable rfcNetMap : Z -> option (list Sock.SockAddr).
Variable Contains : Sock.SockAddr -> Sock.SockAddr -> bool.

Let Include := Ifs.IncludeIfs regexp_Compile rfcNetMap Contains.
Let Exclude := Ifs.ExcludeIfs regexp_Compile rfcNetMap Contains.

Lemma by_regexp_selectors (sel p : string) (re : string -> bool)
      (xs : Sock.IfAddrs) :
  regexp_Compile p = Some re ->
  (Strings.ToLower sel = "address" ->
   Include sel p xs = filter (fun a => re (Sock.SockAddr_String (Sock.Addr a))) xs /\
   Exclude sel p xs
   = filter (fun a => negb (re (Sock.SockAddr_String (Sock.Addr a)))) xs) /\
  (Strings.ToLower sel = "name" ->
   Include sel p xs = filter (fun a => re (Sock.IfName a)) xs /\
   Exclude sel p xs = filter (fun a => negb (re (Sock.IfName a))) xs) /\
  (Strings.ToLower sel = "type" ->
   Include sel p xs = filter (fun a => re (Sock.TypeName (Sock.Addr a))) xs /\
   Exclude sel p xs = filter (fun a => negb (re (Sock.TypeName (Sock.Addr a)))) xs).
Proof.
  intros C. unfold Include, Exclude, Ifs.IncludeIfs, Ifs.ExcludeIfs.
  split; [|split]; intros E; rewrite !E; cbn [String.eqb Ascii.eqb Bool.eqb];
    unfold Ifs.IfByAddress, Ifs.IfByName, Ifs.IfByType;
    rewrite C, partition_as_filter; split; reflexivity.
Qed.

Lemma by_port_selector (sel p : string) (re : string -> bool)
      (xs : Sock.IfAddrs) :
  regexp_Compile p = Some re ->
  Strings.ToLower sel = "port" ->
  Include sel p xs = filter (fun a => isIP a && port_matches re a) xs /\
  Exclude sel p xs
  = filter (fun a => negb (isIP a)) xs
    ++ filter (fun a => isIP a && negb (port_matches re a)) xs.
Proof.
  intros C E. unfold Include, Exclude, Ifs.IncludeIfs, Ifs.ExcludeIfs.
  rewrite !E. cbn [String.eqb Ascii.eqb Bool.eqb]. unfold Ifs.IfByPort. rewrite C.
  pose proof (sift_IP (fun sa => option_map (fun p => re (Go.itoa p))
                                            (Sock.IPPortOf sa)) xs) as S.
  destruct (Ifs.FilterIfByType xs Sock.TypeIP) as [ipIfs nonIfs].
  rewrite S.
  - split; [|f_equal]; apply filter_ext_eq; intros a; rewrite isIP_cases;
      unfold port_matches; destruct (Sock.Addr a); cbn;
      try reflexivity; destruct (re _); reflexivity.
  - intros a. rewrite isIP_cases. destruct (Sock.Addr a); cbn; congruence.
Qed.

Lemma by_size_selector (sel p : string) (n : Z) (xs : Sock.IfAddrs) :
  Strings.ParseUint p = (n, None) ->
  Strings.ToLower sel = "size" ->
  Include sel p xs = filter (fun a => isIP a && size_matches n a) xs /\
  Exclude sel p xs
  = filter (fun a => negb (isIP a)) xs
    ++ filter (fun a => isIP a && negb (size_matches n a)) xs.
Proof.
  intros C E. unfold Include, Exclude, Ifs.IncludeIfs, Ifs.ExcludeIfs.
  rewrite !E. cbn [String.eqb Ascii.eqb Bool.eqb]. rewrite C. unfold Ifs.IfByMaskSize.
  pose proof (sift_IP (fun sa => option_map (fun bits => bits =? n)
                                            (Sock.MaskbitsOf sa)) xs) as S.
  destruct (Ifs.FilterIfByType xs Sock.TypeIP) as [ipIfs nonIfs].
  rewrite S.
  - split; [|f_equal]; apply filter_ext_eq; intros a; rewrite isIP_cases;
      unfold size_matches; destruct (Sock.Addr a); cbn;
      try reflexivity; destruct (_ =? n); reflexivity.
  - intros a. rewrite isIP_cases. destruct (Sock.Addr a); cbn; congruence.
Qed.

End Selectors.

Lemma three_way_perm {A} (f g : A -> bool) (l : list A) :
  Permutation
    (filter (fun x => f x && g x) l
     ++ filter (fun x => negb (f x)) l
     ++ filter (fun x => f x && negb (g x)) l) l.
Proof.
  induction l as [|x l IH]; cbn; [constructor|].
  destruct (f x), (g x); cbn.
  - constructor. exact IH.
  - rewrite app_assoc. apply Permutation_sym, Permutation_cons_app.
    rewrite <- app_assoc. apply Permutation_sym, IH.
  - apply Permutation_sym, Permutation_cons_app, Permutation_sym, IH.
  - apply Permutation_sym, Permutation_cons_app, Permutation_sym, IH.
Qed.

(** X11. For the selectors ["address"], ["name"], ["port"] and ["type"]
    with a pattern that compiles, and for ["size"] with a parameter that
    parses, [IncludeIfs] and [ExcludeIfs] split the input: together they
    return every record exactly once.  With a pattern that does not
    compile both return the empty slice. *)
Theorem include_exclude_complement
        (regexp_Compile : string -> option (string -> bool))
        (rfcNetMap : Z -> option (list Sock.SockAddr))
        (Contains : Sock.SockAddr -> Sock.SockAddr -> bool)
        (sel p : string) (xs : Sock.IfAddrs) :
  Strings.ToLower sel = "address" \/ Strings.ToLower sel = "name" \/
  Strings.ToLower sel = "port" \/ Strings.ToLower sel = "type" \/
  (Strings.ToLower sel = "size" /\ snd (Strings.ParseUint p) = None) ->
  (regexp_Compile p <> None \/ Strings.ToLower sel = "size" ->
   Permutation
     (Ifs.IncludeIfs regexp_Compile rfcNetMap Contains sel p xs
      ++ Ifs.ExcludeIfs regexp_Compile rfcNetMap Contains sel p xs) xs) /\
  (regexp_Compile p = None -> Strings.ToLower sel <> "size" ->
   Ifs.IncludeIfs regexp_Compile rfcNetMap Contains sel p xs = [] /\
   Ifs.ExcludeIfs regexp_Compile rfcNetMap Contains sel p xs = []).
Proof.
  intros Hsel. split.
  - intros Hok.
    destruct Hsel as [E|[E|[E|[E|[E Hp]]]]].
    + destruct (regexp_Compile p) as [re|] eqn:C;
        [|destruct Hok as [?|Hok]; [congruence | rewrite Hok in E; discriminate]].
      destruct (by_regexp_selectors regexp_Compile rfcNetMap Contains sel p re xs C)
        as (H & _ & _).
      destruct (H E) as [-> ->]. apply filter_split_perm.
    + destruct (regexp_Compile p) as [re|] eqn:C;
        [|destruct Hok as [?|Hok]; [congruence | rewrite Hok in E; discriminate]].
      destruct (by_regexp_selectors regexp_Compile rfcNetMap Contains sel p re xs C)
        as (_ & H & _).
      destruct (H E) as [-> ->]. apply filter_split_perm.
    + destruct (regexp_Compile p) as [re|] eqn:C;
        [|destruct Hok as [?|Hok]; [congruence | rewrite Hok in E; discriminate]].
      destruct (by_port_selector regexp_Compile rfcNetMap Contains sel p re xs C E)
        as [-> ->].
      apply three_way_perm.
    + destruct (regexp_Compile p) as [re|] eqn:C;
        [|destruct Hok as [?|Hok]; [congruence | rewrite Hok in E; discriminate]].
      destruct (by_regexp_selectors regexp_Compile rfcNetMap Contains sel p re xs C)
        as (_ & _ & H).
      destruct (H E) as [-> ->]. apply filter_split_perm.
    + destruct (Strings.ParseUint p) as [n e] eqn:P. cbn in Hp. subst e.
      destruct (by_size_selector regexp_Compile rfcNetMap Contains sel p n xs P E)
        as [-> ->].
      apply three_way_perm.
  - intros C Hns. unfold Ifs.IncludeIfs, Ifs.ExcludeIfs.
    unfold Ifs.IfByAddress, Ifs.IfByName, Ifs.IfByPort, Ifs.IfByType.
    rewrite C.
    destruct Hsel as [E|[E|[E|[E|[E Hp]]]]]; try contradiction;
      rewrite !E; split; reflexivity.
Qed.

Lemma include_exclude_complement_witness :
  Permutation
    (Ifs.IncludeIfs Sample.regexp_Compile Sample.rfcNetMap Sample.Contains
                    "size" "24" [Sample.private1; Sample.public1]
     ++ Ifs.ExcludeIfs Sample.regexp_Compile Sample.rfcNetMap Sample.Contains
                       "size" "24" [Sample.private1; Sample.public1])
    [Sample.private1; Sample.public1] /\
  Ifs.IncludeIfs Sample.regexp_Compile Sample.rfcNetMap Sample.Contains
                 "name" "eth" [Sample.private1; Sample.public1] = [].
Proof.
  split.
  - apply include_exclude_complement.
    + right. right. right. right. split; reflexivity.
    + right. reflexivity.
  - apply (include_exclude_complement Sample.regexp_Compile Sample.rfcNetMap
             Sample.Contains "name" "eth" [Sample.private1; Sample.public1]).
    + right. left. reflexivity.
    + reflexivity.
    + discriminate.
Defined.

(** X12. With the selectors ["port"] and ["size"] a record whose address
    is not an IP address is never included and always excluded, and the
    excluded slice lists those records first, ahead of the IP records
    that do not match, whatever their place in the input. *)
Theorem port_and_size_selectors
        (regexp_Compile : string -> option (string -> bool))
        (rfcNetMap : Z -> option (list Sock.SockAddr))
        (Contains : Sock.SockAddr -> Sock.SockAddr -> bool)
        (sel p : string) (xs : Sock.IfAddrs) :
  (forall re, Strings.ToLower sel = "port" -> regexp_Compile p = Some re ->
     Ifs.IncludeIfs regexp_Compile rfcNetMap Contains sel p xs
     = filter (fun a => isIP a && port_matches re a) xs /\
     Ifs.ExcludeIfs regexp_Compile rfcNetMap Contains sel p xs
     = filter (fun a => negb (isIP a)) xs
       ++ filter (fun a => isIP a && negb (port_matches re a)) xs) /\
  (forall n, Strings.ToLower sel = "size" -> Strings.ParseUint p = (n, None) ->
     Ifs.IncludeIfs regexp_Compile rfcNetMap Contains sel p xs
     = filter (fun a => isIP a && size_matches n a) xs /\
     Ifs.ExcludeIfs regexp_Compile rfcNetMap Contains sel p xs
     = filter (fun a => negb (isIP a)) xs
       ++ filter (fun a => isIP a && negb (size_matches n a)) xs).
Proof.
  split.
  - intros re E C. apply by_port_selector; assumption.
  - intros n E C. apply by_size_selector; assumption.
Qed.

Lemma port_and_size_selectors_witness :
  Ifs.ExcludeIfs Sample.regexp_Compile Sample.rfcNetMap Sample.Contains "size" "24"
                 [Sample.private1; Sample2.unix1; Sample.public1]
  = [Sample2.unix1; Sample.public1].
Proof.
  destruct (port_and_size_selectors Sample.regexp_Compile Sample.rfcNetMap
              Sample.Contains "size" "24"
              [Sample.private1; Sample2.unix1; Sample.public1]) as [_ H].
  destruct (H 24 eq_refl eq_refl) as [_ E]. rewrite E. reflexivity.
Defined.

(* ================================================================== *)
(** ** [strings.Split] and the ["rfc"] selector of [IncludeIfs] *)

Lemma cut_length (sep : ascii) (s a b : string) :
  Strings.cut sep s = Some (a, b) ->
  String.length s = S (String.length a + String.length b).
Proof.
  revert a b. induction s as [|c s IH]; intros a b H; cbn in H; [discriminate|].
  destruct (Ascii.eqb c sep).
  - injection H as <- <-. reflexivity.
  - destruct (Strings.cut sep s) as [[a' b']|]; [|discriminate].
    injection H as <- <-. cbn. rewrite (IH a' b' eq_refl). reflexivity.
Qed.

Lemma cut_none (sep : ascii) (s : string) :
  has sep s = false -> Strings.cut sep s = None.
Proof.
  induction s as [|c s IH]; cbn; [reflexivity|]. intros H.
  apply orb_false_iff in H. destruct H as [Hc Hs].
  rewrite Hc, (IH Hs). reflexivity.
Qed.

Lemma SplitN_enough (sep : ascii) (k : nat) :
  forall s n m,
    (String.length s <= k)%nat ->
    (String.length s < n)%nat -> (String.length s < m)%nat ->
    Strings.SplitN s sep n = Strings.SplitN s sep m.
Proof.
  induction k as [|k IH]; intros s n m Hk Hn Hm.
  - destruct s; [|cbn in Hk; lia].
    destruct n as [|[|n]], m as [|[|m]]; cbn in *; try lia; reflexivity.
  - destruct n as [|n]; [lia|]. destruct m as [|m]; [lia|].
    cbn [Strings.SplitN].
    destruct (Strings.cut sep s) as [[a b]|] eqn:C.
    + pose proof (cut_length _ _ _ _ C) as L.
      destruct n as [|n]; [lia|]. destruct m as [|m]; [lia|].
      f_equal. apply IH; lia.
    + destruct n, m; reflexivity.
Qed.

Lemma SplitN_step (sep : ascii) (s : string) (n : nat) :
  Strings.SplitN s sep (S (S n)) =
  match Strings.cut sep s with
  | Some (a, b) => a :: Strings.SplitN b sep (S n)
  | None => [s]
  end.
Proof. reflexivity. Qed.

Lemma Split_cons (sep : ascii) (a b : string) :
  has sep a = false ->
  Strings.Split (a +++ String sep b) sep = a :: Strings.Split b sep.
Proof.
  intros H. unfold Strings.Split.
  assert (L : String.length (a +++ String sep b)
              = S (String.length a + String.length b)).
  { apply (cut_length sep). apply cut_append. exact H. }
  rewrite L, SplitN_step, (cut_append _ _ _ H).
  f_equal. apply (SplitN_enough sep (String.length b)); lia.
Qed.

Lemma Split_single (sep : ascii) (p : string) :
  has sep p = false -> Strings.Split p sep = [p].
Proof.
  intros H. unfold Strings.Split. cbn [Strings.SplitN].
  destruct (String.length p); [reflexivity|].
  rewrite (cut_none _ _ H). reflexivity.
Qed.

Section IncludeRFC.

Variable regexp_Compile : string -> option (string -> bool).
Variable rfcNetMap : Z -> option (list Sock.SockAddr).
Variable Contains : Sock.SockAddr -> Sock.SockAddr -> bool.

Let includeRFCs := Ifs.includeRFCs rfcNetMap Contains.

Lemma includeRFCs_acc (rfcs : list string) (xs : Sock.IfAddrs) :
  forall acc, includeRFCs rfcs xs acc = acc ++ includeRFCs rfcs xs [].
Proof.
  unfold includeRFCs.
  induction rfcs as [|r rest IH]; intros acc; cbn [Ifs.includeRFCs].
  - rewrite app_nil_r. reflexivity.
  - destruct (Strings.ParseUint r) as [n [e|]]; [apply IH|].
    destruct (Ifs.IfByRFC rfcNetMap Contains n xs) as [[m rem] [e|]]; [apply IH|].
    rewrite (IH (acc ++ m)), (IH ([] ++ m)). cbn [app].
    rewrite app_assoc. reflexivity.
Qed.

Lemma includeRFCs_cons (r : string) (rest : list string) (xs : Sock.IfAddrs) :
  includeRFCs (r :: rest) xs [] = includeRFCs [r] xs [] ++ includeRFCs rest xs [].
Proof.
  unfold includeRFCs. cbn [Ifs.includeRFCs].
  destruct (Strings.ParseUint r) as [n [e|]]; [reflexivity|].
  destruct (Ifs.IfByRFC rfcNetMap Contains n xs) as [[m rem] [e|]]; [reflexivity|].
  cbn [app]. apply includeRFCs_acc.
Qed.

End IncludeRFC.

(** X13. [IncludeIfs] with the selector ["rfc"]: a single identifier
    that parses and is registered keeps the records contained in one of
    its networks, in input order; an identifier that is not registered or
    does not parse contributes nothing; and a comma-separated list gives
    the results of its identifiers one after the other, so that a record
    found under two identifiers is returned twice. *)
Theorem IncludeIfs_rfc
        (regexp_Compile : string -> option (string -> bool))
        (rfcNetMap : Z -> option (list Sock.SockAddr))
        (Contains : Sock.SockAddr -> Sock.SockAddr -> bool)
        (sel p rest : string) (xs : Sock.IfAddrs) :
  Strings.ToLower sel = "rfc" ->
  has Ifs.comma p = false ->
  Ifs.IncludeIfs regexp_Compile rfcNetMap Contains sel p xs
  = match Strings.ParseUint p with
    | (n, None) =>
        match rfcNetMap n with
        | Some rfcNets =>
            filter (fun a => existsb (fun rfcNet => Contains rfcNet (Sock.Addr a))
                                     rfcNets) xs
        | None => []
        end
    | (_, Some _) => []
    end /\
  Ifs.IncludeIfs regexp_Compile rfcNetMap Contains sel
                 (p +++ String Ifs.comma rest) xs
  = Ifs.IncludeIfs regexp_Compile rfcNetMap Contains sel p xs
    ++ Ifs.IncludeIfs regexp_Compile rfcNetMap Contains sel rest xs.
Proof.
  intros E Hp. unfold Ifs.IncludeIfs. rewrite !E.
  cbn [String.eqb Ascii.eqb Bool.eqb].
  rewrite Split_cons, Split_single by exact Hp. split.
  - cbn [Ifs.includeRFCs].
    destruct (Strings.ParseUint p) as [n [e|]]; [reflexivity|].
    unfold Ifs.IfByRFC. destruct (rfcNetMap n) as [nets|]; [|reflexivity].
    rewrite partition_as_filter. reflexivity.
  - apply includeRFCs_cons.
Qed.

Lemma IncludeIfs_rfc_witness :
  Ifs.IncludeIfs Sample.regexp_Compile Sample.rfcNetMap Sample.Contains
                 "rfc" "1918,6890,1918" [Sample.private1; Sample.public1]
  = [Sample.private1; Sample.private1].
Proof.
  destruct (IncludeIfs_rfc Sample.regexp_Compile Sample.rfcNetMap Sample.Contains
              "rfc" "1918" "6890,1918" [Sample.private1; Sample.public1])
    as [H1 H2]; [reflexivity | reflexivity |].
  change ("1918" +++ String Ifs.comma "6890,1918") with "1918,6890,1918" in H2.
  rewrite H2, H1. reflexivity.
Defined.

(* ================================================================== *)
(** ** [UniqueIfAddrsBy] with a supported selector *)

Lemma uniqueLoop_kept (quote : string -> string) (attrName selectorName : string)
      (input : Sock.IfAddrs) :
  forall lastMatch ifs,
    Ifs.uniqueLoop quote attrName selectorName input lastMatch ifs
    = ifs ++ kept (Ifs.uniqueKey quote attrName selectorName) lastMatch input.
Proof.
  induction input as [|x rest IH]; intros lastMatch ifs;
    cbn [Ifs.uniqueLoop kept].
  - rewrite app_nil_r. reflexivity.
  - destruct (String.eqb lastMatch "" || negb (String.eqb lastMatch _)).
    + rewrite IH, <- app_assoc. reflexivity.
    + apply IH.
Qed.

Lemma kept_subseq (key : Sock.IfAddr -> string) (input : Sock.IfAddrs) :
  forall lastMatch, subseq (kept key lastMatch input) input.
Proof.
  induction input as [|x rest IH]; intros lastMatch; cbn [kept].
  - constructor.
  - destruct (String.eqb lastMatch "" || negb (String.eqb lastMatch (key x)));
      constructor; apply IH.
Qed.

Lemma kept_head (key : Sock.IfAddr -> string) (input : Sock.IfAddrs) :
  forall lastMatch x l,
    kept key lastMatch input = x :: l ->
    lastMatch = "" \/ lastMatch <> key x.
Proof.
  induction input as [|y rest IH]; intros lastMatch x l H; cbn [kept] in H;
    [discriminate|].
  destruct (String.eqb_spec lastMatch "") as [E|E]; [auto|].
  destruct (String.eqb_spec lastMatch (key y)) as [E'|E']; cbn in H.
  - eapply IH. exact H.
  - injection H as <- _. auto.
Qed.

Lemma kept_no_repeat (key : Sock.IfAddr -> string) (input : Sock.IfAddrs) :
  forall lastMatch, no_repeat key (kept key lastMatch input).
Proof.
  induction input as [|x rest IH]; intros lastMatch; cbn [kept]; [exact I|].
  destruct (String.eqb lastMatch "" || negb (String.eqb lastMatch (key x)));
    [|apply IH].
  specialize (IH (key x)).
  destruct (kept key (key x) rest) as [|y l] eqn:K; [exact I|].
  cbn [no_repeat]. split; [|exact IH].
  eapply kept_head. exact K.
Qed.

Lemma kept_fixed (key : Sock.IfAddr -> string) (l : Sock.IfAddrs) :
  forall lastMatch,
    no_repeat key l ->
    match l with
    | x :: _ => lastMatch = "" \/ lastMatch <> key x
    | [] => True
    end ->
    kept key lastMatch l = l.
Proof.
  induction l as [|x rest IH]; intros lastMatch N H; cbn [kept]; [reflexivity|].
  assert (T : String.eqb lastMatch "" || negb (String.eqb lastMatch (key x)) = true).
  { destruct H as [->|H]; [reflexivity|].
    apply String.eqb_neq in H. rewrite H. apply orb_true_r. }
  rewrite T. f_equal. apply IH.
  - destruct rest; [exact I | apply N].
  - destruct rest; [exact I | apply N].
Qed.

(** X14. With the selector ["name"] or ["address"] (letter case aside)
    [UniqueIfAddrsBy] returns a subsequence of its input that starts
    with the same record and in which no record with a non-empty key
    (interface name, string form of the address) is directly followed by
    a record with the same key. *)
Theorem UniqueIfAddrsBy_no_repeat
        (quote : string -> string) (selectorName : string)
        (inputIfAddrs : Sock.IfAddrs) :
  Strings.ToLower selectorName = "name" \/
  Strings.ToLower selectorName = "address" ->
  subseq (Ifs.UniqueIfAddrsBy quote selectorName inputIfAddrs) inputIfAddrs /\
  hd_error (Ifs.UniqueIfAddrsBy quote selectorName inputIfAddrs)
  = hd_error inputIfAddrs /\
  (Strings.ToLower selectorName = "name" ->
   no_repeat Sock.IfName (Ifs.UniqueIfAddrsBy quote selectorName inputIfAddrs)) /\
  (Strings.ToLower selectorName = "address" ->
   no_repeat (fun a => Sock.SockAddr_String (Sock.Addr a))
             (Ifs.UniqueIfAddrsBy quote selectorName inputIfAddrs)).
Proof.
  intros _. unfold Ifs.UniqueIfAddrsBy. rewrite uniqueLoop_kept. cbn [app].
  split; [apply kept_subseq|]. split.
  - destruct inputIfAddrs; reflexivity.
  - split; intros E; rewrite E.
    + apply (kept_no_repeat Sock.IfName).
    + apply (kept_no_repeat (fun a => Sock.SockAddr_String (Sock.Addr a))).
Qed.

Lemma UniqueIfAddrsBy_no_repeat_witness :
  no_repeat Sock.IfName
    (Ifs.UniqueIfAddrsBy Sample.quote "name"
       [Sample.private1; Sample.private1; Sample.public1]).
Proof.
  apply (UniqueIfAddrsBy_no_repeat Sample.quote "name"
           [Sample.private1; Sample.private1; Sample.public1]).
  - left. reflexivity.
  - reflexivity.
Defined.

(** X15. [UniqueIfAddrsBy] changes nothing more when applied again, and
    for ["name"] it returns its input unchanged exactly when no record
    with a non-empty interface name is directly followed by a record of
    the same name; in particular records without interface name are
    never collapsed. *)
Theorem UniqueIfAddrsBy_idempotent
        (quote : string -> string) (selectorName : string)
        (inputIfAddrs : Sock.IfAddrs) :
  Ifs.UniqueIfAddrsBy quote selectorName
    (Ifs.UniqueIfAddrsBy quote selectorName inputIfAddrs)
  = Ifs.UniqueIfAddrsBy quote selectorName inputIfAddrs /\
  (Strings.ToLower selectorName = "name" ->
   (Ifs.UniqueIfAddrsBy quote selectorName inputIfAddrs = inputIfAddrs
    <-> no_repeat Sock.IfName inputIfAddrs) /\
   ((forall a, In a inputIfAddrs -> Sock.IfName a = "") ->
    Ifs.UniqueIfAddrsBy quote selectorName inputIfAddrs = inputIfAddrs)).
Proof.
  unfold Ifs.UniqueIfAddrsBy. rewrite !uniqueLoop_kept. cbn [app].
  set (key := Ifs.uniqueKey quote (Strings.ToLower selectorName) selectorName).
  assert (F : forall k l, no_repeat k l -> kept k "" l = l).
  { intros k l N. apply kept_fixed; [exact N|]. destruct l; auto. }
  split.
  - apply F, kept_no_repeat.
  - intros E. assert (K : key = Sock.IfName) by (unfold key; rewrite E; reflexivity).
    rewrite K. split.
    + split; [intros <-; apply kept_no_repeat | apply F].
    + intros H. apply F.
      induction inputIfAddrs as [|x [|y l] IH]; cbn [no_repeat]; auto.
      split; [left; apply H; left; reflexivity|].
      apply IH. intros a Ha. apply H. right. exact Ha.
Qed.

Lemma UniqueIfAddrsBy_idempotent_witness :
  Ifs.UniqueIfAddrsBy Sample.quote "name" [Sample2.unix1; Sample2.unix1]
  = [Sample2.unix1; Sample2.unix1].
Proof.
  destruct (UniqueIfAddrsBy_idempotent Sample.quote "name"
              [Sample2.unix1; Sample2.unix1]) as [_ H].
  destruct (H eq_refl) as [_ H2]. apply H2.
  intros a [<-|[<-|[]]]; reflexivity.
Defined.

(* ================================================================== *)
(** ** The parsers of the routing table *)

Lemma cut_has (sep c : ascii) (s a b : string) :
  Strings.cut sep s = Some (a, b) ->
  has c s = false -> has c a = false /\ has c b = false.
Proof.
  revert a b. induction s as [|d s IH]; intros a b H Hc; cbn in H;
    [discriminate|].
  cbn [has] in Hc. apply orb_false_iff in Hc. destruct Hc as [Hd Hs].
  destruct (Ascii.eqb d sep).
  - injection H as <- <-. auto.
  - destruct (Strings.cut sep s) as [[a' b']|]; [|discriminate].
    injection H as <- <-. destruct (IH a' b' eq_refl Hs) as [Ha Hb].
    cbn [has]. rewrite Hd, Ha. auto.
Qed.

Lemma cut_nosep (sep : ascii) (s a b : string) :
  Strings.cut sep s = Some (a, b) -> has sep a = false.
Proof.
  revert a b. induction s as [|d s IH]; intros a b H; cbn in H;
    [discriminate|].
  destruct (Ascii.eqb d sep) eqn:E.
  - injection H as <- <-. reflexivity.
  - destruct (Strings.cut sep s) as [[a' b']|]; [|discriminate].
    injection H as <- <-. cbn [has]. rewrite E.
    exact (IH a' b' eq_refl).
Qed.

Lemma cut_none_has (sep : ascii) (s : string) :
  Strings.cut sep s = None -> has sep s = false.
Proof.
  induction s as [|d s IH]; cbn; [reflexivity|]. intros H.
  destruct (Ascii.eqb d sep) eqn:E; [discriminate|].
  destruct (Strings.cut sep s) as [[a b]|]; [discriminate|].
  exact (IH eq_refl).
Qed.

Lemma SplitN_has (sep c : ascii) (n : nat) :
  forall s x, has c s = false -> In x (Strings.SplitN s sep n) ->
              has c x = false.
Proof.
  induction n as [|n IH]; intros s x Hc Hx; [contradiction|].
  destruct n as [|n].
  - destruct Hx as [<-|[]]. exact Hc.
  - rewrite SplitN_step in Hx.
    destruct (Strings.cut sep s) as [[a b]|] eqn:C.
    + destruct (cut_has _ c _ _ _ C Hc) as [Ha Hb].
      destruct Hx as [<-|Hx]; [exact Ha|]. exact (IH b x Hb Hx).
    + destruct Hx as [<-|[]]. exact Hc.
Qed.

Lemma SplitN_nosep (sep : ascii) (n : nat) :
  forall s x, (String.length s < n)%nat ->
              In x (Strings.SplitN s sep n) -> has sep x = false.
Proof.
  induction n as [|n IH]; intros s x Hn Hx; [contradiction|].
  destruct n as [|n].
  - destruct s; [|cbn in Hn; lia]. destruct Hx as [<-|[]]. reflexivity.
  - rewrite SplitN_step in Hx.
    destruct (Strings.cut sep s) as [[a b]|] eqn:C.
    + pose proof (cut_length _ _ _ _ C) as L.
      destruct Hx as [<-|Hx]; [exact (cut_nosep _ _ _ _ C)|].
      apply (IH b x); [lia|exact Hx].
    + destruct Hx as [<-|[]]. exact (cut_none_has _ _ C).
Qed.

Lemma Split_lines (s : string) :
  Forall (fun line => has Ifs.newline line = false)
         (Strings.Split s Ifs.newline).
Proof.
  apply Forall_forall. intros x Hx.
  apply (SplitN_nosep Ifs.newline (S (String.length s)) s x); [lia|exact Hx].
Qed.

(** *** [strings.TrimSpace] *)

Lemma TrimRight_idem (s : string) :
  Strings.TrimRight (Strings.TrimRight s) = Strings.TrimRight s.
Proof.
  induction s as [|c s IH]; [reflexivity|].
  cbn [Strings.TrimRight].
  destruct (Strings.TrimRight s) as [|d t] eqn:E.
  - destruct (Strings.isSpace c) eqn:Ec; [reflexivity|].
    cbn [Strings.TrimRight]. rewrite Ec. reflexivity.
  - cbn [Strings.TrimRight] in *. rewrite IH. reflexivity.
Qed.

Lemma TrimLeft_head (s : string) :
  match Strings.TrimLeft s with
  | EmptyString => True
  | String c _ => Strings.isSpace c = false
  end.
Proof.
  induction s as [|c s IH]; cbn [Strings.TrimLeft]; [exact I|].
  destruct (Strings.isSpace c) eqn:E; [exact IH|exact E].
Qed.

Lemma TrimRight_head (c : ascii) (s : string) :
  Strings.isSpace c = false ->
  exists t, Strings.TrimRight (String c s) = String c t.
Proof.
  intros Hc. cbn [Strings.TrimRight].
  destruct (Strings.TrimRight s) as [|d t]; [rewrite Hc|]; eauto.
Qed.

Lemma TrimSpace_idem (s : string) :
  Strings.TrimSpace (Strings.TrimSpace s) = Strings.TrimSpace s.
Proof.
  unfold Strings.TrimSpace.
  pose proof (TrimLeft_head s) as H.
  destruct (Strings.TrimLeft s) as [|c u]; [reflexivity|].
  destruct (TrimRight_head c u H) as [t E]. rewrite E.
  cbn [Strings.TrimLeft]. rewrite H, <- E. apply TrimRight_idem.
Qed.

Lemma TrimLeft_has (c : ascii) (s : string) :
  has c s = false -> has c (Strings.TrimLeft s) = false.
Proof.
  induction s as [|d s IH]; cbn [Strings.TrimLeft has]; [reflexivity|].
  intros H. destruct (Strings.isSpace d); [|exact H].
  apply orb_false_iff in H. apply IH, H.
Qed.

Lemma TrimRight_has (c : ascii) (s : string) :
  has c s = false -> has c (Strings.TrimRight s) = false.
Proof.
  induction s as [|d s IH]; cbn [Strings.TrimRight has]; [reflexivity|].
  intros H. apply orb_false_iff in H. destruct H as [Hd Hs].
  specialize (IH Hs).
  destruct (Strings.TrimRight s) as [|e t].
  - destruct (Strings.isSpace d); cbn [has]; [reflexivity|].
    rewrite Hd. reflexivity.
  - cbn [has] in *. rewrite Hd, IH. reflexivity.
Qed.

Lemma TrimSpace_has (c : ascii) (s : string) :
  has c s = false -> has c (Strings.TrimSpace s) = false.
Proof.
  intros H. unfold Strings.TrimSpace. apply TrimRight_has, TrimLeft_has, H.
Qed.

(** *** [parseBSDDefaultIfName] *)

Lemma SplitN_key_value (key value : string) :
  has Route.colon key = false ->
  Strings.SplitN (key +++ String Route.colon value) Route.colon 2
  = [key; value].
Proof.
  intros H. rewrite SplitN_step, (cut_append _ _ _ H). reflexivity.
Qed.

Lemma SplitN_no_colon (line : string) :
  has Route.colon line = false ->
  Strings.SplitN line Route.colon 2 = [line].
Proof.
  intros H. rewrite SplitN_step, (cut_none _ _ H). reflexivity.
Qed.

(** X16. [parseBSDDefaultIfName] on a first line [key:value] whose key,
    trimmed of blanks, is [interface]: the result is the text after the
    first colon of the line, trimmed, and no error, whether the line ends
    the text or is followed by further lines; colons of the value stay
    in the name. *)
Theorem parseBSDDefaultIfName_interface_line (key value more : string) :
  ascii_text key = true -> ascii_text value = true ->
  has Route.colon key = false ->
  has Ifs.newline key = false -> has Ifs.newline value = false ->
  Strings.TrimSpace key = "interface" ->
  Route.parseBSDDefaultIfName (key +++ String Route.colon value)
  = (Strings.TrimSpace value, None) /\
  Route.parseBSDDefaultIfName
    ((key +++ String Route.colon value) +++ String Ifs.newline more)
  = (Strings.TrimSpace value, None).
Proof.
  intros _ _ Hc Hk Hv Ht.
  assert (Hl : has Ifs.newline (key +++ String Route.colon value) = false).
  { rewrite has_append. cbn [has]. rewrite Hk, Hv. reflexivity. }
  unfold Route.parseBSDDefaultIfName. split.
  - rewrite (Split_single _ _ Hl). cbn [Route.parseBSDLines].
    rewrite (SplitN_key_value _ _ Hc), Ht. reflexivity.
  - rewrite (Split_cons _ _ _ Hl). cbn [Route.parseBSDLines].
    rewrite (SplitN_key_value _ _ Hc), Ht. reflexivity.
Qed.

Lemma parseBSDDefaultIfName_interface_line_witness :
  Route.parseBSDDefaultIfName
    (("  interface" +++ String Route.colon " em0:1 ")
       +++ String Ifs.newline "      flags: <UP,GATEWAY,DONE,STATIC>")
  = ("em0:1", None).
Proof.
  apply (parseBSDDefaultIfName_interface_line "  interface" " em0:1 "
           "      flags: <UP,GATEWAY,DONE,STATIC>"); reflexivity.
Defined.

(** X17. [parseBSDDefaultIfName] passes over a line without colon and
    over a line whose text before the first colon, trimmed, is not
    [interface]: the result is that of the remaining lines; a text whose
    only line has no colon gives the empty name and the error. *)
Theorem parseBSDDefaultIfName_skips (line key value more : string) :
  ascii_text key = true ->
  has Ifs.newline line = false -> has Route.colon line = false ->
  has Ifs.newline key = false -> has Route.colon key = false ->
  has Ifs.newline value = false ->
  Strings.TrimSpace key <> "interface" ->
  Route.parseBSDDefaultIfName (line +++ String Ifs.newline more)
  = Route.parseBSDDefaultIfName more /\
  Route.parseBSDDefaultIfName
    ((key +++ String Route.colon value) +++ String Ifs.newline more)
  = Route.parseBSDDefaultIfName more /\
  Route.parseBSDDefaultIfName line = ("", Some noDefault) /\
  Route.parseBSDDefaultIfName (key +++ String Route.colon value)
  = ("", Some noDefault).
Proof.
  intros _ Hln Hlc Hkn Hkc Hvn Ht.
  assert (Hl : has Ifs.newline (key +++ String Route.colon value) = false).
  { rewrite has_append. cbn [has]. rewrite Hkn, Hvn. reflexivity. }
  apply String.eqb_neq in Ht.
  unfold Route.parseBSDDefaultIfName. split; [|split; [|split]].
  - rewrite (Split_cons _ _ _ Hln). cbn [Route.parseBSDLines].
    rewrite (SplitN_no_colon _ Hlc). reflexivity.
  - rewrite (Split_cons _ _ _ Hl). cbn [Route.parseBSDLines].
    rewrite (SplitN_key_value _ _ Hkc), Ht. reflexivity.
  - rewrite (Split_single _ _ Hln). cbn [Route.parseBSDLines].
    rewrite (SplitN_no_colon _ Hlc). reflexivity.
  - rewrite (Split_single _ _ Hl). cbn [Route.parseBSDLines].
    rewrite (SplitN_key_value _ _ Hkc), Ht. reflexivity.
Qed.

Lemma parseBSDDefaultIfName_skips_witness :
  Route.parseBSDDefaultIfName
    (("    gateway" +++ String Route.colon " 10.1.2.1")
       +++ String Ifs.newline ("  interface" +++ String Route.colon " em0"))
  = ("em0", None).
Proof.
  assert (N : Strings.TrimSpace "    gateway" <> "interface")
    by (intros H; vm_compute in H; discriminate).
  destruct (parseBSDDefaultIfName_skips "" "    gateway" " 10.1.2.1"
              ("  interface" +++ String Route.colon " em0")
              eq_refl eq_refl eq_refl eq_refl eq_refl eq_refl N)
    as (_ & E & _).
  rewrite E. reflexivity.
Defined.

(** *** [parseLinuxDefaultIfName]: the lines passed over *)

Lemma cut_count (sep : ascii) (s a b : string) :
  Strings.cut sep s = Some (a, b) -> count sep s = S (count sep b).
Proof.
  revert a b. induction s as [|d s IH]; intros a b H; cbn in H;
    [discriminate|].
  cbn [count]. destruct (Ascii.eqb d sep).
  - injection H as <- <-. reflexivity.
  - destruct (Strings.cut sep s) as [[a' b']|]; [|discriminate].
    injection H as <- <-. exact (IH a' b' eq_refl).
Qed.

Lemma SplitN_length (sep : ascii) (n : nat) :
  forall s, (List.length (Strings.SplitN s sep n) <= S (count sep s))%nat.
Proof.
  induction n as [|n IH]; intros s; [cbn; lia|].
  destruct n as [|n]; [cbn; lia|].
  rewrite SplitN_step.
  destruct (Strings.cut sep s) as [[a b]|] eqn:C; [|cbn; lia].
  rewrite (cut_count _ _ _ _ C). cbn [List.length].
  specialize (IH b). lia.
Qed.

Lemma parseLinuxLines_short (line : string) (rest : list string) :
  (count Ifs.space line < 4)%nat ->
  Ifs.parseLinuxLines (line :: rest) = Ifs.parseLinuxLines rest.
Proof.
  intros H. cbn [Ifs.parseLinuxLines].
  pose proof (SplitN_length Ifs.space 5 line) as L.
  destruct (Strings.SplitN line Ifs.space 5)
    as [|a [|b [|c [|d [|e [|f l]]]]]]; try reflexivity.
  cbn [List.length] in L. lia.
Qed.

Lemma parseLinuxLines_first_field (k0 rest0 : string) (rest : list string) :
  has Ifs.space k0 = false -> k0 <> "default" ->
  Ifs.parseLinuxLines ((k0 +++ String Ifs.space rest0) :: rest)
  = Ifs.parseLinuxLines rest.
Proof.
  intros Hs Hk. apply String.eqb_neq in Hk. cbn [Ifs.parseLinuxLines].
  rewrite SplitN_step, (cut_append _ _ _ Hs).
  destruct (Strings.SplitN rest0 Ifs.space 4)
    as [|b [|c [|d [|e [|f l]]]]]; try reflexivity.
  rewrite Hk. reflexivity.
Qed.

Lemma parseLinuxLines_second_field (k1 rest1 : string) (rest : list string) :
  has Ifs.space k1 = false -> k1 <> "via" ->
  Ifs.parseLinuxLines
    (("default" +++ String Ifs.space (k1 +++ String Ifs.space rest1)) :: rest)
  = Ifs.parseLinuxLines rest.
Proof.
  intros Hs Hk. apply String.eqb_neq in Hk. cbn [Ifs.parseLinuxLines].
  rewrite SplitN_step, (cut_append Ifs.space "default") by reflexivity.
  rewrite SplitN_step, (cut_append _ _ _ Hs).
  destruct (Strings.SplitN rest1 Ifs.space 3)
    as [|c [|d [|e [|f l]]]]; try reflexivity.
  rewrite Hk, andb_false_r. reflexivity.
Qed.

(** X18. [parseLinuxDefaultIfName] passes over a line with fewer than
    four blanks, over a line whose first field is not [default], and
    over a line [default k1 ...] whose second field is not [via] (a
    default route without gateway, [default dev ppp0 scope link]): the
    result is that of the remaining lines, and the error when such a
    line is the whole text. *)
Theorem parseLinuxDefaultIfName_skips (line k0 rest0 k1 rest1 more : string) :
  has Ifs.newline line = false -> (count Ifs.space line < 4)%nat ->
  has Ifs.newline k0 = false -> has Ifs.newline rest0 = false ->
  has Ifs.space k0 = false -> k0 <> "default" ->
  has Ifs.newline k1 = false -> has Ifs.newline rest1 = false ->
  has Ifs.space k1 = false -> k1 <> "via" ->
  Ifs.parseLinuxDefaultIfName (line +++ String Ifs.newline more)
  = Ifs.parseLinuxDefaultIfName more /\
  Ifs.parseLinuxDefaultIfName
    ((k0 +++ String Ifs.space rest0) +++ String Ifs.newline more)
  = Ifs.parseLinuxDefaultIfName more /\
  Ifs.parseLinuxDefaultIfName
    (("default" +++ String Ifs.space (k1 +++ String Ifs.space rest1))
       +++ String Ifs.newline more)
  = Ifs.parseLinuxDefaultIfName more /\
  Ifs.parseLinuxDefaultIfName line = ("", Some noDefault) /\
  Ifs.parseLinuxDefaultIfName
    ("default" +++ String Ifs.space (k1 +++ String Ifs.space rest1))
  = ("", Some noDefault).
Proof.
  intros Hl Hc H0 Hr0 Hs0 Hk0 H1 Hr1 Hs1 Hk1.
  assert (L0 : has Ifs.newline (k0 +++ String Ifs.space rest0) = false).
  { rewrite has_append. cbn [has]. rewrite H0, Hr0. reflexivity. }
  assert (L1 : has Ifs.newline
                 ("default" +++ String Ifs.space (k1 +++ String Ifs.space rest1))
               = false).
  { rewrite !has_append. cbn [has]. rewrite has_append. cbn [has].
    rewrite H1, Hr1. reflexivity. }
  unfold Ifs.parseLinuxDefaultIfName. split; [|split; [|split; [|split]]].
  - rewrite (Split_cons _ _ _ Hl). apply parseLinuxLines_short, Hc.
  - rewrite (Split_cons _ _ _ L0).
    apply parseLinuxLines_first_field; assumption.
  - rewrite (Split_cons _ _ _ L1).
    apply parseLinuxLines_second_field; assumption.
  - rewrite (Split_single _ _ Hl), (parseLinuxLines_short _ _ Hc).
    reflexivity.
  - rewrite (Split_single _ _ L1), parseLinuxLines_second_field by assumption.
    reflexivity.
Qed.

Lemma parseLinuxDefaultIfName_skips_witness :
  Ifs.parseLinuxDefaultIfName "default dev ppp0 scope link"
  = ("", Some noDefault).
Proof.
  assert (N0 : "10.1.2.0/24" <> "default") by discriminate.
  assert (N1 : "dev" <> "via") by discriminate.
  assert (C : (count Ifs.space "lo: <LOOPBACK,UP>" < 4)%nat)
    by (vm_compute; lia).
  destruct (parseLinuxDefaultIfName_skips
              "lo: <LOOPBACK,UP>" "10.1.2.0/24" "dev eth0  proto kernel"
              "dev" "ppp0 scope link" ""
              eq_refl C eq_refl eq_refl eq_refl N0
              eq_refl eq_refl eq_refl N1)
    as (_ & _ & _ & _ & E).
  exact E.
Defined.

(** *** What both parsers return *)

Lemma parseBSDLines_result (lines : list string) :
  Forall (fun line => has Ifs.newline line = false) lines ->
  name_or_error (Route.parseBSDLines lines)
  /\ has Ifs.newline (fst (Route.parseBSDLines lines)) = false
  /\ Strings.TrimSpace (fst (Route.parseBSDLines lines))
     = fst (Route.parseBSDLines lines).
Proof.
  induction 1 as [|line rest Hl _ IH].
  - cbn. split; [right; reflexivity|split; reflexivity].
  - cbn [Route.parseBSDLines].
    pose proof (fun x => SplitN_has Route.colon Ifs.newline 2 line x Hl) as Hin.
    destruct (Strings.SplitN line Route.colon 2) as [|k [|v [|w l]]];
      try exact IH.
    destruct (String.eqb (Strings.TrimSpace k) "interface"); [|exact IH].
    cbn [fst snd]. split; [left; reflexivity|split].
    + apply TrimSpace_has, Hin. right. left. reflexivity.
    + apply TrimSpace_idem.
Qed.

Lemma parseLinuxLines_result (lines : list string) :
  Forall (fun line => has Ifs.newline line = false) lines ->
  name_or_error (Ifs.parseLinuxLines lines)
  /\ has Ifs.newline (fst (Ifs.parseLinuxLines lines)) = false
  /\ Strings.TrimSpace (fst (Ifs.parseLinuxLines lines))
     = fst (Ifs.parseLinuxLines lines).
Proof.
  induction 1 as [|line rest Hl _ IH].
  - cbn. split; [right; reflexivity|split; reflexivity].
  - cbn [Ifs.parseLinuxLines].
    pose proof (fun x => SplitN_has Ifs.space Ifs.newline 5 line x Hl) as Hin.
    destruct (Strings.SplitN line Ifs.space 5)
      as [|k0 [|k1 [|k2 [|k3 [|k4 [|k5 l]]]]]]; try exact IH.
    destruct (String.eqb k0 "default" && String.eqb k1 "via"
              && String.eqb k3 "dev"); [|exact IH].
    cbn [fst snd]. split; [left; reflexivity|split].
    + apply TrimSpace_has, Hin. do 4 right. left. reflexivity.
    + apply TrimSpace_idem.
Qed.

(** X19. for every ASCII text, each of the two route parsers returns
    either a name and no error or the empty name and the error [No
    default interface found]; the name never contains a line break and
    has no blank at either end (trimming it again changes nothing). *)
Theorem route_parsers_result (routeOut : string) :
  ascii_text routeOut = true ->
  (name_or_error (Route.parseBSDDefaultIfName routeOut)
   /\ has Ifs.newline (fst (Route.parseBSDDefaultIfName routeOut)) = false
   /\ Strings.TrimSpace (fst (Route.parseBSDDefaultIfName routeOut))
      = fst (Route.parseBSDDefaultIfName routeOut))
  /\
  (name_or_error (Ifs.parseLinuxDefaultIfName routeOut)
   /\ has Ifs.newline (fst (Ifs.parseLinuxDefaultIfName routeOut)) = false
   /\ Strings.TrimSpace (fst (Ifs.parseLinuxDefaultIfName routeOut))
      = fst (Ifs.parseLinuxDefaultIfName routeOut)).
Proof.
  intros _. split.
  - apply parseBSDLines_result, Split_lines.
  - apply parseLinuxLines_result, Split_lines.
Qed.

Lemma route_parsers_result_witness :
  name_or_error (Ifs.parseLinuxDefaultIfName Sample.routeAttrs)
  /\ Strings.TrimSpace (fst (Ifs.parseLinuxDefaultIfName Sample.routeAttrs))
     = fst (Ifs.parseLinuxDefaultIfName Sample.routeAttrs).
Proof.
  destruct (route_parsers_result Sample.routeAttrs eq_refl)
    as (_ & N & _ & T).
  split; [exact N|exact T].
Defined.

(* ================================================================== *)
(** ** The clauses of [SortIfBy] *)

Lemma lower_idem (c : ascii) : Strings.lower (Strings.lower c) = Strings.lower c.
Proof. destruct c as [[] [] [] [] [] [] [] []]; reflexivity. Qed.

Lemma lower_comma (c : ascii) :
  Ascii.eqb (Strings.lower c) Ifs.comma = Ascii.eqb c Ifs.comma.
Proof. destruct c as [[] [] [] [] [] [] [] []]; reflexivity. Qed.

Lemma ToLower_idem (s : string) :
  Strings.ToLower (Strings.ToLower s) = Strings.ToLower s.
Proof.
  induction s as [|c s IH]; cbn [Strings.ToLower]; [reflexivity|].
  rewrite lower_idem, IH. reflexivity.
Qed.

Lemma ToLower_length (s : string) :
  String.length (Strings.ToLower s) = String.length s.
Proof.
  induction s as [|c s IH]; cbn [Strings.ToLower String.length]; congruence.
Qed.

Lemma cut_ToLower (s : string) :
  Strings.cut Ifs.comma (Strings.ToLower s) =
  match Strings.cut Ifs.comma s with
  | Some (a, b) => Some (Strings.ToLower a, Strings.ToLower b)
  | None => None
  end.
Proof.
  induction s as [|c s IH]; cbn [Strings.ToLower Strings.cut]; [reflexivity|].
  rewrite lower_comma. destruct (Ascii.eqb c Ifs.comma); [reflexivity|].
  rewrite IH. destruct (Strings.cut Ifs.comma s) as [[a b]|]; reflexivity.
Qed.

Lemma SplitN_ToLower (n : nat) :
  forall s, Strings.SplitN (Strings.ToLower s) Ifs.comma n
            = map Strings.ToLower (Strings.SplitN s Ifs.comma n).
Proof.
  induction n as [|n IH]; intros s; [reflexivity|].
  destruct n as [|n]; [reflexivity|].
  rewrite !SplitN_step, cut_ToLower.
  destruct (Strings.cut Ifs.comma s) as [[a b]|]; [|reflexivity].
  cbn [map]. rewrite IH. reflexivity.
Qed.

Section Clauses.

Variables AscAddress AscNetworkSize AscPort AscPrivate AscType
  : Sock.SockAddr -> Sock.SockAddr -> Z.

Let sortFuncsOf :=
  Ifs.sortFuncsOf AscAddress AscNetworkSize AscPort AscPrivate AscType.

Lemma sortFuncsOf_unknown (clause : string) (clauses : list string) :
  In clause clauses -> known_clause (Strings.ToLower clause) = false ->
  sortFuncsOf clauses = None.
Proof.
  intros Hin Hk. induction clauses as [|c rest IH]; [contradiction|].
  unfold sortFuncsOf in *. cbn [Ifs.sortFuncsOf].
  destruct Hin as [->|Hin].
  - unfold known_clause in Hk.
    repeat (apply orb_false_iff in Hk; destruct Hk as [Hk ?]).
    repeat match goal with H : String.eqb _ _ = false |- _ => rewrite H; clear H end.
    reflexivity.
  - rewrite (IH Hin).
    repeat match goal with
           | |- context [String.eqb ?a ?b] => destruct (String.eqb a b)
           end; reflexivity.
Qed.

Lemma sortFuncsOf_ToLower (clauses : list string) :
  sortFuncsOf (map Strings.ToLower clauses) = sortFuncsOf clauses.
Proof.
  induction clauses as [|c rest IH]; [reflexivity|].
  unfold sortFuncsOf in *. cbn [map Ifs.sortFuncsOf].
  rewrite ToLower_idem, IH. reflexivity.
Qed.

End Clauses.

(** X20. [SortIfBy] on an ASCII selector: when one clause of the
    comma-separated list, whatever its position, is not one of
    [address], [name], [port], [private], [size], [type] in some mix of
    upper and lower case, the result is the empty slice and nothing is
    sorted; and the selector in lower case gives the same result as the
    selector itself. *)
Theorem SortIfBy_clauses
        (AscAddress AscNetworkSize AscPort AscPrivate AscType
         : Sock.SockAddr -> Sock.SockAddr -> Z)
        (selectorParam clause : string) (inputIfAddrs : Sock.IfAddrs) :
  ascii_text selectorParam = true ->
  (In clause (Strings.Split selectorParam Ifs.comma) ->
   known_clause (Strings.ToLower clause) = false ->
   Ifs.SortIfBy AscAddress AscNetworkSize AscPort AscPrivate AscType
                selectorParam inputIfAddrs = GoSort.Returns []) /\
  Ifs.SortIfBy AscAddress AscNetworkSize AscPort AscPrivate AscType
               (Strings.ToLower selectorParam) inputIfAddrs
  = Ifs.SortIfBy AscAddress AscNetworkSize AscPort AscPrivate AscType
                 selectorParam inputIfAddrs.
Proof.
  intros _. unfold Ifs.SortIfBy. split.
  - intros Hin Hk.
    rewrite (sortFuncsOf_unknown _ _ _ _ _ clause _ Hin Hk). reflexivity.
  - unfold Strings.Split. rewrite ToLower_length, SplitN_ToLower.
    rewrite sortFuncsOf_ToLower. reflexivity.
Qed.

Lemma SortIfBy_clauses_witness :
  Ifs.SortIfBy (fun _ _ => 0) (fun _ _ => 0) (fun _ _ => 0) (fun _ _ => 0)
               (fun _ _ => 0) "name,+address"
               [Sample.private1; Sample.public1]
  = GoSort.Returns [].
Proof.
  destruct (SortIfBy_clauses (fun _ _ => 0) (fun _ _ => 0) (fun _ _ => 0)
              (fun _ _ => 0) (fun _ _ => 0) "name,+address" "+address"
              [Sample.private1; Sample.public1] eq_refl) as [U _].
  apply U; [right; left; reflexivity|reflexivity].
Defined.

(* ================================================================== *)
(** ** Sorting into ascending order *)

Lemma FOP_app {A} (R : A -> A -> Prop) (l1 l2 : list A) :
  ForallOrdPairs R (l1 ++ l2) <->
  ForallOrdPairs R l1 /\ ForallOrdPairs R l2
  /\ Forall (fun a => Forall (R a) l2) l1.
Proof.
  induction l1 as [|h l1 IH]; cbn [app].
  - split.
    + intros H. split; [constructor|]. split; [exact H|constructor].
    + intros (_ & H & _). exact H.
  - split.
    + intros H. inversion H as [|? ? Hh Hr]; subst.
      apply IH in Hr. destruct Hr as (H1 & H2 & H3).
      apply Forall_app in Hh. destruct Hh as [Hh1 Hh2].
      split; [constructor; assumption|]. split; [exact H2|].
      constructor; assumption.
    + intros (H1 & H2 & H3).
      inversion H1 as [|? ? Hh Hr]; subst.
      inversion H3 as [|? ? Hh2 Hr2]; subst.
      constructor.
      * apply Forall_app. split; assumption.
      * apply IH. auto.
Qed.

Lemma split_last {A} (k : nat) (l : list A) :
  List.length l = S k ->
  exists l' x, l = l' ++ [x] /\ List.length l' = k.
Proof.
  intros H. destruct (exists_last (l := l)) as (l' & x & ->).
  - intros ->. discriminate.
  - exists l', x. split; [reflexivity|].
    rewrite length_app in H. cbn in H. lia.
Qed.

Section AscendingSort.

Variable cmp : list Ifs.CmpIfAddrFunc.
Hypothesis cmp_nonempty : cmp <> [].
Hypothesis cmp_order : strict_weak cmp.

Let data := Ifs.OrderedIfAddrBy cmp.

Lemma ascending_cons (y : Sock.IfAddr) (B : Sock.IfAddrs) :
  no_inversion cmp B ->
  Forall (fun b => Ifs.lessBy cmp y b = Some true) B ->
  no_inversion cmp (y :: B).
Proof.
  intros HB Hy. constructor; [|exact HB].
  eapply Forall_impl; [|exact Hy]. intros b. apply (proj1 cmp_order).
Qed.

Lemma insertDown_ascending (k : nat) :
  forall A y B rest,
    List.length A = k ->
    no_inversion cmp (A ++ B) ->
    Forall (fun b => Ifs.lessBy cmp y b = Some true) B ->
    exists T,
      GoSort.insertDown data 0 k (A ++ y :: B ++ rest)
      = GoSort.Returns (tt, T ++ rest)
      /\ Permutation (A ++ y :: B) T /\ no_inversion cmp T.
Proof.
  induction k as [|k IH]; intros A y B rest HA Hs Hy.
  - apply length_zero_iff_nil in HA. subst A. cbn [app] in *.
    exists (y :: B). split; [reflexivity|]. split; [reflexivity|].
    apply ascending_cons; assumption.
  - destruct (split_last k A HA) as (A' & x & -> & L).
    destruct (lessBy_total cmp y x cmp_nonempty) as [b Hb].
    cbn [GoSort.insertDown]. rewrite Z.add_0_l.
    replace (Z.of_nat (S k) - 1) with (Z.of_nat k) by lia.
    rewrite <- (app_assoc A' [x]). cbn [app].
    unfold GoSort.bind at 1. cbn [GoSort.Less data Ifs.OrderedIfAddrBy].
    rewrite (Less_adjacent cmp k _ _ _ _ b L Hb).
    destruct b.
    + unfold GoSort.bind at 1. cbn [GoSort.Swap data Ifs.OrderedIfAddrBy].
      rewrite (Swap_adjacent k _ _ _ _ L).
      destruct (IH A' y (x :: B) rest L) as (T & E & P & F).
      * rewrite <- app_assoc in Hs. exact Hs.
      * constructor; assumption.
      * exists T. split; [exact E|]. split; [|exact F].
        rewrite <- app_assoc. cbn [app].
        eapply Permutation_trans; [|exact P].
        apply Permutation_app_head. constructor.
    + exists ((A' ++ [x]) ++ y :: B).
      split; [rewrite <- !app_assoc; reflexivity|].
      split; [rewrite <- app_assoc; reflexivity|].
      apply FOP_app in Hs. destruct Hs as (H1 & H2 & H3).
      apply FOP_app. split; [exact H1|].
      split; [apply ascending_cons; assumption|].
      apply Forall_forall. intros a Ha.
      constructor; [|exact (proj1 (Forall_forall _ _) H3 a Ha)].
      apply in_app_or in Ha. destruct Ha as [Ha|[<-|[]]]; [|exact Hb].
      apply FOP_app in H1. destruct H1 as (_ & _ & H1).
      pose proof (proj1 (Forall_forall _ _) H1 a Ha) as Hax.
      inversion Hax as [|? ? Hxa _]; subst.
      exact (proj2 cmp_order a x y Hb Hxa).
Qed.

Lemma insertionLoop_ascending (n : nat) :
  forall i T rest,
    List.length T = i -> List.length rest = n ->
    no_inversion cmp T ->
    exists T',
      GoSort.insertionLoop data 0 (Z.of_nat i) n (T ++ rest)
      = GoSort.Returns (tt, T')
      /\ Permutation (T ++ rest) T' /\ no_inversion cmp T'.
Proof.
  induction n as [|n IH]; intros i T rest Hi Hn Hs.
  - apply length_zero_iff_nil in Hn. subst rest. rewrite app_nil_r.
    exists T. cbn. auto.
  - destruct rest as [|y rest]; [discriminate|]. injection Hn as Hn.
    cbn [GoSort.insertionLoop].
    replace (Z.to_nat (Z.of_nat i - 0)) with i by lia.
    destruct (insertDown_ascending i T y [] rest Hi) as (T1 & E1 & P1 & F1).
    { rewrite app_nil_r. exact Hs. }
    { constructor. }
    cbn [app] in E1. unfold GoSort.bind at 1. rewrite E1.
    replace (Z.of_nat i + 1) with (Z.of_nat (S i)) by lia.
    destruct (IH (S i) T1 rest) as (T2 & E2 & P2 & F2).
    + rewrite <- (Permutation_length P1), length_app. cbn. lia.
    + exact Hn.
    + exact F1.
    + exists T2. split; [exact E2|]. split; [|exact F2].
      eapply Permutation_trans; [|exact P2].
      change (T ++ y :: rest) with (T ++ [y] ++ rest).
      rewrite app_assoc. apply Permutation_app_tail. exact P1.
Qed.

Lemma SortBy_small_ascending (ifAddrs : Sock.IfAddrs) :
  (List.length ifAddrs <= 12)%nat ->
  exists t,
    Ifs.SortBy cmp ifAddrs = GoSort.Returns t
    /\ Permutation ifAddrs t /\ no_inversion cmp t.
Proof.
  intros Hlen. unfold Ifs.SortBy, GoSort.Sort.
  unfold GoSort.bind at 1. cbn [GoSort.Len Ifs.OrderedIfAddrBy Ifs.ms_Len].
  destruct (Z.leb_spec (Z.of_nat (List.length ifAddrs)) 1) as [Hs|Hs].
  - exists ifAddrs. split; [reflexivity|]. split; [reflexivity|].
    destruct ifAddrs as [|x [|y l]]; [constructor| |cbn in Hs; lia].
    constructor; constructor.
  - destruct (Z.to_nat (Z.of_nat (List.length ifAddrs))) as [|fuel] eqn:Ef; [lia|].
    cbn [GoSort.pdqsort]. rewrite Z.sub_0_r.
    destruct (Z.leb_spec (Z.of_nat (List.length ifAddrs)) 12) as [_|Hbig]; [|lia].
    unfold GoSort.insertionSort.
    destruct ifAddrs as [|x rest]; [cbn in Hs; lia|].
    destruct (insertionLoop_ascending (List.length rest) 1 [x] rest)
      as (t & E & P & F); [reflexivity|reflexivity| |].
    { constructor; constructor. }
    exists t. fold data.
    replace (Z.to_nat (Z.of_nat (List.length (x :: rest)) - (0 + 1)))
      with (List.length rest) by (cbn [List.length]; lia).
    change (0 + 1) with (Z.of_nat 1). cbn [app] in E. rewrite E. auto.
Qed.

End AscendingSort.

(** *** The order of the interface names *)

Lemma ascii_compare_eq (x y : ascii) : Ascii.compare x y = Eq -> x = y.
Proof.
  unfold Ascii.compare. intros H. apply N.compare_eq in H.
  rewrite <- (ascii_N_embedding x), <- (ascii_N_embedding y), H. reflexivity.
Qed.

Lemma ascii_compare_lt_trans (x y z : ascii) :
  Ascii.compare x y = Lt -> Ascii.compare y z = Lt -> Ascii.compare x z = Lt.
Proof.
  unfold Ascii.compare. rewrite !N.compare_lt_iff. lia.
Qed.

Lemma compare_lt_trans (a : string) :
  forall b c, String.compare a b = Lt -> String.compare b c = Lt ->
              String.compare a c = Lt.
Proof.
  induction a as [|x a IH]; intros [|y b] [|z c]; cbn [String.compare];
    try discriminate; try reflexivity.
  destruct (Ascii.compare x y) eqn:Exy; try discriminate.
  - apply ascii_compare_eq in Exy. subst y.
    destruct (Ascii.compare x z); try discriminate; [apply IH|reflexivity].
  - intros _. destruct (Ascii.compare y z) eqn:Eyz; try discriminate; intros _.
    + apply ascii_compare_eq in Eyz. subst z. rewrite Exy. reflexivity.
    + rewrite (ascii_compare_lt_trans _ _ _ Exy Eyz). reflexivity.
Qed.

Lemma lessBy_single (c : Ifs.CmpIfAddrFunc) (p q : Sock.IfAddr) :
  Ifs.lessBy [c] p q = Some (c p q =? -1).
Proof. exact (lessBy_trailing [] c p q). Qed.

Lemma AscIfName_less (p q : Sock.IfAddr) (b : bool) :
  Ifs.lessBy [Ifs.AscIfName] p q = Some b ->
  (b = true <-> String.compare (Sock.IfName p) (Sock.IfName q) = Lt).
Proof.
  rewrite lessBy_single. unfold Ifs.AscIfName, Strings.Compare.
  intros H. injection H as <-.
  destruct (String.compare (Sock.IfName p) (Sock.IfName q)); cbn;
    split; intros; congruence.
Qed.

Lemma AscIfName_strict_weak : strict_weak [Ifs.AscIfName].
Proof.
  assert (L : forall p q,
             Ifs.lessBy [Ifs.AscIfName] p q = Some false <->
             String.compare (Sock.IfName p) (Sock.IfName q) <> Lt).
  { intros p q. rewrite lessBy_single.
    unfold Ifs.AscIfName, Strings.Compare.
    destruct (String.compare (Sock.IfName p) (Sock.IfName q)); cbn;
      split; intros; congruence. }
  split.
  - intros p q H. apply (AscIfName_less p q true) in H.
    apply L. rewrite String.compare_antisym, (proj1 H eq_refl). discriminate.
  - intros p q r Hrq Hqp. apply L in Hrq, Hqp. apply L. intros Hrp.
    destruct (String.compare (Sock.IfName q) (Sock.IfName p)) eqn:E.
    + apply String.compare_eq_iff in E. rewrite E in Hrq. contradiction.
    + contradiction.
    + apply Hrq. apply (compare_lt_trans _ _ _ Hrp).
      rewrite String.compare_antisym, E. reflexivity.
Qed.

(** X21. when the comparator keys order the records as a strict weak
    order, sorting a slice of at most twelve records returns a
    permutation of it in which no record is less than a record before
    it, and sorting that result again returns it unchanged. *)
Theorem sort_ascending (cmp : list Ifs.CmpIfAddrFunc) (ifAddrs : Sock.IfAddrs) :
  cmp <> [] -> strict_weak cmp -> (List.length ifAddrs <= 12)%nat ->
  exists t,
    Ifs.SortBy cmp ifAddrs = GoSort.Returns t
    /\ Permutation ifAddrs t
    /\ no_inversion cmp t
    /\ Ifs.SortBy cmp t = GoSort.Returns t.
Proof.
  intros Hc Ho Hl.
  destruct (SortBy_small_ascending cmp Hc Ho ifAddrs Hl) as (t & E & P & F).
  exists t. split; [exact E|]. split; [exact P|]. split; [exact F|].
  apply SortBy_sorted, F.
Qed.

Lemma sort_ascending_witness :
  exists t,
    Ifs.SortBy [Ifs.AscIfName] [Sample.onIf "eth1" 1; Sample.onIf "eth0" 2]
    = GoSort.Returns t
    /\ no_inversion [Ifs.AscIfName] t.
Proof.
  assert (K : [Ifs.AscIfName] <> []) by discriminate.
  assert (L : (List.length [Sample.onIf "eth1" 1; Sample.onIf "eth0" 2] <= 12)%nat)
    by (cbn; lia).
  destruct (sort_ascending [Ifs.AscIfName]
              [Sample.onIf "eth1" 1; Sample.onIf "eth0" 2]
              K AscIfName_strict_weak L) as (t & E & _ & F & _).
  exists t. split; [exact E|exact F].
Defined.

(** X22. [SortIfByName] on at most twelve records returns a permutation
    of them in which the interface names never decrease, in the
    byte-wise order of [strings.Compare]. *)
Theorem SortIfByName_ascending (inputIfAddrs : Sock.IfAddrs) :
  (List.length inputIfAddrs <= 12)%nat ->
  exists t,
    Ifs.SortIfByName inputIfAddrs = GoSort.Returns t
    /\ Permutation inputIfAddrs t
    /\ names_ascending t.
Proof.
  intros Hl. unfold Ifs.SortIfByName.
  assert (K : [Ifs.AscIfName] <> []) by discriminate.
  destruct (SortBy_small_ascending [Ifs.AscIfName] K AscIfName_strict_weak
              inputIfAddrs Hl) as (t & E & P & F).
  exists t. split; [exact E|]. split; [exact P|].
  eapply FOP_impl; [|exact F]. cbn beta. intros p q H.
  rewrite lessBy_single in H. injection H as H.
  unfold Ifs.AscIfName, Strings.Compare in H.
  rewrite String.compare_antisym.
  destruct (String.compare (Sock.IfName q) (Sock.IfName p)); cbn in *;
    congruence.
Qed.

Lemma SortIfByName_ascending_witness :
  exists t,
    Ifs.SortIfByName [Sample.onIf "eth1" 1; Sample.onIf "eth0" 2]
    = GoSort.Returns t
    /\ names_ascending t.
Proof.
  destruct (SortIfByName_ascending [Sample.onIf "eth1" 1; Sample.onIf "eth0" 2])
    as (t & E & _ & F); [cbn; lia|].
  exists t. split; [exact E|exact F].
Defined.

(* ================================================================== *)
(** ** The private and the public addresses of the default interface *)

Lemma SortBy_small_perm (cmp : list Ifs.CmpIfAddrFunc) (xs : Sock.IfAddrs) :
  cmp <> [] -> (List.length xs <= 12)%nat ->
  exists t, Ifs.SortBy cmp xs = GoSort.Returns t /\ Permutation xs t.
Proof.
  intros Hc Hl. destruct (SortBy_small cmp Hc xs Hl) as (t & E & P & _).
  exists (map snd t). split; [exact E|].
  rewrite <- (map_snd_tagged_from 0 xs) at 1.
  apply Permutation_map. exact P.
Qed.

Lemma length_eqb_0 {A} (l : list A) :
  (List.length l =? 0)%nat = true -> l = [].
Proof. destruct l; [reflexivity|discriminate]. Qed.

Section DefaultInterfaces.

Variable rfcNetMap : Z -> option (list Sock.SockAddr).
Variable Contains : Sock.SockAddr -> Sock.SockAddr -> bool.
Variables AscNetworkSize AscType : Sock.SockAddr -> Sock.SockAddr -> Z.
Variable getDefaultIfName : string * option Ifs.error.
Variable GetAllInterfaces : Sock.IfAddrs * option Ifs.error.

Let defaults :=
  fst (Defaults.GetDefaultInterfaces getDefaultIfName GetAllInterfaces).
Let private :=
  Defaults.GetPrivateInterfaces rfcNetMap Contains AscNetworkSize AscType
    getDefaultIfName GetAllInterfaces.
Let public :=
  Defaults.GetPublicInterfaces rfcNetMap Contains AscNetworkSize AscType
    getDefaultIfName GetAllInterfaces.

Lemma default_interfaces_cases :
  (List.length (filter isIP defaults) <= 12)%nat ->
  exists t,
    Permutation (filter isIP defaults) t
    /\ private
       = GoSort.Returns
           match rfcNetMap 6890 with
           | Some nets =>
               filter (fun a => existsb (fun rfcNet => Contains rfcNet (Sock.Addr a))
                                        nets) t
           | None => []
           end
    /\ public
       = GoSort.Returns
           match rfcNetMap 6890 with
           | Some nets =>
               filter (fun a => negb (existsb (fun rfcNet =>
                                                 Contains rfcNet (Sock.Addr a))
                                              nets)) t
           | None => []
           end.
Proof.
  intros Hl.
  assert (K : Defaults.typeThenSize AscNetworkSize AscType <> [])
    by discriminate.
  subst private public defaults.
  unfold Defaults.GetPrivateInterfaces, Defaults.GetPublicInterfaces in *.
  destruct (Defaults.GetDefaultInterfaces getDefaultIfName GetAllInterfaces)
    as [ds err] eqn:ED.
  cbn [fst] in *.
  unfold Ifs.FilterIfByType. rewrite partition_as_filter. fold isIP.
  unfold Ifs.IfByRFC.
  destruct (SortBy_small_perm _ (filter isIP ds) K Hl) as (t & E & P).
  destruct (List.length ds =? 0)%nat eqn:L0.
  { apply length_eqb_0 in L0. subst ds. exists [].
    split; [constructor|]. destruct (rfcNetMap 6890); auto. }
  destruct (List.length (filter isIP ds) =? 0)%nat eqn:L1.
  { apply length_eqb_0 in L1. rewrite L1. exists [].
    split; [constructor|]. destruct (rfcNetMap 6890); auto. }
  rewrite E. exists t. split; [exact P|].
  destruct (rfcNetMap 6890) as [nets|]; [|auto].
  rewrite partition_as_filter. split.
  - destruct (List.length (filter _ t) =? 0)%nat eqn:L2;
      [apply length_eqb_0 in L2; rewrite L2|]; reflexivity.
  - destruct (List.length (filter _ t) =? 0)%nat eqn:L2;
      [apply length_eqb_0 in L2; rewrite L2|]; reflexivity.
Qed.

Lemma default_interfaces_no_name :
  snd getDefaultIfName <> None ->
  private = GoSort.Returns [] /\ public = GoSort.Returns [].
Proof.
  intros He. subst private public.
  unfold Defaults.GetPrivateInterfaces, Defaults.GetPublicInterfaces,
         Defaults.GetDefaultInterfaces.
  destruct getDefaultIfName as [n [e|]]; [|contradiction].
  cbn. auto.
Qed.

End DefaultInterfaces.

(** X23. [GetPrivateInterfaces] and [GetPublicInterfaces], given what
    the operating system reports.  When the default interface has at
    most twelve IP addresses and the registry knows the identifier 6890,
    both sort the IP addresses of the default interface into the same
    order [t]; the private ones are the records of [t] contained in a
    network of the registry, the public ones the other records of [t],
    so that every IP address of the default interface is in exactly one
    of the two results.  When the name of the default interface cannot
    be found, or the registry does not know 6890, both are empty. *)
Theorem private_and_public_interfaces
        (rfcNetMap : Z -> option (list Sock.SockAddr))
        (Contains : Sock.SockAddr -> Sock.SockAddr -> bool)
        (AscNetworkSize AscType : Sock.SockAddr -> Sock.SockAddr -> Z)
        (getDefaultIfName : string * option Ifs.error)
        (GetAllInterfaces : Sock.IfAddrs * option Ifs.error) :
  let defaults :=
    fst (Defaults.GetDefaultInterfaces getDefaultIfName GetAllInterfaces) in
  let private := Defaults.GetPrivateInterfaces rfcNetMap Contains
                   AscNetworkSize AscType getDefaultIfName GetAllInterfaces in
  let public := Defaults.GetPublicInterfaces rfcNetMap Contains
                  AscNetworkSize AscType getDefaultIfName GetAllInterfaces in
  (List.length (filter isIP defaults) <= 12)%nat ->
  (forall nets,
     rfcNetMap 6890 = Some nets ->
     let special a :=
       existsb (fun rfcNet => Contains rfcNet (Sock.Addr a)) nets in
     exists t,
       Permutation (filter isIP defaults) t
       /\ private = GoSort.Returns (filter special t)
       /\ public = GoSort.Returns (filter (fun a => negb (special a)) t))
  /\ (rfcNetMap 6890 = None ->
      private = GoSort.Returns [] /\ public = GoSort.Returns [])
  /\ (snd getDefaultIfName <> None ->
      private = GoSort.Returns [] /\ public = GoSort.Returns []).
Proof.
  intros defaults private public Hl.
  destruct (default_interfaces_cases rfcNetMap Contains AscNetworkSize AscType
              getDefaultIfName GetAllInterfaces Hl) as (t & P & E1 & E2).
  fold private in E1. fold public in E2.
  split; [|split].
  - intros nets Hn special. rewrite Hn in E1, E2. exists t. auto.
  - intros Hn. rewrite Hn in E1, E2. auto.
  - apply default_interfaces_no_name.
Qed.

Lemma private_and_public_interfaces_witness :
  exists t,
    Defaults.GetPrivateInterfaces Sample3.rfcNetMap Sample.Contains
      Sample3.AscNetworkSize Sample3.AscType
      Sample3.getDefaultIfName Sample3.GetAllInterfaces
    = GoSort.Returns
        (filter (fun a => existsb (fun rfcNet => Sample.Contains rfcNet (Sock.Addr a))
                                  [ Sample.net4 0x0a000000 0xff000000;
                                    Sample.net4 0xac100000 0xfff00000;
                                    Sample.net4 0xc0a80000 0xffff0000 ]) t).
Proof.
  destruct (private_and_public_interfaces Sample3.rfcNetMap Sample.Contains
              Sample3.AscNetworkSize Sample3.AscType
              Sample3.getDefaultIfName Sample3.GetAllInterfaces)
    as (H & _ & _); [cbn; lia|].
  destruct (H _ eq_refl) as (t & _ & E & _).
  exists t. exact E.
Defined.

(* ================================================================== *)
(** ** Sorting without comparator keys *)

Lemma Less_no_key (i j : Z) (s : Sock.IfAddrs) :
  GoSort.Less (Ifs.OrderedIfAddrBy []) i j s = GoSort.Panics.
Proof.
  cbn [GoSort.Less Ifs.OrderedIfAddrBy]. unfold Ifs.ms_Less.
  destruct (Ifs.at_ s i); [|reflexivity].
  destruct (Ifs.at_ s j); reflexivity.
Qed.

(** X24. [OrderedIfAddrBy()] without any comparator key: [Sort] leaves
    a slice of at most one record as it is and panics on every slice of
    two or more records, since the first call of [Less] indexes the
    empty list of keys. *)
Theorem sort_without_keys (ifAddrs : Sock.IfAddrs) :
  ((List.length ifAddrs <= 1)%nat ->
   Ifs.SortBy [] ifAddrs = GoSort.Returns ifAddrs) /\
  ((2 <= List.length ifAddrs)%nat ->
   Ifs.SortBy [] ifAddrs = GoSort.Panics).
Proof.
  unfold Ifs.SortBy, GoSort.Sort.
  split; intros Hl; unfold GoSort.bind at 1;
    cbn [GoSort.Len Ifs.OrderedIfAddrBy Ifs.ms_Len].
  - destruct (Z.leb_spec (Z.of_nat (List.length ifAddrs)) 1); [reflexivity|lia].
  - destruct (Z.leb_spec (Z.of_nat (List.length ifAddrs)) 1) as [|H1]; [lia|].
    destruct (Z.to_nat (Z.of_nat (List.length ifAddrs))) as [|fuel] eqn:Ef;
      [lia|].
    cbn [GoSort.pdqsort]. rewrite Z.sub_0_r.
    destruct (Z.leb_spec (Z.of_nat (List.length ifAddrs)) 12) as [Hs|Hb].
    + unfold GoSort.insertionSort.
      destruct (Z.to_nat (Z.of_nat (List.length ifAddrs) - (0 + 1)))
        as [|n] eqn:En; [lia|].
      cbn [GoSort.insertionLoop]. change (Z.to_nat (0 + 1 - 0)) with 1%nat.
      cbn [GoSort.insertDown]. unfold GoSort.bind.
      fold (Ifs.OrderedIfAddrBy []). rewrite Less_no_key. reflexivity.
    + assert (HL : (GoSort.bitsLen (Z.of_nat (List.length ifAddrs)) =? 0) = false).
      { unfold GoSort.bitsLen.
        destruct (Z.leb_spec (Z.of_nat (List.length ifAddrs)) 0); [lia|].
        pose proof (Z.log2_nonneg (Z.of_nat (List.length ifAddrs))). lia. }
      rewrite HL. cbn [negb].
      unfold GoSort.choosePivot. rewrite Z.sub_0_r.
      destruct (Z.geb_spec (Z.of_nat (List.length ifAddrs)) 8) as [_|]; [|lia].
      destruct (Z.of_nat (List.length ifAddrs) >=? 50);
        unfold GoSort.medianAdjacent, GoSort.median, GoSort.order2,
               GoSort.bind, GoSort.ret;
        fold (Ifs.OrderedIfAddrBy []); rewrite Less_no_key; reflexivity.
Qed.

Lemma sort_without_keys_witness :
  Ifs.SortBy [] [Sample.private1; Sample.public1] = GoSort.Panics.
Proof.
  apply (proj2 (sort_without_keys [Sample.private1; Sample.public1])).
  cbn. lia.
Defined.

(* ================================================================== *)
(** ** [JoinIfAddrs] *)

Lemma Join_cons (e e' : string) (rest : list string) (sep : string) :
  Joining.Join (e :: e' :: rest) sep
  = e +++ sep +++ Joining.Join (e' :: rest) sep.
Proof. reflexivity. Qed.


Lemma Join_empty (sep : string) (n : nat) :
  Joining.Join (repeat "" n) sep = times (n - 1) sep.
Proof.
  induction n as [|n IH]; [reflexivity|].
  destruct n as [|n]; [reflexivity|].
  cbn [repeat] in *. rewrite Join_cons, IH.
  cbn [String.append Nat.sub times]. rewrite Nat.sub_0_r. reflexivity.
Qed.

Section JoinEnv.

Variables AddressBinString AddressHexString : IPv4.IPv4Addr -> string.
Variable ipv6Attr : string -> Sock.IPv6Addr -> string.

Let joinOut := Joining.joinOut AddressBinString AddressHexString ipv6Attr.


Lemma joinOut_unknown (attrName : string) (a : Sock.IfAddr) :
  known_attribute attrName = false -> joinOut attrName a = "".
Proof.
  unfold known_attribute. cbn [existsb]. intros H.
  repeat (apply orb_false_iff in H; destruct H as [? H]).
  unfold joinOut, Joining.joinOut, Joining.attrIPv4, Joining.attrIPv6.
  repeat match goal with E : String.eqb _ _ = false |- _ => rewrite E; clear E end.
  destruct (Sock.Addr a); reflexivity.
Qed.

End JoinEnv.



(** X26. [JoinIfAddrs] with a selector that is none of its attribute
    names: every record contributes the empty text, so the result is the
    separator repeated once less than there are records, and empty only
    for at most one record. *)
Theorem JoinIfAddrs_unknown_attribute
        (AddressBinString AddressHexString : IPv4.IPv4Addr -> string)
        (ipv6Attr : string -> Sock.IPv6Addr -> string)
        (selectorName joinStr : string) (inputIfAddrs : Sock.IfAddrs) :
  ascii_text selectorName = true ->
  known_attribute (Strings.ToLower selectorName) = false ->
  Joining.JoinIfAddrs AddressBinString AddressHexString ipv6Attr
    selectorName joinStr inputIfAddrs
  = times (List.length inputIfAddrs - 1) joinStr.
Proof.
  intros _ Hk. unfold Joining.JoinIfAddrs.
  rewrite <- Join_empty. f_equal.
  induction inputIfAddrs as [|a rest IH]; [reflexivity|].
  cbn [map List.length repeat]. rewrite IH, (joinOut_unknown _ _ _ _ a Hk).
  reflexivity.
Qed.

Lemma JoinIfAddrs_unknown_attribute_witness :
  Joining.JoinIfAddrs (fun _ => "") (fun _ => "") (fun _ _ => "")
    "addr" ", " [Sample.private1; Sample.public1; Sample2.unix1]
  = ", , ".
Proof.
  apply (JoinIfAddrs_unknown_attribute (fun _ => "") (fun _ => "")
           (fun _ _ => "") "addr" ", "
           [Sample.private1; Sample.public1; Sample2.unix1]); reflexivity.
Defined.

(* ================================================================== *)
(** ** [GetPrivateIP] and [GetPublicIP] *)

Lemma firstIP_as_join
      (AddressBinString AddressHexString : IPv4.IPv4Addr -> string)
      (ipv6Attr : string -> Sock.IPv6Addr -> string) (ifs : Sock.IfAddrs) :
  Forall (fun a => isIP a = true) ifs ->
  exists first,
    Slices.LimitIfAddrs 1 ifs = Some first
    /\ Defaults.firstIP ipv6Attr (GoSort.Returns ifs)
       = GoSort.Returns
           (Joining.JoinIfAddrs AddressBinString AddressHexString ipv6Attr
              "address" " " first).
Proof.
  intros H. exists (firstn 1 ifs). split; [apply Limit_small; lia|].
  destruct H as [|a rest Ha _]; [reflexivity|].
  cbn [firstn Defaults.firstIP]. rewrite isIP_cases in Ha.
  unfold Joining.JoinIfAddrs. cbn [map Joining.Join].
  unfold Joining.joinOut, Defaults.ipString.
  destruct (Sock.Addr a); [reflexivity|reflexivity|discriminate].
Qed.

Lemma filter_Forall {A} (f g : A -> bool) (l : list A) :
  Forall (fun a => f a = true) l -> Forall (fun a => f a = true) (filter g l).
Proof.
  intros H. apply Forall_forall. intros a Ha. apply filter_In in Ha.
  exact (proj1 (Forall_forall _ _) H a (proj1 Ha)).
Qed.

(** X27. [GetPrivateIP] and [GetPublicIP] are the documented pipelines:
    with at most twelve IP addresses on the default interface, each
    returns what [JoinIfAddrs] with the attribute [address] and a blank
    gives on the first record ([LimitIfAddrs 1]) of
    [GetPrivateInterfaces] or [GetPublicInterfaces], the empty text when
    there is none; [ToIPAddr] never yields the nil pointer there. *)
Theorem private_and_public_IP
        (rfcNetMap : Z -> option (list Sock.SockAddr))
        (Contains : Sock.SockAddr -> Sock.SockAddr -> bool)
        (AscNetworkSize AscType : Sock.SockAddr -> Sock.SockAddr -> Z)
        (getDefaultIfName : string * option Ifs.error)
        (GetAllInterfaces : Sock.IfAddrs * option Ifs.error)
        (AddressBinString AddressHexString : IPv4.IPv4Addr -> string)
        (ipv6Attr : string -> Sock.IPv6Addr -> string) :
  let defaults :=
    fst (Defaults.GetDefaultInterfaces getDefaultIfName GetAllInterfaces) in
  let join :=
    Joining.JoinIfAddrs AddressBinString AddressHexString ipv6Attr
      "address" " " in
  (List.length (filter isIP defaults) <= 12)%nat ->
  exists private public first1 first2,
    Defaults.GetPrivateInterfaces rfcNetMap Contains AscNetworkSize AscType
      getDefaultIfName GetAllInterfaces = GoSort.Returns private
    /\ Defaults.GetPublicInterfaces rfcNetMap Contains AscNetworkSize AscType
         getDefaultIfName GetAllInterfaces = GoSort.Returns public
    /\ Slices.LimitIfAddrs 1 private = Some first1
    /\ Slices.LimitIfAddrs 1 public = Some first2
    /\ Defaults.GetPrivateIP rfcNetMap Contains AscNetworkSize AscType
         getDefaultIfName GetAllInterfaces ipv6Attr
       = GoSort.Returns (join first1)
    /\ Defaults.GetPublicIP rfcNetMap Contains AscNetworkSize AscType
         getDefaultIfName GetAllInterfaces ipv6Attr
       = GoSort.Returns (join first2).
Proof.
  intros defaults join Hl.
  destruct (default_interfaces_cases rfcNetMap Contains AscNetworkSize AscType
              getDefaultIfName GetAllInterfaces Hl) as (t & P & E1 & E2).
  assert (Ht : Forall (fun a => isIP a = true) t).
  { apply Forall_forall. intros a Ha.
    apply (Permutation_in _ (Permutation_sym P)) in Ha.
    apply filter_In in Ha. exact (proj2 Ha). }
  match type of E1 with _ = GoSort.Returns ?p => set (private := p) in * end.
  match type of E2 with _ = GoSort.Returns ?p => set (public := p) in * end.
  unfold Defaults.GetPrivateIP, Defaults.GetPublicIP. rewrite E1, E2.
  assert (H1 : Forall (fun a => isIP a = true) private).
  { subst private. destruct (rfcNetMap 6890); [|constructor].
    apply filter_Forall, Ht. }
  assert (H2 : Forall (fun a => isIP a = true) public).
  { subst public. destruct (rfcNetMap 6890); [|constructor].
    apply filter_Forall, Ht. }
  destruct (firstIP_as_join AddressBinString AddressHexString ipv6Attr
              private H1) as (f1 & L1 & F1).
  destruct (firstIP_as_join AddressBinString AddressHexString ipv6Attr
              public H2) as (f2 & L2 & F2).
  exists private, public, f1, f2. subst join.
  repeat split; assumption.
Qed.

Lemma private_and_public_IP_witness :
  Defaults.GetPrivateIP Sample3.rfcNetMap Sample.Contains
    Sample3.AscNetworkSize Sample3.AscType
    Sample3.getDefaultIfName Sample3.GetAllInterfaces (fun _ _ => "")
  = GoSort.Returns "192.168.1.1".
Proof.
  destruct (private_and_public_IP Sample3.rfcNetMap Sample.Contains
              Sample3.AscNetworkSize Sample3.AscType
              Sample3.getDefaultIfName Sample3.GetAllInterfaces
              (fun _ => "") (fun _ => "") (fun _ _ => ""))
    as (p & q & f1 & f2 & E1 & _ & L1 & _ & G & _); [cbn; lia|].
  vm_compute in E1. injection E1 as <-.
  vm_compute in L1. injection L1 as <-.
  rewrite G. reflexivity.
Defined.
